(** * 10x15cm Photo Formatter: letterbox geometry and batch driver

    A shallow embedding of [src/photo_formatter.py] and of
    [src/10x15_Photo_Formatter.py]: the pure functions, the batch drivers
    and the callbacks of the windows.

    - Python [int] is [Z]; Python [float] is IEEE-754 binary64, taken from
      the executable specification [SpecFloat] of the Standard Library
      ([prec = 53], [emax = 1024]); every float operation of the source is
      the corresponding [SpecFloat] operation, so the roundings of the code
      are the roundings of the model.
    - Python exceptions are the [Raise] branch of [result].
    - A PIL image is its mode, its size, its EXIF orientation and a symbolic
      description of its pixel content ([pixels]).
    - The destination directory is a finite map from file names to what is
      stored under them: the image saved and the keywords it was saved
      with, or an incomplete file. How the encoder's writing of a file
      ends, and the value of [self.stop_flag] met by each read of the
      worker, are answered by environment functions.
    - A window is the attributes its callbacks read and write; what the
      callbacks ask of Python and of the file system is an environment
      record. *)

From Stdlib Require Import ZArith Bool List Lia Floats.SpecFloat Reals Lra.
From stdpp Require Import gmap strings list pretty.

Open Scope Z_scope.

(** ** Python values, exceptions and numeric operations *)

Module Py.

Inductive exn : Type :=
| ZeroDivisionError
| OverflowError
| ValueError
| OSError
| UnidentifiedImageError.

Inductive result (A : Type) : Type :=
| Ok (a : A)
| Raise (e : exn).

Arguments Ok {A} a.
Arguments Raise {A} e.

Definition bind {A B : Type} (r : result A) (k : A -> result B) : result B :=
  match r with
  | Ok a => k a
  | Raise e => Raise e
  end.

(** binary64 *)
Definition prec : Z := 53.
Definition emax : Z := 1024.

Abbreviation float := spec_float.

(** A Python number as the source passes it around: [cm] is an [int]
    literal at the call sites and a float in general. *)
Inductive num : Type :=
| Int (n : Z)
| Float (x : float).

(** Conversions from [int] raise [OverflowError] where the IEEE operation
    would deliver an infinity. *)
Definition finite_or_overflow (x : float) : result float :=
  match x with
  | S754_infinity _ => Raise OverflowError
  | _ => Ok x
  end.

(** [float(n)] for an [int]: correctly rounded, [OverflowError] when the
    rounded value is not finite. *)
Definition float_of_int (n : Z) : result float :=
  finite_or_overflow (binary_normalize prec emax n 0 false).

Definition to_float (x : num) : result float :=
  match x with
  | Int n => float_of_int n
  | Float f => Ok f
  end.

(** [a / b] on two floats: [ZeroDivisionError] on a zero divisor, the
    IEEE quotient otherwise. *)
Definition float_truediv (a b : float) : result float :=
  match b with
  | S754_zero _ => Raise ZeroDivisionError
  | _ => Ok (SFdiv prec emax a b)
  end.

(** [a * b] on two floats never raises. *)
Definition float_mul (a b : float) : float := SFmul prec emax a b.

(** [a / b] on two ints: the correctly rounded quotient of the exact
    integers. *)
Definition int_truediv (a b : Z) : result float :=
  if b =? 0 then Raise ZeroDivisionError
  else if a =? 0 then Ok (S754_zero (b <? 0))
  else
    let '(mz, ez, lz) := SFdiv_core_binary prec emax (Z.abs a) 0 (Z.abs b) 0 in
    finite_or_overflow
      (binary_round_aux prec emax (xorb (a <? 0) (b <? 0)) mz ez lz).

(** The float literal [2.54]: the double nearest to 254/100. *)
Definition lit_2_54 : float :=
  Eval vm_compute in
    (let '(mz, ez, lz) := SFdiv_core_binary prec emax 254 0 100 0 in
     binary_round_aux prec emax false mz ez lz).

(** Nearest integer to [m / 2^k], ties to the even integer. *)
Definition round_half_even (m : Z) (k : positive) : Z :=
  let q := m / 2 ^ Zpos k in
  let r := m mod 2 ^ Zpos k in
  match 2 * r ?= 2 ^ Zpos k with
  | Lt => q
  | Gt => q + 1
  | Eq => if Z.even q then q else q + 1
  end.

(** [round(x)] with one argument: an [int], half to even; it raises on
    infinities and NaN. *)
Definition round (x : float) : result Z :=
  match x with
  | S754_nan => Raise ValueError
  | S754_infinity _ => Raise OverflowError
  | S754_zero _ => Ok 0
  | S754_finite s m e =>
      Ok (cond_Zopp s
            match e with
            | Zneg k => round_half_even (Zpos m) k
            | _ => Zpos m * 2 ^ e
            end)
  end.

(** [math.floor(x)]: an [int]; it raises on infinities and NaN. *)
Definition floor (x : float) : result Z :=
  match x with
  | S754_nan => Raise ValueError
  | S754_infinity _ => Raise OverflowError
  | S754_zero _ => Ok 0
  | S754_finite s m e =>
      Ok match e with
         | Zneg k => cond_Zopp s (Zpos m) / 2 ^ Zpos k
         | _ => cond_Zopp s (Zpos m * 2 ^ e)
         end
  end.

(** [min(a, b)] on floats keeps the first argument unless the second is
    smaller. *)
Definition min (a b : float) : float :=
  if SFltb b a then b else a.

(** [max(a, b)] on ints keeps the first argument unless the second is
    larger. *)
Definition max (a b : Z) : Z :=
  if a <? b then b else a.

End Py.

#[global] Instance result_ret : MRet Py.result := @Py.Ok.
#[global] Instance result_bind : MBind Py.result := fun A B k r => Py.bind r k.


(** ** The part of Pillow the program uses

    Images are tracked by mode, size, EXIF orientation and transparency
    marker; the pixel buffer is a symbolic term recording how it was
    produced. *)

Module PIL.

Inductive mode : Type := L | LA | P | RGB | RGBA | CMYK.

#[global] Instance mode_eq_dec : EqDecision mode.
Proof. solve_decision. Defined.

Inductive filter : Type := NEAREST | BILINEAR | BICUBIC | LANCZOS.

Definition color : Type := Z * Z * Z.

Inductive pixels : Type :=
| Decoded (file : string)
| Solid (c : color)
| Transposed (orientation : Z) (p : pixels)
| Converted (m : mode) (p : pixels)
| Resized (w h : Z) (f : filter) (p : pixels)
| Pasted (under over : pixels) (box : Z * Z)
| PastedMasked (under over : pixels) (box : Z * Z) (mask : pixels).

(** The EXIF block of an image: the bytes of the file, or these bytes
    rewritten without the orientation tag. *)
Inductive exif_data : Type :=
| Raw (bytes : string)
| WithoutOrientation (e : exif_data).

Record image : Type := {
  img_mode : mode;
  size : Z * Z;
  (** EXIF tag 0x0112 when the file carries one *)
  orientation : option Z;
  (** ["transparency" in img.info] *)
  transparency : bool;
  (** [img.info.get("exif")] *)
  exif : option exif_data;
  content : pixels
}.

(** [ImageOps.exif_transpose]: orientations 2 to 8 are applied and the tag
    removed, also from the EXIF block; 5 to 8 exchange width and height. *)
Definition exif_transpose (img : image) : image :=
  match orientation img with
  | Some o =>
      if (2 <=? o) && (o <=? 8) then
        {| img_mode := img_mode img;
           size := if 5 <=? o then (snd (size img), fst (size img))
                   else size img;
           orientation := None;
           transparency := transparency img;
           exif := WithoutOrientation <$> exif img;
           content := Transposed o (content img) |}
      else img
  | None => img
  end.

(** [img.convert(m)] *)
Definition convert (img : image) (m : mode) : image :=
  {| img_mode := m;
     size := size img;
     orientation := orientation img;
     transparency := transparency img;
     exif := exif img;
     content := Converted m (content img) |}.

(** [img.resize((w, h), f)]: [ValueError] unless both are positive. *)
Definition resize (img : image) (wh : Z * Z) (f : filter) : Py.result image :=
  if (0 <? fst wh) && (0 <? snd wh) then
    Py.Ok {| img_mode := img_mode img;
             size := wh;
             orientation := orientation img;
             transparency := transparency img;
             exif := exif img;
             content := Resized (fst wh) (snd wh) f (content img) |}
  else Py.Raise Py.ValueError.

(** [Image.new(m, (w, h), c)]: [ValueError] on a negative side. *)
Definition new (m : mode) (wh : Z * Z) (c : color) : Py.result image :=
  if (0 <=? fst wh) && (0 <=? snd wh) then
    Py.Ok {| img_mode := m;
             size := wh;
             orientation := None;
             transparency := false;
             exif := None;
             content := Solid c |}
  else Py.Raise Py.ValueError.

(** [canvas.paste(im, box, mask)] overpaints in place: mode and size of
    the canvas stay. *)
Definition paste (canvas im : image) (box : Z * Z) (mask : option image)
  : image :=
  {| img_mode := img_mode canvas;
     size := size canvas;
     orientation := orientation canvas;
     transparency := transparency canvas;
     exif := exif canvas;
     content :=
       match mask with
       | None => Pasted (content canvas) (content im) box
       | Some m =>
           PastedMasked (content canvas) (content im) box (content m)
       end |}.

(** A value given for a keyword of [Image.save]. *)
Inductive param : Type :=
| Str (s : string)
| Num (n : Z)
| Flag (b : bool)
| Pair (a b : Z)
| Block (e : exif_data).

End PIL.

(** ** The pure core of photo_formatter.py *)

Module photo_formatter.

(** [cm_to_px(cm, dpi)], lines 38-40. *)
Definition cm_to_px (cm : Py.num) (dpi : Z) : Py.result Z :=
  c ← Py.to_float cm;
  inches ← Py.float_truediv c Py.lit_2_54;
  d ← Py.float_of_int dpi;
  Py.round (Py.float_mul inches d).

(** [compute_target_canvas(img_w, img_h, dpi)], lines 42-50. *)
Definition compute_target_canvas (img_w img_h dpi : Z) : Py.result (Z * Z) :=
  if img_w >=? img_h then
    w ← cm_to_px (Py.Int 15) dpi;
    h ← cm_to_px (Py.Int 10) dpi;
    Py.Ok (w, h)
  else
    w ← cm_to_px (Py.Int 10) dpi;
    h ← cm_to_px (Py.Int 15) dpi;
    Py.Ok (w, h).

(** [fit_with_letterbox(img, target_w, target_h, bg_color)], lines 52-83. *)
Definition fit_with_letterbox (img : PIL.image) (target_w target_h : Z)
    (bg_color : PIL.color) : Py.result PIL.image :=
  let img := PIL.exif_transpose img in
  let has_alpha :=
    bool_decide (PIL.img_mode img = PIL.RGBA \/ PIL.img_mode img = PIL.LA)
    || PIL.transparency img in
  let img :=
    if has_alpha then PIL.convert img PIL.RGBA else PIL.convert img PIL.RGB in
  let '(src_w, src_h) := PIL.size img in
  rw ← Py.int_truediv target_w src_w;
  rh ← Py.int_truediv target_h src_h;
  let scale := Py.min rw rh in
  fw ← Py.float_of_int src_w;
  iw ← Py.floor (Py.float_mul fw scale);
  let new_w := Py.max 1 iw in
  fh ← Py.float_of_int src_h;
  ih ← Py.floor (Py.float_mul fh scale);
  let new_h := Py.max 1 ih in
  resized ← PIL.resize img (new_w, new_h) PIL.LANCZOS;
  canvas ← PIL.new PIL.RGB (target_w, target_h) bg_color;
  let off_x := (target_w - new_w) / 2 in
  let off_y := (target_h - new_h) / 2 in
  if bool_decide (PIL.img_mode resized = PIL.RGBA) then
    Py.Ok (PIL.paste canvas resized (off_x, off_y) (Some resized))
  else
    Py.Ok (PIL.paste canvas resized (off_x, off_y) None).

(** The default [bg_color=(255, 255, 255)]. *)
Definition white : PIL.color := (255, 255, 255).

End photo_formatter.

(** ** The batch driver of photo_formatter.py *)

Module App.

(** [SUPPORTED_EXTS], line 27. *)
Definition SUPPORTED_EXTS : list string :=
  [".jpg"; ".jpeg"; ".png"; ".heic"; ".heif"; ".webp"].

(** [str.lower] on the ASCII letters. *)
Definition lower_ascii (c : Ascii.ascii) : Ascii.ascii :=
  let n := Ascii.nat_of_ascii c in
  if (65 <=? n)%nat && (n <=? 90)%nat then Ascii.ascii_of_nat (n + 32)
  else c.

Fixpoint lower (s : string) : string :=
  match s with
  | EmptyString => EmptyString
  | String c s' => String (lower_ascii c) (lower s')
  end.

(** An entry of [in_dir.rglob("*")]. *)
Record path : Type := {
  parent : string;
  stem : string;
  suffix : string;
  is_file : bool
}.

(** [p.name] *)
Definition name (p : path) : string := stem p +:+ suffix p.

(** How the encoder's writing of a file ends: the whole file is written
    and the call returns; or the call returns with only a part of the file
    written, a short write going unnoticed; or the call raises. *)
Inductive save_outcome : Type :=
| Written
| WrittenShort
| Failed (e : Py.exn).

(** A file stored in the output directory: the image saved and the
    keywords it was saved with, or an incomplete file. *)
Inductive stored : Type :=
| Complete (img : PIL.image) (params : gmap string PIL.param)
| Truncated.

(** The environment of a run: the codec flag [heif_ok] computed at import,
    what [Image.open] delivers for a path, how the writing of an image
    under a name with given keywords ends, and the value of
    [self.stop_flag] met by the worker's [k]-th read of it. *)
Record world : Type := {
  heif_ok : bool;
  image_open : path -> Py.result PIL.image;
  image_save : string -> PIL.image -> gmap string PIL.param -> save_outcome;
  stop_flag : nat -> bool
}.

(** [canvas.save(dest, **params)]. Pillow opens the file under the name it
    is given, which creates it when it does not exist, and the encoder
    writes into it: the file is written to its final name. When the
    encoder raises, Pillow removes the file if it had created it, and
    raises again; a file that existed before stays, incomplete. *)
Definition save (w : world) (d : gmap string stored) (canvas : PIL.image)
    (dest : string) (params : gmap string PIL.param)
  : gmap string stored * Py.result unit :=
  match image_save w dest canvas params with
  | Written => (<[dest := Complete canvas params]> d, Py.Ok ())
  | WrittenShort => (<[dest := Truncated]> d, Py.Ok ())
  | Failed e =>
      (if bool_decide (is_Some (d !! dest)) then <[dest := Truncated]> d
       else delete dest d,
       Py.Raise e)
  end.

Inductive log_line : Type :=
| SKIP (file : string)
| OK (file : string)
| ERR (file : string) (e : Py.exn).

(** The texts given to [self.status_var.set]. *)
Inductive status : Type :=
| Initializing
| NoImages
| Found (total : nat)
| Processing (idx total err : nat)
| Final (stopped : bool) (ok skip err : nat).

(** The [stats] dictionary of [process_all]. *)
Record stats : Type := { ok : nat; skip : nat; err : nat }.

(** The state the worker reads and writes. *)
Record app : Type := {
  reads : nat;
  log : list log_line;
  progress_maximum : nat;
  progress_value : nat;
  status_var : status;
  out_dir : gmap string stored
}.

Definition log_msg (self : app) (l : log_line) : app :=
  {| reads := reads self; log := log self ++ [l];
     progress_maximum := progress_maximum self;
     progress_value := progress_value self;
     status_var := status_var self; out_dir := out_dir self |}.

Definition set_progress (self : app) (v : nat) : app :=
  {| reads := reads self; log := log self;
     progress_maximum := progress_maximum self;
     progress_value := v;
     status_var := status_var self; out_dir := out_dir self |}.

Definition set_status (self : app) (s : status) : app :=
  {| reads := reads self; log := log self;
     progress_maximum := progress_maximum self;
     progress_value := progress_value self;
     status_var := s; out_dir := out_dir self |}.

Definition set_out_dir (self : app) (d : gmap string stored) : app :=
  {| reads := reads self; log := log self;
     progress_maximum := progress_maximum self;
     progress_value := progress_value self;
     status_var := status_var self; out_dir := d |}.

(** One read of [self.stop_flag]. *)
Definition read_stop_flag (w : world) (self : app) : bool * app :=
  (stop_flag w (reads self),
   {| reads := S (reads self); log := log self;
      progress_maximum := progress_maximum self;
      progress_value := progress_value self;
      status_var := status_var self; out_dir := out_dir self |}).

(** [f"{base}_10x15_{counter}.jpg"] *)
Definition numbered (base : string) (counter : nat) : string :=
  base +:+ "_10x15_" +:+ pretty counter +:+ ".jpg".

(** The loop of lines 290-292; [fuel] bounds its iterations. *)
Fixpoint probe (fuel : nat) (d : gmap string stored) (base dest : string)
    (counter : nat) : string :=
  match fuel with
  | O => dest
  | S fuel' =>
      if bool_decide (is_Some (d !! dest)) then
        probe fuel' d base (numbered base counter) (S counter)
      else dest
  end.

(** Lines 286-292. The loop leaves as soon as a name is free, which
    happens within one more probe than the directory has files. *)
Definition unique_dest (d : gmap string stored) (base : string) : string :=
  probe (S (size d)) d base (base +:+ "_10x15.jpg") 1.

(** [save_args], lines 296-297. The EXIF block of an image is never the
    empty byte string, so that [if exif] asks whether there is one. *)
Definition save_args (dpi : Z) (exif : option PIL.exif_data)
  : gmap string PIL.param :=
  let save_args : gmap string PIL.param :=
    {[ "format" := PIL.Str "JPEG"; "quality" := PIL.Num 95;
       "subsampling" := PIL.Num 0; "dpi" := PIL.Pair dpi dpi ]} in
  match exif with
  | Some e => <["exif" := PIL.Block e]> save_args
  | None => save_args
  end.

(** The body of the [try], lines 277-299, up to and including the save:
    the directory it leaves and the name written, or the exception. *)
Definition convert (w : world) (dpi : Z) (d : gmap string stored) (f : path)
  : gmap string stored * Py.result string :=
  match
    im ← image_open w f;
    let im := PIL.exif_transpose im in
    let '(iw, ih) := PIL.size im in
    '(tw, th) ← photo_formatter.compute_target_canvas iw ih dpi;
    canvas ← photo_formatter.fit_with_letterbox im tw th photo_formatter.white;
    Py.Ok (im, canvas)
  with
  | Py.Raise e => (d, Py.Raise e)
  | Py.Ok (im, canvas) =>
      let dest := unique_dest d (stem f) in
      let exif := PIL.exif im in
      match save w d canvas dest (save_args dpi exif) with
      | (d, Py.Ok _) => (d, Py.Ok dest)
      | (d, Py.Raise e) => (d, Py.Raise e)
      end
  end.

Definition is_heic (f : path) : bool :=
  bool_decide (lower (suffix f) ∈ [".heic"; ".heif"]).

(** The [for] loop, lines 267-308; [idx] is the index [enumerate] gives
    to the head of [files]. *)
Fixpoint loop (w : world) (dpi : Z) (total : nat) (files : list path)
    (idx : nat) (self : app) (st : stats) : app * stats :=
  match files with
  | [] => (self, st)
  | f :: rest =>
      let '(stop, self) := read_stop_flag w self in
      if stop then (self, st)
      else if is_heic f && negb (heif_ok w) then
        let self := log_msg self (SKIP (name f)) in
        let st := {| ok := ok st; skip := S (skip st); err := err st |} in
        let self := set_progress self idx in
        loop w dpi total rest (S idx) self st
      else
        let '(d, r) := convert w dpi (out_dir self) f in
        let self := set_out_dir self d in
        let '(self, st) :=
          match r with
          | Py.Ok _ =>
              (log_msg self (OK (name f)),
               {| ok := S (ok st); skip := skip st; err := err st |})
          | Py.Raise e =>
              (log_msg self (ERR (name f) e),
               {| ok := ok st; skip := skip st; err := S (err st) |})
          end in
        let self := set_progress self idx in
        let self := set_status self (Processing idx total (err st)) in
        loop w dpi total rest (S idx) self st
  end.

(** The filter of line 255. *)
Definition supported (p : path) : bool :=
  is_file p && bool_decide (lower (suffix p) ∈ SUPPORTED_EXTS).

(** [process_all(self, in_dir, out_dir, dpi)], lines 254-311; [tree] is
    what [in_dir.rglob("*")] yields. *)
Definition process_all (w : world) (self : app) (tree : list path) (dpi : Z)
  : app :=
  let files := List.filter supported tree in
  let total := length files in
  if (total =? 0)%nat then set_status self NoImages
  else
    let self :=
      {| reads := reads self; log := log self;
         progress_maximum := total; progress_value := 0;
         status_var := Found total; out_dir := out_dir self |} in
    let '(self, st) :=
      loop w dpi total files 1 self {| ok := 0; skip := 0; err := 0 |} in
    let '(stop, self) := read_stop_flag w self in
    set_status self (Final stop (ok st) (skip st) (err st)).

(** The DPI check of [start], lines 203-204, on the parsed integer. *)
Definition check_dpi (dpi : Z) : Py.result Z :=
  if (72 <=? dpi) && (dpi <=? 1200) then Py.Ok dpi else Py.Raise Py.ValueError.

End App.

(** ** The pure core of 10x15_Photo_Formatter.py *)

Module Photo_Formatter_10x15.

(** [cm_to_px(cm, dpi)], lines 29-31. *)
Definition cm_to_px (cm : Py.num) (dpi : Z) : Py.result Z :=
  c ← Py.to_float cm;
  inches ← Py.float_truediv c Py.lit_2_54;
  d ← Py.float_of_int dpi;
  Py.round (Py.float_mul inches d).

(** [compute_target_canvas(img_w, img_h, dpi)], lines 34-45. *)
Definition compute_target_canvas (img_w img_h dpi : Z) : Py.result (Z * Z) :=
  if img_w >=? img_h then
    w ← cm_to_px (Py.Int 15) dpi;
    h ← cm_to_px (Py.Int 10) dpi;
    Py.Ok (w, h)
  else
    w ← cm_to_px (Py.Int 10) dpi;
    h ← cm_to_px (Py.Int 15) dpi;
    Py.Ok (w, h).

(** [fit_with_letterbox(img, target_w, target_h, bg_color)], lines 48-81. *)
Definition fit_with_letterbox (img : PIL.image) (target_w target_h : Z)
    (bg_color : PIL.color) : Py.result PIL.image :=
  let img := PIL.exif_transpose img in
  let has_alpha :=
    bool_decide (PIL.img_mode img = PIL.RGBA \/ PIL.img_mode img = PIL.LA)
    || PIL.transparency img in
  let img :=
    if has_alpha then PIL.convert img PIL.RGBA else PIL.convert img PIL.RGB in
  let '(src_w, src_h) := PIL.size img in
  rw ← Py.int_truediv target_w src_w;
  rh ← Py.int_truediv target_h src_h;
  let scale := Py.min rw rh in
  fw ← Py.float_of_int src_w;
  iw ← Py.floor (Py.float_mul fw scale);
  let new_w := Py.max 1 iw in
  fh ← Py.float_of_int src_h;
  ih ← Py.floor (Py.float_mul fh scale);
  let new_h := Py.max 1 ih in
  resized ← PIL.resize img (new_w, new_h) PIL.LANCZOS;
  canvas ← PIL.new PIL.RGB (target_w, target_h) bg_color;
  let off_x := (target_w - new_w) / 2 in
  let off_y := (target_h - new_h) / 2 in
  if bool_decide (PIL.img_mode resized = PIL.RGBA) then
    Py.Ok (PIL.paste canvas resized (off_x, off_y) (Some resized))
  else
    Py.Ok (PIL.paste canvas resized (off_x, off_y) None).

(** [save_kwargs], lines 294-303. *)
Definition save_kwargs (dpi : Z) (exif_bytes : option PIL.exif_data)
  : gmap string PIL.param :=
  let save_kwargs : gmap string PIL.param :=
    {[ "format" := PIL.Str "JPEG"; "quality" := PIL.Num 95;
       "subsampling" := PIL.Str "4:2:0"; "optimize" := PIL.Flag true;
       "progressive" := PIL.Flag true; "dpi" := PIL.Pair dpi dpi ]} in
  match exif_bytes with
  | Some e => <["exif" := PIL.Block e]> save_kwargs
  | None => save_kwargs
  end.

(** The body of the [try] of [process_all], lines 271-307, up to and
    including the save. The loop of lines 287-290 is the one of
    [photo_formatter.py]; the EXIF block is taken from the image as
    opened, and the save has keywords of its own. *)
Definition convert (w : App.world) (dpi : Z) (d : gmap string App.stored)
    (f : App.path) : gmap string App.stored * Py.result string :=
  match
    im ← App.image_open w f;
    let im_oriented := PIL.exif_transpose im in
    let '(iw, ih) := PIL.size im_oriented in
    '(target_w, target_h) ← compute_target_canvas iw ih dpi;
    canvas ← fit_with_letterbox im_oriented target_w target_h (255, 255, 255);
    Py.Ok (im, canvas)
  with
  | Py.Raise e => (d, Py.Raise e)
  | Py.Ok (im, canvas) =>
      let out_path := App.unique_dest d (App.stem f) in
      let exif_bytes := PIL.exif im in
      match App.save w d canvas out_path (save_kwargs dpi exif_bytes) with
      | (d, Py.Ok _) => (d, Py.Ok out_path)
      | (d, Py.Raise e) => (d, Py.Raise e)
      end
  end.

End Photo_Formatter_10x15.

(** ** The controls of the two programs

    The callbacks of the window: what they read of the entries, what they
    write to the buttons, the log and the status line, and the thread
    they start. The worker thread itself is [process_all]. *)

Module Tk.

(** The [state] option of a button. *)
Inductive state : Type := normal | disabled.

(** What the callbacks ask of Python and of the file system:
    [text.strip()], [int(text)], [Path(text).exists()],
    [Path(text).mkdir(parents=True, exist_ok=True)] with the exception it
    raises if any, and [str(Path(d) / name)]. *)
Record env : Type := {
  strip : string -> string;
  int : string -> Py.result Z;
  path_exists : string -> bool;
  mkdir : string -> option Py.exn;
  joinpath : string -> string -> string
}.

(** [threading.Thread(target=self.process_all, args=(in_dir, out_dir, dpi))] *)
Record thread : Type := {
  in_dir : string;
  out_dir : string;
  dpi : Z
}.

(** The attributes of [App] the callbacks read and write, over the type
    [row] of the rows of the log. [threads] holds the threads started, the
    latest first: [self.worker] is its head, and [is_alive] is what
    [self.worker.is_alive()] answers. [errors] holds the texts given to
    [messagebox.showerror], the latest first, and [after] counts the calls
    of [poll_worker] that [root.after] has scheduled and that have not run
    yet. *)
Record app (row : Type) : Type := {
  input_dir : string;
  output_dir : string;
  dpi_var : string;
  status_var : string;
  threads : list thread;
  is_alive : bool;
  stop_flag : bool;
  start_btn : state;
  stop_btn : state;
  open_btn : state;
  log : list row;
  errors : list string;
  after : nat
}.

Arguments input_dir {row} _.
Arguments output_dir {row} _.
Arguments dpi_var {row} _.
Arguments status_var {row} _.
Arguments threads {row} _.
Arguments is_alive {row} _.
Arguments stop_flag {row} _.
Arguments start_btn {row} _.
Arguments stop_btn {row} _.
Arguments open_btn {row} _.
Arguments log {row} _.
Arguments errors {row} _.
Arguments after {row} _.

(** [self.worker and self.worker.is_alive()] *)
Definition worker_running {row : Type} (self : app row) : bool :=
  match threads self with
  | [] => false
  | _ :: _ => is_alive self
  end.

(** Truth value of a [str]. *)
Definition truthy (s : string) : bool := negb (bool_decide (s = "")).

Definition showerror {row : Type} (self : app row) (text : string)
  : app row :=
  {| input_dir := input_dir self; output_dir := output_dir self;
     dpi_var := dpi_var self; status_var := status_var self;
     threads := threads self; is_alive := is_alive self;
     stop_flag := stop_flag self;
     start_btn := start_btn self; stop_btn := stop_btn self;
     open_btn := open_btn self; log := log self;
     errors := text :: errors self; after := after self |}.

Definition set_buttons {row : Type} (self : app row)
    (s_start s_stop s_open : state) : app row :=
  {| input_dir := input_dir self; output_dir := output_dir self;
     dpi_var := dpi_var self; status_var := status_var self;
     threads := threads self; is_alive := is_alive self;
     stop_flag := stop_flag self;
     start_btn := s_start; stop_btn := s_stop; open_btn := s_open;
     log := log self; errors := errors self; after := after self |}.

Definition set_stop_flag {row : Type} (self : app row) (b : bool)
  : app row :=
  {| input_dir := input_dir self; output_dir := output_dir self;
     dpi_var := dpi_var self; status_var := status_var self;
     threads := threads self; is_alive := is_alive self;
     stop_flag := b;
     start_btn := start_btn self; stop_btn := stop_btn self;
     open_btn := open_btn self; log := log self;
     errors := errors self; after := after self |}.

Definition set_status {row : Type} (self : app row) (text : string)
  : app row :=
  {| input_dir := input_dir self; output_dir := output_dir self;
     dpi_var := dpi_var self; status_var := text;
     threads := threads self; is_alive := is_alive self;
     stop_flag := stop_flag self;
     start_btn := start_btn self; stop_btn := stop_btn self;
     open_btn := open_btn self; log := log self;
     errors := errors self; after := after self |}.

Definition set_dirs {row : Type} (self : app row) (input output : string)
  : app row :=
  {| input_dir := input; output_dir := output;
     dpi_var := dpi_var self; status_var := status_var self;
     threads := threads self; is_alive := is_alive self;
     stop_flag := stop_flag self;
     start_btn := start_btn self; stop_btn := stop_btn self;
     open_btn := open_btn self; log := log self;
     errors := errors self; after := after self |}.

(** [self.worker = threading.Thread(...)], [self.worker.start()] and
    [self.root.after(200, self.poll_worker)]. *)
Definition start_thread {row : Type} (self : app row) (t : thread)
  : app row :=
  {| input_dir := input_dir self; output_dir := output_dir self;
     dpi_var := dpi_var self; status_var := status_var self;
     threads := t :: threads self; is_alive := true;
     stop_flag := stop_flag self;
     start_btn := start_btn self; stop_btn := stop_btn self;
     open_btn := open_btn self; log := log self;
     errors := errors self; after := S (after self) |}.

(** [clear_log]: every row of the log is deleted. *)
Definition clear_log {row : Type} (self : app row) : app row :=
  {| input_dir := input_dir self; output_dir := output_dir self;
     dpi_var := dpi_var self; status_var := status_var self;
     threads := threads self; is_alive := is_alive self;
     stop_flag := stop_flag self;
     start_btn := start_btn self; stop_btn := stop_btn self;
     open_btn := open_btn self; log := [];
     errors := errors self; after := after self |}.

(** One scheduled call of [poll_worker] is taken off the queue when it
    runs. *)
Definition take_after {row : Type} (self : app row) : app row :=
  {| input_dir := input_dir self; output_dir := output_dir self;
     dpi_var := dpi_var self; status_var := status_var self;
     threads := threads self; is_alive := is_alive self;
     stop_flag := stop_flag self;
     start_btn := start_btn self; stop_btn := stop_btn self;
     open_btn := open_btn self; log := log self;
     errors := errors self; after := Nat.pred (after self) |}.

Definition add_after {row : Type} (self : app row) : app row :=
  {| input_dir := input_dir self; output_dir := output_dir self;
     dpi_var := dpi_var self; status_var := status_var self;
     threads := threads self; is_alive := is_alive self;
     stop_flag := stop_flag self;
     start_btn := start_btn self; stop_btn := stop_btn self;
     open_btn := open_btn self; log := log self;
     errors := errors self; after := S (after self) |}.

(** The entry of the DPI is bound to [dpi_var]. *)
Definition set_dpi_var {row : Type} (self : app row) (text : string)
  : app row :=
  {| input_dir := input_dir self; output_dir := output_dir self;
     dpi_var := text; status_var := status_var self;
     threads := threads self; is_alive := is_alive self;
     stop_flag := stop_flag self;
     start_btn := start_btn self; stop_btn := stop_btn self;
     open_btn := open_btn self; log := log self;
     errors := errors self; after := after self |}.

(** [log_msg]: a row is appended to the log. *)
Definition log_msg {row : Type} (self : app row) (l : row) : app row :=
  {| input_dir := input_dir self; output_dir := output_dir self;
     dpi_var := dpi_var self; status_var := status_var self;
     threads := threads self; is_alive := is_alive self;
     stop_flag := stop_flag self;
     start_btn := start_btn self; stop_btn := stop_btn self;
     open_btn := open_btn self; log := log self ++ [l];
     errors := errors self; after := after self |}.

(** The target of the thread has returned. *)
Definition thread_exits {row : Type} (self : app row) : app row :=
  {| input_dir := input_dir self; output_dir := output_dir self;
     dpi_var := dpi_var self; status_var := status_var self;
     threads := threads self; is_alive := false;
     stop_flag := stop_flag self;
     start_btn := start_btn self; stop_btn := stop_btn self;
     open_btn := open_btn self; log := log self;
     errors := errors self; after := after self |}.

End Tk.

(** *** photo_formatter.py *)

Module Controls.

(** [__init__] and [_build_ui], lines 97-107 and 154-159. *)
Definition init {row : Type} : Tk.app row :=
  {| Tk.input_dir := ""; Tk.output_dir := ""; Tk.dpi_var := "300";
     Tk.status_var := "Select an input folder to begin.";
     Tk.threads := []; Tk.is_alive := false; Tk.stop_flag := false;
     Tk.start_btn := Tk.normal; Tk.stop_btn := Tk.disabled;
     Tk.open_btn := Tk.disabled;
     Tk.log := []; Tk.errors := []; Tk.after := 0 |}.

(** [choose_input], lines 181-186; [d] is what the dialog returns. *)
Definition choose_input {row : Type} (e : Tk.env) (self : Tk.app row)
    (d : string) : Tk.app row :=
  if negb (Tk.truthy d) then self
  else Tk.set_dirs self d (Tk.joinpath e d "output_10x15_jpg").

(** [choose_output], lines 188-190. *)
Definition choose_output {row : Type} (self : Tk.app row) (d : string)
  : Tk.app row :=
  if Tk.truthy d then Tk.set_dirs self (Tk.input_dir self) d else self.

(** [toggle_controls], lines 219-224. *)
Definition toggle_controls {row : Type} (self : Tk.app row)
    (processing : bool) : Tk.app row :=
  let state_start := if processing then Tk.disabled else Tk.normal in
  let state_stop := if processing then Tk.normal else Tk.disabled in
  Tk.set_buttons self state_start state_stop
    (if processing then Tk.disabled else Tk.normal).

(** [start], lines 192-217. The exception of [mkdir] is not caught: it
    leaves the callback with nothing written. *)
Definition start {row : Type} (e : Tk.env) (self : Tk.app row)
  : Py.result (Tk.app row) :=
  if Tk.worker_running self then Py.Ok self
  else
    let in_dir := Tk.strip e (Tk.input_dir self) in
    let out_dir := Tk.strip e (Tk.output_dir self) in
    if negb (Tk.path_exists e in_dir)
       || negb (Tk.truthy (Tk.strip e (Tk.input_dir self))) then
      Py.Ok (Tk.showerror self "Please select a valid input folder.")
    else
      match
        dpi ← Tk.int e (Tk.strip e (Tk.dpi_var self));
        App.check_dpi dpi
      with
      | Py.Raise _ =>
          Py.Ok (Tk.showerror self "DPI must be between 72 and 1200.")
      | Py.Ok dpi =>
          match Tk.mkdir e out_dir with
          | Some exn => Py.Raise exn
          | None =>
              let self := Tk.set_stop_flag self false in
              let self := toggle_controls self true in
              let self := Tk.clear_log self in
              let self := Tk.set_status self "Initializing..." in
              Py.Ok (Tk.start_thread self
                       {| Tk.in_dir := in_dir; Tk.out_dir := out_dir;
                          Tk.dpi := dpi |})
          end
      end.

(** [stop], lines 226-228. *)
Definition stop {row : Type} (self : Tk.app row) : Tk.app row :=
  Tk.set_status (Tk.set_stop_flag self true) "Stopping...".

(** [poll_worker], lines 241-245, run off the queue of [root.after]. *)
Definition poll_worker {row : Type} (self : Tk.app row) : Tk.app row :=
  let self := Tk.take_after self in
  if Tk.worker_running self then Tk.add_after self
  else toggle_controls self false.

End Controls.

(** *** 10x15_Photo_Formatter.py *)

Module Controls_10x15.

(** [__init__] and [_build_ui]: the initial attributes are those of
    [photo_formatter.py]. *)
Definition init {row : Type} : Tk.app row := Controls.init.

(** [choose_input], lines 156-163. *)
Definition choose_input {row : Type} (e : Tk.env) (self : Tk.app row)
    (d : string) : Tk.app row :=
  if negb (Tk.truthy d) then self
  else Tk.set_dirs self d (Tk.joinpath e d "output_10x15_jpg").

(** [choose_output], lines 165-169. *)
Definition choose_output {row : Type} (self : Tk.app row) (d : string)
  : Tk.app row :=
  if negb (Tk.truthy d) then self
  else Tk.set_dirs self (Tk.input_dir self) d.

(** The DPI check of lines 184-185. *)
Definition check_dpi (dpi : Z) : Py.result Z :=
  if (dpi <? 72) || (600 <? dpi) then Py.Raise Py.ValueError else Py.Ok dpi.

(** [start], lines 171-201. *)
Definition start {row : Type} (e : Tk.env) (self : Tk.app row)
  : Py.result (Tk.app row) :=
  if Tk.worker_running self then Py.Ok self
  else
    let in_dir := Tk.strip e (Tk.input_dir self) in
    let out_dir := Tk.strip e (Tk.output_dir self) in
    let dpi_str := Tk.strip e (Tk.dpi_var self) in
    if negb (Tk.path_exists e in_dir) then
      Py.Ok (Tk.showerror self "Please select a valid input folder.")
    else
      match dpi ← Tk.int e dpi_str; check_dpi dpi with
      | Py.Raise _ =>
          Py.Ok (Tk.showerror self
                   "Please enter a valid DPI between 72 and 600.")
      | Py.Ok dpi =>
          match Tk.mkdir e out_dir with
          | Some exn => Py.Raise exn
          | None =>
              let self := Tk.set_stop_flag self false in
              let self := Tk.set_buttons self Tk.disabled Tk.normal
                            Tk.disabled in
              let self := Tk.clear_log self in
              let self := Tk.set_status self "Scanning for images..." in
              Py.Ok (Tk.start_thread self
                       {| Tk.in_dir := in_dir; Tk.out_dir := out_dir;
                          Tk.dpi := dpi |})
          end
      end.

(** [stop], lines 203-205. *)
Definition stop {row : Type} (self : Tk.app row) : Tk.app row :=
  Tk.set_status (Tk.set_stop_flag self true) "Stopping after current file...".

(** [poll_worker], lines 220-226. *)
Definition poll_worker {row : Type} (self : Tk.app row) : Tk.app row :=
  let self := Tk.take_after self in
  if Tk.worker_running self then Tk.add_after self
  else Tk.set_buttons self Tk.normal Tk.disabled Tk.normal.

End Controls_10x15.

(** ** The batch driver of 10x15_Photo_Formatter.py *)

Module Batch_10x15.

(** [SUPPORTED_EXTS], line 26. *)
Definition SUPPORTED_EXTS : list string :=
  [".jpg"; ".jpeg"; ".png"; ".heic"; ".heif"].

(** The rows given to [log_msg]: the skipped row names the whole path,
    the row of a success names the file and its output. *)
Inductive log_line : Type :=
| SKIP (f : App.path)
| OK (file out_name : string)
| ERROR (file : string) (e : Py.exn).

(** The texts given to [self.status_var.set]. *)
Inductive status : Type :=
| Scanning
| NoImages
| Found (total : nat)
| Processed (processed total skipped errors : nat)
| Stopped (processed skipped errors : nat)
| Done (processed skipped errors : nat).

(** The state the worker reads and writes. *)
Record app : Type := {
  reads : nat;
  log : list log_line;
  progress_maximum : nat;
  progress_value : nat;
  status_var : status;
  out_dir : gmap string App.stored
}.

Definition log_msg (self : app) (l : log_line) : app :=
  {| reads := reads self; log := log self ++ [l];
     progress_maximum := progress_maximum self;
     progress_value := progress_value self;
     status_var := status_var self; out_dir := out_dir self |}.

Definition set_progress (self : app) (v : nat) : app :=
  {| reads := reads self; log := log self;
     progress_maximum := progress_maximum self;
     progress_value := v;
     status_var := status_var self; out_dir := out_dir self |}.

Definition set_status (self : app) (s : status) : app :=
  {| reads := reads self; log := log self;
     progress_maximum := progress_maximum self;
     progress_value := progress_value self;
     status_var := s; out_dir := out_dir self |}.

Definition set_out_dir (self : app) (d : gmap string App.stored) : app :=
  {| reads := reads self; log := log self;
     progress_maximum := progress_maximum self;
     progress_value := progress_value self;
     status_var := status_var self; out_dir := d |}.

(** One read of [self.stop_flag]. *)
Definition read_stop_flag (w : App.world) (self : app) : bool * app :=
  (App.stop_flag w (reads self),
   {| reads := S (reads self); log := log self;
      progress_maximum := progress_maximum self;
      progress_value := progress_value self;
      status_var := status_var self; out_dir := out_dir self |}).

(** The counters [processed], [skipped] and [errors]. *)
Record counters : Type := { processed : nat; skipped : nat; errors : nat }.

(** The [for] loop, lines 259-314; [idx] is the index [enumerate] gives
    to the head of [files]. *)
Fixpoint loop (w : App.world) (dpi : Z) (total : nat) (files : list App.path)
    (idx : nat) (self : app) (c : counters) : app * counters :=
  match files with
  | [] => (self, c)
  | f :: rest =>
      let '(stop, self) := read_stop_flag w self in
      if stop then
        (set_status self (Stopped (processed c) (skipped c) (errors c)), c)
      else if App.is_heic f && negb (App.heif_ok w) then
        let self := log_msg self (SKIP f) in
        let c := {| processed := processed c; skipped := S (skipped c);
                    errors := errors c |} in
        let self := set_progress self idx in
        loop w dpi total rest (S idx) self c
      else
        let '(d, r) := Photo_Formatter_10x15.convert w dpi (out_dir self) f in
        let self := set_out_dir self d in
        let '(self, c) :=
          match r with
          | Py.Ok out_name =>
              (log_msg self (OK (App.name f) out_name),
               {| processed := S (processed c); skipped := skipped c;
                  errors := errors c |})
          | Py.Raise e =>
              (log_msg self (ERROR (App.name f) e),
               {| processed := processed c; skipped := skipped c;
                  errors := S (errors c) |})
          end in
        let self := set_progress self idx in
        let self :=
          set_status self
            (Processed (processed c) total (skipped c) (errors c)) in
        loop w dpi total rest (S idx) self c
  end.

(** The filter of lines 239-245: both branches of the inner test append
    the path. *)
Definition supported (p : App.path) : bool :=
  App.is_file p && bool_decide (App.lower (App.suffix p) ∈ SUPPORTED_EXTS).

(** [process_all(self, in_dir, out_dir, dpi)], lines 237-317; [tree] is
    what [in_dir.rglob("*")] yields. *)
Definition process_all (w : App.world) (self : app) (tree : list App.path)
    (dpi : Z) : app :=
  let files := List.filter supported tree in
  let total := length files in
  if (total =? 0)%nat then set_status self NoImages
  else
    let self :=
      {| reads := reads self; log := log self;
         progress_maximum := total; progress_value := 0;
         status_var := Found total; out_dir := out_dir self |} in
    let '(self, c) :=
      loop w dpi total files 1 self
        {| processed := 0; skipped := 0; errors := 0 |} in
    let '(stop, self) := read_stop_flag w self in
    if negb stop then
      set_status self (Done (processed c) (skipped c) (errors c))
    else self.

End Batch_10x15.

(** ** Vocabulary of the specifications *)

(** The real number a float stands for (0 for infinities and NaN, which
    the statements exclude separately). *)
Definition F2R (m e : Z) : R := (IZR m * powerRZ 2 e)%R.

Definition SF2R (x : Py.float) : R :=
  match x with
  | S754_finite s m e => F2R (cond_Zopp s (Zpos m)) e
  | _ => 0%R
  end.

Definition is_finite (x : Py.float) : bool :=
  match x with
  | S754_finite _ _ _ | S754_zero _ => true
  | _ => false
  end.

(** The round and sticky bits [r], [s] of a shifted mantissa [m] locate
    the real [x] in the interval from [m] to [m + 1]. *)
Definition inbetween (m : Z) (r s : bool) (x : R) : Prop :=
  match r, s with
  | false, false => x = IZR m
  | false, true => (IZR m < x < IZR m + / 2)%R
  | true, false => x = (IZR m + / 2)%R
  | true, true => (IZR m + / 2 < x < IZR m + 1)%R
  end.

Definition located (mrs : shr_record) (x : R) : Prop :=
  (0 <= shr_m mrs)%Z /\ inbetween (shr_m mrs) (shr_r mrs) (shr_s mrs) x.

(** [n] is the integer nearest to the real [x], the even one of the two
    when [x] lies half-way. *)
Definition nearest_even (x : R) (n : Z) : Prop :=
  (IZR n - / 2 <= x <= IZR n + / 2)%R /\
  ((x = IZR n - / 2 \/ x = IZR n + / 2)%R -> Z.even n = true).

(** [d] is the binary magnitude of the positive real [x]. *)
Definition magnitude (x : R) (d : Z) : Prop :=
  (powerRZ 2 (d - 1) <= x < powerRZ 2 d)%R.

(** [v] is the round-to-nearest-even of the positive real [x] in the
    binary64 format, before the overflow test. *)
Definition rounds_to (x v : R) : Prop :=
  exists d n,
    magnitude x d /\
    nearest_even (x / powerRZ 2 (fexp Py.prec Py.emax d)) n /\
    v = F2R n (fexp Py.prec Py.emax d).

(** The float [f] carries sign [s] and magnitude [v], an infinity
    standing for every magnitude from [2^emax] on. *)
Definition carries (f : Py.float) (s : bool) (v : R) : Prop :=
  match f with
  | S754_zero s' => s' = s /\ v = 0%R
  | S754_finite s' m e =>
      s' = s /\ SpecFloat.bounded Py.prec Py.emax m e = true /\ F2R (Zpos m) e = v
  | S754_infinity s' => s' = s /\ (powerRZ 2 Py.emax <= v)%R
  | S754_nan => False
  end.

(** A fallible float operation returns a float carrying [v], or raises
    [OverflowError] when [v] is out of range. *)
Definition returns_rounded (r : Py.result Py.float) (s : bool) (v : R) : Prop :=
  match r with
  | Py.Ok f => carries f s v /\ (v < powerRZ 2 Py.emax)%R
  | Py.Raise e => e = Py.OverflowError /\ (powerRZ 2 Py.emax <= v)%R
  end.

(** Rounding of a non-negative real: zero stays zero. *)
Definition rounds_to0 (x v : R) : Prop :=
  (x = 0 /\ v = 0)%R \/ rounds_to x v.

(** A side length Pillow can hold: sides are C [int]s and a decoded or
    created image has none of length zero. *)
Definition valid_side (n : Z) : Prop := 1 <= n < 2 ^ 31.

(** The box of width [w] and height [h] at offset [(x, y)] lies within a
    canvas of [cw] by [ch] pixels. *)
Definition box_inside (x y w h cw ch : Z) : Prop :=
  0 <= x /\ x + w <= cw /\ 0 <= y /\ y + h <= ch.

(** The two canvases of the print format, in centimetres. *)
Inductive canvas_spec : Type := Landscape | Portrait.

Definition canvas_cm (c : canvas_spec) : Z * Z :=
  match c with
  | Landscape => (15, 10)
  | Portrait => (10, 15)
  end.

(** The pixel canvas of a physical canvas at a DPI, each side converted by
    [cm_to_px]. *)
Definition canvas_px (c : canvas_spec) (dpi : Z) : Py.result (Z * Z) :=
  w ← photo_formatter.cm_to_px (Py.Int (fst (canvas_cm c))) dpi;
  h ← photo_formatter.cm_to_px (Py.Int (snd (canvas_cm c))) dpi;
  Py.Ok (w, h).

(** Section 4.1 in the spec's words:
    [pixels = round((length_cm / 2.54) * dpi)]. *)
Definition physicalToPixels (length_cm : Py.num) (dpi : Z) : Py.result Z :=
  x ← Py.to_float length_cm;
  q ← Py.float_truediv x Py.lit_2_54;
  d ← Py.float_of_int dpi;
  Py.round (Py.float_mul q d).

(** Section 4.2, steps 2 and 3, in the spec's words:
    [scale = min(target_w / src_w, target_h / src_h)] and
    [new = max(1, floor(src * scale))]. *)
Definition letterbox_scale (src_w src_h target_w target_h : Z)
  : Py.result Py.float :=
  rw ← Py.int_truediv target_w src_w;
  rh ← Py.int_truediv target_h src_h;
  Py.Ok (Py.min rw rh).

Definition scaled_side (src : Z) (scale : Py.float) : Py.result Z :=
  f ← Py.float_of_int src;
  n ← Py.floor (Py.float_mul f scale);
  Py.Ok (Py.max 1 n).

(** Section 4.2, step 1: the source has an alpha channel or a transparency
    marker. *)
Definition has_alpha (img : PIL.image) : bool :=
  bool_decide (PIL.img_mode img = PIL.RGBA \/ PIL.img_mode img = PIL.LA)
  || PIL.transparency img.

(** Section 4.2, steps 4 to 7: the pixel buffer of a canvas filled with
    [bg] and overpainted at [(off_x, off_y)] with the source resized to
    [new_w] by [new_h], blended through its alpha when it has one. *)
Definition letterboxed (bg : PIL.color) (src : PIL.image)
    (new_w new_h off_x off_y : Z) : PIL.pixels :=
  if has_alpha src then
    let body :=
      PIL.Resized new_w new_h PIL.LANCZOS
        (PIL.Converted PIL.RGBA (PIL.content src)) in
    PIL.PastedMasked (PIL.Solid bg) body (off_x, off_y) body
  else
    PIL.Pasted (PIL.Solid bg)
      (PIL.Resized new_w new_h PIL.LANCZOS
         (PIL.Converted PIL.RGB (PIL.content src)))
      (off_x, off_y).

(** A length the conversion is meant for: a positive [int], or a positive
    finite float. *)
Definition positive_length (cm : Py.num) : Prop :=
  match cm with
  | Py.Int n => 0 < n
  | Py.Float x =>
      exists m e, x = S754_finite false m e /\
                  SpecFloat.bounded Py.prec Py.emax m e = true
  end.

(** The sequence of names the namer tries for a stem:
    [stem_10x15.jpg], [stem_10x15_1.jpg], [stem_10x15_2.jpg], ... *)
Definition candidate (base : string) (k : nat) : string :=
  match k with
  | O => base +:+ "_10x15.jpg"
  | S _ => App.numbered base k
  end.

(** The outcome recorded for one file, and the directory it leaves
    (section 4.4, steps 2 to 4). *)
Definition outcome (w : App.world) (dpi : Z) (d : gmap string App.stored)
    (f : App.path) : App.log_line * gmap string App.stored :=
  if App.is_heic f && negb (App.heif_ok w) then (App.SKIP (App.name f), d)
  else
    match App.convert w dpi d f with
    | (d', Py.Ok _) => (App.OK (App.name f), d')
    | (d', Py.Raise e) => (App.ERR (App.name f) e, d')
    end.

(** The outcomes of a list of files processed in order, and the directory
    after the last one. *)
Fixpoint outcomes (w : App.world) (dpi : Z) (d : gmap string App.stored)
    (files : list App.path) : list App.log_line * gmap string App.stored :=
  match files with
  | [] => ([], d)
  | f :: rest =>
      let '(l, d1) := outcome w dpi d f in
      let '(ls, d2) := outcomes w dpi d1 rest in
      (l :: ls, d2)
  end.

Definition is_OK (l : App.log_line) : bool :=
  match l with App.OK _ => true | _ => false end.

Definition is_SKIP (l : App.log_line) : bool :=
  match l with App.SKIP _ => true | _ => false end.

Definition is_ERR (l : App.log_line) : bool :=
  match l with App.ERR _ _ => true | _ => false end.

Definition count (p : App.log_line -> bool) (ls : list App.log_line) : nat :=
  length (List.filter p ls).

(** The file a log line is about. *)
Definition subject (l : App.log_line) : string :=
  match l with
  | App.SKIP n | App.OK n | App.ERR n _ => n
  end.

(** A decoded image whose sides are valid. *)
Definition valid_image (img : PIL.image) : Prop :=
  valid_side (fst (PIL.size img)) /\ valid_side (snd (PIL.size img)).

(** A valid file of a run: it needs no missing codec, it decodes to a valid
    image, and the save of its output writes the whole file whatever name
    and keywords it gets. *)
Definition valid_file (w : App.world) (f : App.path) : Prop :=
  App.is_heic f && negb (App.heif_ok w) = false /\
  (exists img, App.image_open w f = Py.Ok img /\ valid_image img) /\
  (forall n c p, App.image_save w n c p = App.Written).

(** Every file stored in [d1] is stored unchanged in [d2]. *)
Definition keeps (d1 d2 : gmap string App.stored) : Prop :=
  forall n v, d1 !! n = Some v -> d2 !! n = Some v.

(** The outcome [l] is the one recorded for [f] in some state of the
    directory. *)
Definition recorded_for (w : App.world) (dpi : Z) (f : App.path)
    (l : App.log_line) : Prop :=
  exists d, l = fst (outcome w dpi d f).

(** ** Sample inputs

    The scenarios of section 8 of the specification. *)

Definition sample_image (file : string) (w h : Z) : PIL.image :=
  {| PIL.img_mode := PIL.RGB; PIL.size := (w, h);
     PIL.orientation := None; PIL.transparency := false;
     PIL.exif := None; PIL.content := PIL.Decoded file |}.

Definition sample_path (stem suffix : string) : App.path :=
  {| App.parent := "in"; App.stem := stem; App.suffix := suffix;
     App.is_file := true |}.

(** [a.jpg] is 1200 by 800, [b.png] is 800 by 1200, [c.jpg] is truncated
    and every other file decodes to a square. *)
Definition sample_open (f : App.path) : Py.result PIL.image :=
  if bool_decide (App.stem f = "a") then Py.Ok (sample_image "a" 1200 800)
  else if bool_decide (App.stem f = "b") then Py.Ok (sample_image "b" 800 1200)
  else if bool_decide (App.stem f = "c") then Py.Raise Py.UnidentifiedImageError
  else Py.Ok (sample_image (App.stem f) 640 640).

(** A world whose flag reads as [flag] says and whose saves end as [save]
    says. *)
Definition sample_world (codec : bool) (flag : nat -> bool)
    (save : App.save_outcome) : App.world :=
  {| App.heif_ok := codec;
     App.image_open := sample_open;
     App.image_save := fun _ _ _ => save;
     App.stop_flag := flag |}.

(** The flag is never set. *)
Definition never : nat -> bool := fun _ => false.

(** The flag is set while the first file is processed. *)
Definition after_first : nat -> bool := fun k => (1 <=? k)%nat.

Definition fresh_app : App.app :=
  {| App.reads := 0; App.log := [];
     App.progress_maximum := 0; App.progress_value := 0;
     App.status_var := App.Initializing; App.out_dir := ∅ |}.

(** [px] is the integer nearest to the exact quotient
    [length_cm * dpi / 2.54], which is [100 * length_cm * dpi / 254]. *)
Definition nearest_to_exact (length_cm dpi px : Z) : Prop :=
  2 * Z.abs (254 * px - 100 * length_cm * dpi) < 254.

Definition nearest_to_exactb (length_cm dpi : Z) (r : Py.result Z) : bool :=
  match r with
  | Py.Ok px => 2 * Z.abs (254 * px - 100 * length_cm * dpi) <? 254
  | Py.Raise _ => false
  end.

(** What a conversion that returns leaves of the directory [d]: one file
    more, under [n], a name that was unused. It is the image saved, with
    the keywords of the save, when the encoder wrote the whole file, and
    an incomplete file when the save returned after a short write. *)
Definition left_by_save (w : App.world) (d d' : gmap string App.stored)
    (n : string) : Prop :=
  d !! n = None /\
  exists canvas params,
    match App.image_save w n canvas params with
    | App.Written => d' = <[n := App.Complete canvas params]> d
    | App.WrittenShort => d' = <[n := App.Truncated]> d
    | App.Failed _ => False
    end.

(** ** Vocabulary of the further properties *)



(** The lines a run has added to the log. *)
Definition new_lines (before after : App.app) : list App.log_line :=
  drop (length (App.log before)) (App.log after).

(** Files of one stem stored one after the other, each under the name the
    namer picks in the directory the previous ones have left. *)
Fixpoint store_all (d : gmap string App.stored) (base : string)
    (vs : list App.stored) : list string * gmap string App.stored :=
  match vs with
  | [] => ([], d)
  | v :: rest =>
      let dest := App.unique_dest d base in
      let '(names, d') := store_all (<[dest := v]> d) base rest in
      (dest :: names, d')
  end.

(** ** The window and what happens to it *)

(** The callbacks a window is built with. *)
Record callbacks (row : Type) : Type := {
  on_choose_input : Tk.env -> Tk.app row -> string -> Tk.app row;
  on_choose_output : Tk.app row -> string -> Tk.app row;
  on_start : Tk.env -> Tk.app row -> Py.result (Tk.app row);
  on_stop : Tk.app row -> Tk.app row;
  on_after : Tk.app row -> Tk.app row
}.

Arguments on_choose_input {row} _.
Arguments on_choose_output {row} _.
Arguments on_start {row} _.
Arguments on_stop {row} _.
Arguments on_after {row} _.

Definition photo_formatter_window {row : Type} : callbacks row :=
  {| on_choose_input := Controls.choose_input;
     on_choose_output := Controls.choose_output;
     on_start := Controls.start;
     on_stop := Controls.stop;
     on_after := Controls.poll_worker |}.

Definition window_10x15 {row : Type} : callbacks row :=
  {| on_choose_input := Controls_10x15.choose_input;
     on_choose_output := Controls_10x15.choose_output;
     on_start := Controls_10x15.start;
     on_stop := Controls_10x15.stop;
     on_after := Controls_10x15.poll_worker |}.

(** What happens to a window: the user picks a folder in a dialog, types
    into an entry, or invokes Start or Stop; a call scheduled by
    [root.after] comes due; the worker thread logs a row, sets the status
    line, or returns. *)
Inductive event (row : Type) : Type :=
| ChooseInput (d : string)
| ChooseOutput (d : string)
| TypeInput (text : string)
| TypeOutput (text : string)
| TypeDpi (text : string)
| InvokeStart
| InvokeStop
| AfterDue
| WorkerLogs (l : row)
| WorkerStatus (text : string)
| WorkerReturns.

Arguments ChooseInput {row} d.
Arguments ChooseOutput {row} d.
Arguments TypeInput {row} text.
Arguments TypeOutput {row} text.
Arguments TypeDpi {row} text.
Arguments InvokeStart {row}.
Arguments InvokeStop {row}.
Arguments AfterDue {row}.
Arguments WorkerLogs {row} l.
Arguments WorkerStatus {row} text.
Arguments WorkerReturns {row}.

(** The window after an event. An exception that leaves a callback is
    reported by Tk and the window goes on; a scheduled call comes due only
    when one is scheduled, and the worker acts only while it runs. *)
Definition react {row : Type} (c : callbacks row) (e : Tk.env)
    (self : Tk.app row) (ev : event row) : Tk.app row :=
  match ev with
  | ChooseInput d => on_choose_input c e self d
  | ChooseOutput d => on_choose_output c self d
  | TypeInput text => Tk.set_dirs self text (Tk.output_dir self)
  | TypeOutput text => Tk.set_dirs self (Tk.input_dir self) text
  | TypeDpi text => Tk.set_dpi_var self text
  | InvokeStart =>
      match on_start c e self with
      | Py.Ok self' => self'
      | Py.Raise _ => self
      end
  | InvokeStop => on_stop c self
  | AfterDue =>
      match Tk.after self with
      | O => self
      | S _ => on_after c self
      end
  | WorkerLogs l => if Tk.worker_running self then Tk.log_msg self l else self
  | WorkerStatus text =>
      if Tk.worker_running self then Tk.set_status self text else self
  | WorkerReturns =>
      if Tk.worker_running self then Tk.thread_exits self else self
  end.

(** The window after a sequence of events, from its initial state. *)
Definition window_after {row : Type} (c : callbacks row) (e : Tk.env)
    (evs : list (event row)) : Tk.app row :=
  foldl (react c e) Controls.init evs.

(** [start] has started the thread [t]. *)
Definition starts {row : Type} (r : Py.result (Tk.app row))
    (self : Tk.app row) (t : Tk.thread) : Prop :=
  exists self', r = Py.Ok self' /\ Tk.threads self' = t :: Tk.threads self.

(** The worker is running and the buttons say so. *)
Definition buttons_processing {row : Type} (self : Tk.app row) : Prop :=
  Tk.start_btn self = Tk.disabled /\ Tk.stop_btn self = Tk.normal /\
  Tk.open_btn self = Tk.disabled.

(** The window [self'] is the window [self] made ready for a run: the stop
    flag is reset, the log is empty, the status line reads [text], the
    buttons say that a run is in progress, the worker runs, one more call
    of [poll_worker] is scheduled, and the errors shown and the entries
    are those of [self]. *)
Definition made_ready {row : Type} (text : string)
    (self self' : Tk.app row) : Prop :=
  Tk.stop_flag self' = false /\ Tk.log self' = [] /\
  Tk.status_var self' = text /\ buttons_processing self' /\
  Tk.worker_running self' = true /\
  Tk.after self' = S (Tk.after self) /\
  Tk.errors self' = Tk.errors self /\
  Tk.input_dir self' = Tk.input_dir self /\
  Tk.output_dir self' = Tk.output_dir self /\
  Tk.dpi_var self' = Tk.dpi_var self.

(** What holds of a window at all times, for threads started with a DPI
    from [lo] to [hi]: while the worker runs the buttons say so and a call
    of [poll_worker] is scheduled; when none is scheduled Start is enabled,
    Stop is disabled and no worker runs; and every thread was started on
    an existing input folder, with its output folder made and a DPI in
    the range. *)
Definition window_invariant {row : Type} (e : Tk.env) (lo hi : Z)
    (self : Tk.app row) : Prop :=
  (Tk.worker_running self = true ->
   buttons_processing self /\ (1 <= Tk.after self)%nat) /\
  (Tk.after self = 0%nat ->
   Tk.start_btn self = Tk.normal /\ Tk.stop_btn self = Tk.disabled /\
   Tk.worker_running self = false) /\
  Forall (fun t => lo <= Tk.dpi t <= hi /\
                   Tk.path_exists e (Tk.in_dir t) = true /\
                   Tk.mkdir e (Tk.out_dir t) = None)
         (Tk.threads self).

(** ** The batch driver of 10x15_Photo_Formatter.py *)

(** The row logged for one file, and the directory it leaves. *)
Definition outcome_10x15 (w : App.world) (dpi : Z)
    (d : gmap string App.stored) (f : App.path)
  : Batch_10x15.log_line * gmap string App.stored :=
  if App.is_heic f && negb (App.heif_ok w) then (Batch_10x15.SKIP f, d)
  else
    match Photo_Formatter_10x15.convert w dpi d f with
    | (d', Py.Ok out_name) => (Batch_10x15.OK (App.name f) out_name, d')
    | (d', Py.Raise e) => (Batch_10x15.ERROR (App.name f) e, d')
    end.

Fixpoint outcomes_10x15 (w : App.world) (dpi : Z)
    (d : gmap string App.stored) (files : list App.path)
  : list Batch_10x15.log_line * gmap string App.stored :=
  match files with
  | [] => ([], d)
  | f :: rest =>
      let '(l, d1) := outcome_10x15 w dpi d f in
      let '(ls, d2) := outcomes_10x15 w dpi d1 rest in
      (l :: ls, d2)
  end.

Definition is_OK_10x15 (l : Batch_10x15.log_line) : bool :=
  match l with Batch_10x15.OK _ _ => true | _ => false end.

Definition is_SKIP_10x15 (l : Batch_10x15.log_line) : bool :=
  match l with Batch_10x15.SKIP _ => true | _ => false end.

Definition is_ERROR_10x15 (l : Batch_10x15.log_line) : bool :=
  match l with Batch_10x15.ERROR _ _ => true | _ => false end.

Definition count_10x15 (p : Batch_10x15.log_line -> bool)
    (ls : list Batch_10x15.log_line) : nat :=
  length (List.filter p ls).

(** The status line a loop leaves when it has run through: the one it
    started with when no file was converted, and else the line written
    after the last conversion, whose count of skipped files is the one of
    that moment. *)
Definition status_of_last_conversion (total : nat) (before : Batch_10x15.status)
    (c c' : Batch_10x15.counters) (s : Batch_10x15.status) : Prop :=
  (s = before /\
   Batch_10x15.processed c' = Batch_10x15.processed c /\
   Batch_10x15.errors c' = Batch_10x15.errors c) \/
  (exists skipped,
     (Batch_10x15.skipped c <= skipped <= Batch_10x15.skipped c')%nat /\
     s = Batch_10x15.Processed (Batch_10x15.processed c') total skipped
           (Batch_10x15.errors c')).

(** Two stored files hold the same picture: both are incomplete, or they
    are the same image saved in the same format, at the same quality and
    with the same DPI. The other keywords of the save (the chroma
    subsampling, the optimize and progressive flags, the EXIF block) may
    differ. *)
Definition same_picture (a b : option App.stored) : Prop :=
  match a, b with
  | None, None => True
  | Some App.Truncated, Some App.Truncated => True
  | Some (App.Complete c1 p1), Some (App.Complete c2 p2) =>
      c1 = c2 /\ p1 !! "format" = p2 !! "format" /\
      p1 !! "quality" = p2 !! "quality" /\ p1 !! "dpi" = p2 !! "dpi"
  | _, _ => False
  end.

Definition same_pictures (d1 d2 : gmap string App.stored) : Prop :=
  forall n, same_picture (d1 !! n) (d2 !! n).

(** How the writing of an image under a name ends does not depend on the
    keywords of the save. *)
Definition save_ends_alike (w : App.world) : Prop :=
  forall n c p p', App.image_save w n c p = App.image_save w n c p'.

(** A world in which the encoder raises unless it is given the keyword
    [optimize], with which it returns after a short write. *)
Definition world_of_one_write (img : PIL.image) : App.world :=
  {| App.heif_ok := true;
     App.image_open := fun _ => Py.Ok img;
     App.image_save := fun _ _ p =>
       match p !! "optimize" with
       | Some _ => App.WrittenShort
       | None => App.Failed Py.OSError
       end;
     App.stop_flag := fun _ => false |}.

(** The two programs have logged the same outcome for the same file. *)
Definition same_outcome (l : App.log_line) (l' : Batch_10x15.log_line)
  : Prop :=
  match l, l' with
  | App.SKIP n, Batch_10x15.SKIP f => n = App.name f
  | App.OK n, Batch_10x15.OK n' _ => n = n'
  | App.ERR n e, Batch_10x15.ERROR n' e' => n = n' /\ e = e'
  | _, _ => False
  end.

Definition fresh_app_10x15 : Batch_10x15.app :=
  {| Batch_10x15.reads := 0; Batch_10x15.log := [];
     Batch_10x15.progress_maximum := 0; Batch_10x15.progress_value := 0;
     Batch_10x15.status_var := Batch_10x15.Scanning;
     Batch_10x15.out_dir := ∅ |}.

(** A photo taken with the camera turned: [file] holds [w] by [h] pixels
    to be shown under the EXIF orientation [o], and an EXIF block. *)
Definition turned_image (file : string) (w h o : Z) : PIL.image :=
  {| PIL.img_mode := PIL.RGB; PIL.size := (w, h);
     PIL.orientation := Some o; PIL.transparency := false;
     PIL.exif := Some (PIL.Raw file); PIL.content := PIL.Decoded file |}.

(** A world in which every file decodes to [img] and every save
    succeeds. *)
Definition world_of (img : PIL.image) : App.world :=
  {| App.heif_ok := true;
     App.image_open := fun _ => Py.Ok img;
     App.image_save := fun _ _ _ => App.Written;
     App.stop_flag := never |}.

(** An environment of the callbacks in which texts are taken as they are,
    every text reads as the integer [n], every path exists and every
    folder can be made. *)
Definition easy_env (n : Z) : Tk.env :=
  {| Tk.strip := fun s => s;
     Tk.int := fun _ => Py.Ok n;
     Tk.path_exists := fun _ => true;
     Tk.mkdir := fun _ => None;
     Tk.joinpath := fun d name => d +:+ "/" +:+ name |}.

(** * Theory of the binary64 operations *)

Section Binary64.

Local Open Scope R_scope.

Local Abbreviation bpow e := (powerRZ 2 e).

Lemma bpow_gt_0 (e : Z) : 0 < bpow e.
Proof. apply powerRZ_lt. lra. Qed.

Lemma bpow_add (a b : Z) : bpow (a + b) = bpow a * bpow b.
Proof. apply powerRZ_add. lra. Qed.

Lemma bpow_succ (a : Z) : bpow (a + 1) = 2 * bpow a.
Proof. rewrite bpow_add. simpl. lra. Qed.

Lemma bpow_opp (a : Z) : bpow (- a) = / bpow a.
Proof. apply powerRZ_neg'. Qed.

Lemma bpow_sub (a b : Z) : bpow (a - b) = bpow a / bpow b.
Proof.
  replace (a - b)%Z with (a + - b)%Z by lia.
  rewrite bpow_add, bpow_opp. reflexivity.
Qed.

Lemma bpow_le (a b : Z) : (a <= b)%Z -> bpow a <= bpow b.
Proof.
  intros H. replace b with (a + (b - a))%Z by lia.
  rewrite bpow_add.
  assert (1 <= bpow (b - a)).
  { destruct (b - a)%Z eqn:E; try lia; simpl.
    - lra.
    - apply pow_R1_Rle. lra. }
  pose proof (bpow_gt_0 a). nra.
Qed.

Lemma bpow_lt (a b : Z) : (a < b)%Z -> bpow a < bpow b.
Proof.
  intros H. apply Rlt_le_trans with (bpow (a + 1)).
  - rewrite bpow_succ. pose proof (bpow_gt_0 a). lra.
  - apply bpow_le. lia.
Qed.

Lemma bpow_lt_inv (a b : Z) : bpow a < bpow b -> (a < b)%Z.
Proof.
  intros H. destruct (Z_lt_le_dec a b) as [L|L]; [exact L|].
  apply bpow_le in L. lra.
Qed.

Lemma bpow_IZR (n : Z) : (0 <= n)%Z -> bpow n = IZR (2 ^ n).
Proof.
  intros H. destruct n as [|p|p]; try lia.
  - reflexivity.
  - simpl. rewrite pow_IZR, positive_nat_Z. reflexivity.
Qed.

(** *** Digits *)

Lemma digits2_pos_bounds (p : positive) :
  (2 ^ (Zpos (digits2_pos p) - 1) <= Zpos p < 2 ^ Zpos (digits2_pos p))%Z.
Proof.
  induction p as [p IH|p IH|]; cbn [digits2_pos].
  - rewrite Pos2Z.inj_succ, (Pos2Z.inj_xI p).
    replace (Z.succ (Zpos (digits2_pos p)) - 1)%Z
      with (Z.succ (Zpos (digits2_pos p) - 1)) by lia.
    rewrite !Z.pow_succ_r by lia.
    generalize dependent (2 ^ (Zpos (digits2_pos p) - 1))%Z.
    generalize dependent (2 ^ Zpos (digits2_pos p))%Z. intros; lia.
  - rewrite Pos2Z.inj_succ, (Pos2Z.inj_xO p).
    replace (Z.succ (Zpos (digits2_pos p)) - 1)%Z
      with (Z.succ (Zpos (digits2_pos p) - 1)) by lia.
    rewrite !Z.pow_succ_r by lia.
    generalize dependent (2 ^ (Zpos (digits2_pos p) - 1))%Z.
    generalize dependent (2 ^ Zpos (digits2_pos p))%Z. intros; lia.
  - simpl. lia.
Qed.

Lemma digits2_pos_magnitude (p : positive) :
  bpow (Zpos (digits2_pos p) - 1) <= IZR (Zpos p) < bpow (Zpos (digits2_pos p)).
Proof.
  pose proof (digits2_pos_bounds p) as [L U].
  rewrite !bpow_IZR by lia.
  split; [apply IZR_le | apply IZR_lt]; assumption.
Qed.

(** *** One right shift keeps the location *)

Lemma shr_1_located (mrs : shr_record) (x : R) :
  located mrs x -> located (shr_1 mrs) (x / 2).
Proof.
  destruct mrs as [m r s]. unfold located. cbn [shr_m shr_r shr_s].
  intros [Hm Hx].
  destruct m as [|[p|p|]|p]; try lia; cbn [shr_1 shr_m shr_r shr_s];
    (split; [lia|]);
    destruct r, s; cbn [inbetween orb] in *;
    rewrite ?(Pos2Z.inj_xI p), ?(Pos2Z.inj_xO p), ?plus_IZR, ?mult_IZR in Hx;
    lra.
Qed.

Lemma iter_pos_shr_1_located (p : positive) :
  forall (mrs : shr_record) (x : R),
    located mrs x -> located (SpecFloat.iter_pos shr_1 p mrs) (x / bpow (Zpos p)).
Proof.
  induction p as [p IH|p IH|]; intros mrs x H; cbn [SpecFloat.iter_pos].
  - replace (x / bpow (Zpos p~1)) with (x / 2 / bpow (Zpos p) / bpow (Zpos p)).
    + apply IH, IH, shr_1_located, H.
    + rewrite (Pos2Z.inj_xI p).
      replace (2 * Zpos p + 1)%Z with (Zpos p + Zpos p + 1)%Z by lia.
      rewrite !bpow_add. pose proof (bpow_gt_0 (Zpos p)).
      change (bpow 1) with (2 * 1). field. lra.
  - replace (x / bpow (Zpos p~0)) with (x / bpow (Zpos p) / bpow (Zpos p)).
    + apply IH, IH, H.
    + rewrite (Pos2Z.inj_xO p).
      replace (2 * Zpos p)%Z with (Zpos p + Zpos p)%Z by lia.
      rewrite !bpow_add. pose proof (bpow_gt_0 (Zpos p)). field. lra.
  - change (bpow 1) with (2 * 1). replace (x / (2 * 1)) with (x / 2) by field.
    apply shr_1_located, H.
Qed.

(** [shr] by [n] places divides the located real by [2^n]. *)
Lemma shr_located (mrs : shr_record) (e n : Z) (x : R) :
  (0 <= n)%Z -> located mrs x ->
  located (fst (shr mrs e n)) (x / bpow n) /\ snd (shr mrs e n) = (e + n)%Z.
Proof.
  intros Hn H. destruct n as [|p|p]; try lia; cbn [shr fst snd].
  - split; [|lia]. simpl. replace (x / 1) with x by field. exact H.
  - split; [|reflexivity]. apply iter_pos_shr_1_located, H.
Qed.

Lemma shr_nonpos (mrs : shr_record) (e n : Z) :
  (n <= 0)%Z -> shr mrs e n = (mrs, e).
Proof. destruct n; [reflexivity|lia|reflexivity]. Qed.

(** *** Rounding a located real *)

Lemma nearest_even_unique (x : R) (n m : Z) :
  nearest_even x n -> nearest_even x m -> n = m.
Proof.
  intros [[L1 U1] E1] [[L2 U2] E2].
  destruct (Z.lt_trichotomy n m) as [H|[H|H]]; [|exact H|].
  - assert (IZR n + 1 <= IZR m) by (rewrite <- plus_IZR; apply IZR_le; lia).
    assert (x = IZR n + / 2) by lra. assert (x = IZR m - / 2) by lra.
    assert (m = n + 1)%Z.
    { apply eq_IZR. rewrite plus_IZR. lra. }
    specialize (E1 (or_intror H1)). specialize (E2 (or_introl H2)).
    subst m. rewrite Z.even_add in E2. rewrite E1 in E2. discriminate.
  - assert (IZR m + 1 <= IZR n) by (rewrite <- plus_IZR; apply IZR_le; lia).
    assert (x = IZR m + / 2) by lra. assert (x = IZR n - / 2) by lra.
    assert (n = m + 1)%Z.
    { apply eq_IZR. rewrite plus_IZR. lra. }
    specialize (E2 (or_intror H1)). specialize (E1 (or_introl H2)).
    subst n. rewrite Z.even_add in E1. rewrite E2 in E1. discriminate.
Qed.

Lemma nearest_even_monotone (x y : R) (n m : Z) :
  nearest_even x n -> nearest_even y m -> x <= y -> (n <= m)%Z.
Proof.
  intros [[L1 U1] E1] [[L2 U2] E2] Hxy.
  destruct (Z_le_gt_dec n m) as [H|H]; [exact H|exfalso].
  assert (IZR m + 1 <= IZR n) by (rewrite <- plus_IZR; apply IZR_le; lia).
  assert (y = IZR m + / 2) by lra. assert (x = IZR n - / 2) by lra.
  assert (n = m + 1)%Z.
  { apply eq_IZR. rewrite plus_IZR. lra. }
  specialize (E2 (or_intror H1)). specialize (E1 (or_introl H2)).
  subst n. rewrite Z.even_add in E1. rewrite E2 in E1. discriminate.
Qed.

Lemma nearest_even_IZR (n : Z) : nearest_even (IZR n) n.
Proof. split; [lra|]. intros [H|H]; lra. Qed.

Lemma round_nearest_even_located (mrs : shr_record) (x : R) :
  located mrs x ->
  nearest_even x (round_nearest_even (shr_m mrs) (loc_of_shr_record mrs)).
Proof.
  destruct mrs as [m r s]. unfold located. cbn [shr_m shr_r shr_s].
  intros [Hm Hx].
  unfold nearest_even.
  destruct r, s; cbn [loc_of_shr_record round_nearest_even inbetween] in *.
  - rewrite plus_IZR. split; [lra|]. intros [H|H]; lra.
  - destruct (Z.even m) eqn:E.
    + split; [lra|]. intros _. exact E.
    + rewrite plus_IZR. split; [lra|]. intros _.
      rewrite Z.even_add, E. reflexivity.
  - split; [lra|]. intros [H|H]; lra.
  - subst x. apply nearest_even_IZR.
Qed.

(** *** The rounding pipeline of [binary_round_aux] *)

Local Abbreviation fexp64 := (fexp Py.prec Py.emax).

Lemma fexp64_eq (d : Z) : fexp64 d = Z.max (d - 53) (-1074).
Proof. reflexivity. Qed.

Lemma located_bounds (m : Z) (l : location) (x : R) :
  located (shr_record_of_loc m l) x -> IZR m <= x < IZR m + 1.
Proof.
  intros [_ H]. destruct l as [|[| |]]; cbn in H; lra.
Qed.

Lemma located_magnitude (p : positive) (l : location) (x : R) (e : Z) :
  located (shr_record_of_loc (Zpos p) l) x ->
  magnitude (x * bpow e) (Zpos (digits2_pos p) + e).
Proof.
  intros H. apply located_bounds in H.
  pose proof (digits2_pos_magnitude p) as [L _].
  pose proof (digits2_pos_bounds p) as [_ U].
  assert (IZR (Zpos p) + 1 <= bpow (Zpos (digits2_pos p))) as U'.
  { rewrite bpow_IZR by lia. rewrite <- plus_IZR. apply IZR_le. lia. }
  unfold magnitude.
  replace (Zpos (digits2_pos p) + e - 1)%Z
    with (Zpos (digits2_pos p) - 1 + e)%Z by lia.
  rewrite !bpow_add. pose proof (bpow_gt_0 e). nra.
Qed.

Lemma shr_fexp_located (m e : Z) (l : location) (x : R) :
  located (shr_record_of_loc m l) x ->
  (e <= fexp64 (Zdigits2 m + e))%Z ->
  located (fst (shr_fexp Py.prec Py.emax m e l))
          (x / bpow (fexp64 (Zdigits2 m + e) - e)) /\
  snd (shr_fexp Py.prec Py.emax m e l) = fexp64 (Zdigits2 m + e).
Proof.
  intros H Hk. unfold shr_fexp.
  destruct (shr_located (shr_record_of_loc m l) e
              (fexp64 (Zdigits2 m + e) - e) x) as [A B]; [lia|exact H|].
  split; [exact A|]. rewrite B. lia.
Qed.

Lemma IZR_lt_half (a b : Z) : IZR a <= IZR b + / 2 -> (a <= b)%Z.
Proof.
  intros H. apply Z.lt_succ_r, lt_IZR. rewrite succ_IZR. lra.
Qed.

Lemma IZR_gt_half (a b : Z) : IZR a - / 2 <= IZR b -> (a <= b)%Z.
Proof.
  intros H. apply Z.lt_succ_r, lt_IZR. rewrite succ_IZR. lra.
Qed.

Lemma digits2_pos_le (p : positive) (d : Z) :
  (Zpos p < 2 ^ d)%Z -> (0 <= d)%Z -> (Zpos (digits2_pos p) <= d)%Z.
Proof.
  intros H Hd. pose proof (digits2_pos_bounds p) as [L _].
  destruct (Z_le_gt_dec (Zpos (digits2_pos p)) d) as [G|G]; [exact G|].
  assert (2 ^ d <= 2 ^ (Zpos (digits2_pos p) - 1))%Z
    by (apply Z.pow_le_mono_r; lia).
  lia.
Qed.

Lemma digits2_pos_ge (p : positive) (d : Z) :
  (2 ^ (d - 1) <= Zpos p)%Z -> (d <= Zpos (digits2_pos p))%Z.
Proof.
  intros H. pose proof (digits2_pos_bounds p) as [_ U].
  destruct (Z_le_gt_dec d (Zpos (digits2_pos p))) as [G|G]; [exact G|].
  assert (2 ^ Zpos (digits2_pos p) <= 2 ^ (d - 1))%Z
    by (apply Z.pow_le_mono_r; lia).
  lia.
Qed.

Lemma binary_round_aux_spec (s : bool) (p : positive) (e : Z) (l : location)
    (x : R) :
  located (shr_record_of_loc (Zpos p) l) x ->
  (e <= fexp64 (Zpos (digits2_pos p) + e))%Z ->
  exists v, rounds_to (x * bpow e) v /\
            carries (binary_round_aux Py.prec Py.emax s (Zpos p) e l) s v.
Proof.
  intros Hx Hk.
  pose proof (located_magnitude p l x e Hx) as Hmag.
  destruct (shr_fexp_located (Zpos p) e l x Hx Hk) as [Hloc Hexp].
  cbn [Zdigits2] in Hloc, Hexp.
  set (d := (Zpos (digits2_pos p) + e)%Z) in *.
  set (ce := fexp64 d) in *.
  unfold binary_round_aux.
  destruct (shr_fexp Py.prec Py.emax (Zpos p) e l) as [mrs' e'].
  cbn [fst snd] in Hloc, Hexp. subst e'.
  pose proof (round_nearest_even_located mrs' _ Hloc) as Hn.
  set (n := round_nearest_even (shr_m mrs') (loc_of_shr_record mrs')) in *.
  assert (x / bpow (ce - e) = x * bpow e / bpow ce) as Hscale.
  { rewrite bpow_sub. pose proof (bpow_gt_0 e). pose proof (bpow_gt_0 ce).
    field. lra. }
  rewrite Hscale in Hn.
  exists (F2R n ce). split.
  { exists d, n. auto. }
  (* bounds on the rounded mantissa *)
  destruct Hmag as [Hlo Hhi]. destruct Hn as [[Hn1 Hn2] _].
  pose proof (bpow_gt_0 ce) as Hce.
  assert (ce = Z.max (d - 53) (-1074)) as Hce_eq by reflexivity.
  assert (x * bpow e / bpow ce < bpow 53) as Hq_hi.
  { apply Rlt_le_trans with (bpow (d - ce)).
    - rewrite bpow_sub. apply Rmult_lt_compat_r; [apply Rinv_0_lt_compat, Hce|].
      exact Hhi.
    - apply bpow_le. lia. }
  assert (0 <= n <= 2 ^ 53)%Z as Hn_range.
  { split.
    - apply IZR_gt_half. change (IZR 0) with 0.
      assert (0 < x * bpow e / bpow ce).
      { apply Rdiv_lt_0_compat; [|exact Hce].
        pose proof (bpow_gt_0 (d - 1)). lra. }
      lra.
    - apply IZR_gt_half. rewrite <- bpow_IZR by lia. lra. }
  assert ((-1074 < ce)%Z -> (2 ^ 52 <= n)%Z) as Hnormal.
  { intros Hc.
    assert (bpow 52 <= x * bpow e / bpow ce).
    { replace 52%Z with (d - 1 - ce)%Z by lia.
      rewrite (bpow_sub (d - 1)).
      apply Rmult_le_compat_r; [apply Rlt_le, Rinv_0_lt_compat, bpow_gt_0|].
      exact Hlo. }
    apply IZR_gt_half. rewrite <- bpow_IZR by lia. lra. }
  assert (-1074 <= ce)%Z as Hce_lo by lia.
  clear Hloc Hscale Hx Hk. clearbody n ce. clear mrs'.
  unfold shr_fexp. rewrite fexp64_eq.
  destruct (Z.eq_dec n 0%Z) as [Hz|Hnz].
  { (* the rounded mantissa is zero *)
    subst n. cbn [Zdigits2 shr_record_of_loc].
    rewrite shr_nonpos by lia. cbn [shr_m carries].
    split; [reflexivity|]. unfold F2R. lra. }
  destruct (Z.eq_dec n (2 ^ 53)%Z) as [Hc|Hnc].
  { (* rounding carried into a new binade *)
    subst n. change (Zdigits2 (2 ^ 53)) with 54%Z.
    replace (Z.max (54 + ce - 53) (-1074) - ce)%Z with 1%Z by lia.
    cbn [shr_record_of_loc shr SpecFloat.iter_pos].
    change (shr_m (shr_1 {| shr_m := (2 ^ 53)%Z; shr_r := false; shr_s := false |}))
      with (2 ^ 52)%Z.
    change (2 ^ 52)%Z with (Zpos (2 ^ 52)%positive).
    assert (F2R (Zpos (2 ^ 52)) (ce + 1) = F2R (2 ^ 53) ce) as Hv.
    { unfold F2R. rewrite bpow_succ.
      change (2 ^ 53)%Z with (2 * Zpos (2 ^ 52))%Z. rewrite mult_IZR. lra. }
    destruct (ce + 1 <=? Py.emax - Py.prec)%Z eqn:Hov; cbn [carries].
    - apply Z.leb_le in Hov. split; [reflexivity|]. split; [|exact Hv].
      unfold SpecFloat.bounded, canonical_mantissa.
      change (Zpos (digits2_pos (2 ^ 52))) with 53%Z.
      rewrite fexp64_eq. apply andb_true_intro. split.
      + apply Z.eqb_eq. lia.
      + apply Z.leb_le. exact Hov.
    - apply Z.leb_gt in Hov. split; [reflexivity|].
      rewrite <- Hv. unfold F2R. change (Py.emax - Py.prec)%Z with 971%Z in Hov.
      apply Rle_trans with (bpow 52 * bpow (ce + 1)).
      + rewrite <- bpow_add. apply bpow_le. unfold Py.emax. lia.
      + rewrite (bpow_IZR 52) by lia. apply Rle_refl. }
  (* the rounded mantissa fits *)
  destruct n as [|q|q]; try lia. cbn [Zdigits2 shr_record_of_loc].
  assert (Zpos (digits2_pos q) <= 53)%Z as Hdq
    by (apply digits2_pos_le; lia).
  assert ((-1074 < ce)%Z -> Zpos (digits2_pos q) = 53%Z) as Hdq'.
  { intros Hc. specialize (Hnormal Hc).
    pose proof (digits2_pos_ge q 53 Hnormal). lia. }
  rewrite shr_nonpos by lia. cbn [shr_m].
  destruct (ce <=? Py.emax - Py.prec)%Z eqn:Hov; cbn [carries].
  - apply Z.leb_le in Hov. split; [reflexivity|]. split; [|reflexivity].
    unfold SpecFloat.bounded, canonical_mantissa.
    rewrite fexp64_eq. apply andb_true_intro. split.
    + apply Z.eqb_eq. lia.
    + apply Z.leb_le. exact Hov.
  - apply Z.leb_gt in Hov. split; [reflexivity|].
    change (Py.emax - Py.prec)%Z with 971%Z in Hov.
    assert (2 ^ 52 <= Zpos q)%Z as H52 by (apply Hnormal; lia).
    apply IZR_le in H52. rewrite <- bpow_IZR in H52 by lia.
    unfold F2R. apply Rle_trans with (bpow 52 * bpow ce).
    + rewrite <- bpow_add. apply bpow_le. unfold Py.emax. lia.
    + apply Rmult_le_compat_r; [lra|exact H52].
Qed.

(** *** Round-to-nearest-even as a function of the real value *)

Lemma magnitude_unique (x : R) (d1 d2 : Z) :
  magnitude x d1 -> magnitude x d2 -> d1 = d2.
Proof.
  intros [L1 U1] [L2 U2].
  assert (d1 - 1 < d2)%Z by (apply bpow_lt_inv; lra).
  assert (d2 - 1 < d1)%Z by (apply bpow_lt_inv; lra).
  lia.
Qed.

Lemma magnitude_monotone (x y : R) (dx dy : Z) :
  magnitude x dx -> magnitude y dy -> x <= y -> (dx <= dy)%Z.
Proof.
  intros [L1 U1] [L2 U2] H.
  assert (dx - 1 < dy)%Z by (apply bpow_lt_inv; lra).
  lia.
Qed.

Lemma magnitude_pos (x : R) (d : Z) : magnitude x d -> 0 < x.
Proof. intros [L _]. pose proof (bpow_gt_0 (d - 1)). lra. Qed.

Lemma rounds_to_unique (x v1 v2 : R) :
  rounds_to x v1 -> rounds_to x v2 -> v1 = v2.
Proof.
  intros (d1 & n1 & M1 & N1 & ->) (d2 & n2 & M2 & N2 & ->).
  pose proof (magnitude_unique _ _ _ M1 M2). subst d2.
  pose proof (nearest_even_unique _ _ _ N1 N2). subst n2. reflexivity.
Qed.

(** The scaled real of a rounding lies between [2^(d - 1 - ce)] and
    [2^53], so the rounded mantissa does too. *)
Lemma rounds_to_mantissa (x : R) (d n : Z) :
  magnitude x d -> nearest_even (x / bpow (fexp64 d)) n ->
  (0 <= n <= 2 ^ 53)%Z /\ ((-1074 < fexp64 d)%Z -> (2 ^ 52 <= n)%Z).
Proof.
  intros [Hlo Hhi] [[Hn1 Hn2] _].
  set (ce := fexp64 d) in *.
  assert (ce = Z.max (d - 53) (-1074)) as Hce_eq by reflexivity.
  clearbody ce. pose proof (bpow_gt_0 ce) as Hce.
  assert (x / bpow ce < bpow 53) as Hq_hi.
  { apply Rlt_le_trans with (bpow (d - ce)).
    - rewrite bpow_sub. apply Rmult_lt_compat_r; [apply Rinv_0_lt_compat, Hce|].
      exact Hhi.
    - apply bpow_le. lia. }
  split; [split|].
  - apply IZR_gt_half. change (IZR 0) with 0.
    assert (0 < x / bpow ce).
    { apply Rdiv_lt_0_compat; [|exact Hce].
      pose proof (bpow_gt_0 (d - 1)). lra. }
    lra.
  - apply IZR_gt_half. rewrite <- bpow_IZR by lia. lra.
  - intros Hc.
    assert (bpow 52 <= x / bpow ce).
    { replace 52%Z with (d - 1 - ce)%Z by lia.
      rewrite (bpow_sub (d - 1)).
      apply Rmult_le_compat_r; [apply Rlt_le, Rinv_0_lt_compat, bpow_gt_0|].
      exact Hlo. }
    apply IZR_gt_half. rewrite <- bpow_IZR by lia. lra.
Qed.

Lemma rounds_to_nonneg (x v : R) : rounds_to x v -> 0 <= v.
Proof.
  intros (d & n & M & N & ->).
  destruct (rounds_to_mantissa x d n M N) as [[H _] _].
  unfold F2R. apply Rmult_le_pos.
  - apply IZR_le in H. exact H.
  - apply Rlt_le, bpow_gt_0.
Qed.

Lemma rounds_to_monotone (x y vx vy : R) :
  rounds_to x vx -> rounds_to y vy -> x <= y -> vx <= vy.
Proof.
  intros (dx & nx & Mx & Nx & ->) (dy & ny & My & Ny & ->) Hxy.
  pose proof (magnitude_monotone _ _ _ _ Mx My Hxy) as Hd.
  destruct (rounds_to_mantissa _ _ _ Mx Nx) as [[_ Hx_hi] _].
  destruct (rounds_to_mantissa _ _ _ My Ny) as [_ Hy_lo].
  rewrite fexp64_eq in Hy_lo.
  unfold F2R. rewrite !fexp64_eq in *.
  destruct (Z.eq_dec (Z.max (dx - 53) (-1074)) (Z.max (dy - 53) (-1074)))
    as [E|E].
  - rewrite E in *.
    pose proof (bpow_gt_0 (Z.max (dy - 53) (-1074))) as Hp.
    assert (nx <= ny)%Z as Hn.
    { apply (nearest_even_monotone _ _ _ _ Nx Ny).
      apply Rmult_le_compat_r; [apply Rlt_le, Rinv_0_lt_compat, Hp|exact Hxy]. }
    apply IZR_le in Hn. nra.
  - assert (Z.max (dx - 53) (-1074) + 1 <= Z.max (dy - 53) (-1074))%Z as Hlt
      by lia.
    assert (2 ^ 52 <= ny)%Z as Hy52 by (apply Hy_lo; lia).
    apply IZR_le in Hx_hi, Hy52.
    rewrite <- bpow_IZR in Hx_hi, Hy52 by lia.
    apply Rle_trans with (bpow 53 * bpow (Z.max (dx - 53) (-1074))).
    { apply Rmult_le_compat_r; [apply Rlt_le, bpow_gt_0|exact Hx_hi]. }
    apply Rle_trans with (bpow 52 * bpow (Z.max (dy - 53) (-1074))).
    { rewrite <- !bpow_add. apply bpow_le. lia. }
    apply Rmult_le_compat_r; [apply Rlt_le, bpow_gt_0|exact Hy52].
Qed.

(** A real with a mantissa at or above its canonical exponent rounds to
    itself. *)
Lemma rounds_to_exact (a b d : Z) :
  magnitude (F2R a b) d -> (fexp64 d <= b)%Z -> rounds_to (F2R a b) (F2R a b).
Proof.
  intros M Hb. exists d, (a * 2 ^ (b - fexp64 d))%Z.
  assert (F2R a b = F2R (a * 2 ^ (b - fexp64 d)) (fexp64 d)) as E.
  { unfold F2R. rewrite mult_IZR, <- bpow_IZR by lia.
    rewrite Rmult_assoc, <- bpow_add. f_equal. f_equal. lia. }
  split; [exact M|]. split; [|exact E].
  rewrite E at 1. unfold F2R.
  replace (IZR (a * 2 ^ (b - fexp64 d)) * bpow (fexp64 d) / bpow (fexp64 d))
    with (IZR (a * 2 ^ (b - fexp64 d))).
  - apply nearest_even_IZR.
  - pose proof (bpow_gt_0 (fexp64 d)). field. lra.
Qed.

(** In the normal range the rounded value exceeds the real by at most
    the relative error [2^-53]. *)
Lemma rounds_to_upper (x v : R) :
  rounds_to x v -> bpow (-1022) <= x -> v <= x * (1 + bpow (-53)).
Proof.
  intros (d & n & M & [[N _] _] & ->) Hx.
  assert (-1022 < d)%Z as Hd.
  { apply bpow_lt_inv. destruct M. lra. }
  rewrite fexp64_eq in *.
  replace (Z.max (d - 53) (-1074)) with (d - 53)%Z in * by lia.
  destruct M as [Hlo _]. unfold F2R.
  pose proof (bpow_gt_0 (d - 53)) as Hp.
  assert (IZR n * bpow (d - 53) <= x + / 2 * bpow (d - 53)).
  { apply Rmult_le_compat_r with (r := bpow (d - 53)) in N; [|lra].
    replace (x / bpow (d - 53) * bpow (d - 53)) with x in N by (field; lra).
    lra. }
  assert (bpow (d - 53) = 2 * bpow (d - 1) * bpow (-53)) as E.
  { replace (d - 53)%Z with (1 + (d - 1) + -53)%Z by lia.
    rewrite !bpow_add. change (bpow 1) with (2 * 1). ring. }
  pose proof (bpow_gt_0 (-53)). nra.
Qed.

(** *** Valid floats *)

Lemma bounded_canonical (m : positive) (e : Z) :
  SpecFloat.bounded Py.prec Py.emax m e = true ->
  (e = Z.max (Zpos (digits2_pos m) + e - 53) (-1074) /\ e <= 971)%Z.
Proof.
  unfold SpecFloat.bounded, canonical_mantissa. rewrite fexp64_eq.
  intros H. apply andb_prop in H as [H1 H2].
  apply Z.eqb_eq in H1. apply Z.leb_le in H2.
  change (Py.emax - Py.prec)%Z with 971%Z in H2. lia.
Qed.

Lemma F2R_magnitude (m : positive) (e : Z) :
  magnitude (F2R (Zpos m) e) (Zpos (digits2_pos m) + e).
Proof.
  replace (F2R (Zpos m) e) with (IZR (Zpos m) * bpow e) by reflexivity.
  apply (located_magnitude m loc_Exact).
  split; [cbn; lia|reflexivity].
Qed.

Lemma F2R_pos (m : positive) (e : Z) : 0 < F2R (Zpos m) e.
Proof. apply (magnitude_pos _ _ (F2R_magnitude m e)). Qed.

(** Every valid finite float is below [2^emax]. *)
Lemma bounded_lt_emax (m : positive) (e : Z) :
  SpecFloat.bounded Py.prec Py.emax m e = true -> F2R (Zpos m) e < bpow 1024.
Proof.
  intros H. apply bounded_canonical in H.
  destruct (F2R_magnitude m e) as [_ U].
  apply Rlt_le_trans with (1 := U). apply bpow_le. lia.
Qed.

(** A valid finite float rounds to itself. *)
Lemma bounded_rounds_to (m : positive) (e : Z) :
  SpecFloat.bounded Py.prec Py.emax m e = true ->
  rounds_to (F2R (Zpos m) e) (F2R (Zpos m) e).
Proof.
  intros H. apply bounded_canonical in H.
  apply rounds_to_exact with (d := (Zpos (digits2_pos m) + e)%Z).
  - apply F2R_magnitude.
  - rewrite fexp64_eq. lia.
Qed.

(** *** Multiplication *)

Lemma digits2_pos_mul (a b : positive) :
  (Zpos (digits2_pos a) + Zpos (digits2_pos b) - 1
   <= Zpos (digits2_pos (a * b)))%Z.
Proof.
  apply digits2_pos_ge.
  pose proof (digits2_pos_bounds a) as [La _].
  pose proof (digits2_pos_bounds b) as [Lb _].
  replace (Zpos (digits2_pos a) + Zpos (digits2_pos b) - 1 - 1)%Z
    with ((Zpos (digits2_pos a) - 1) + (Zpos (digits2_pos b) - 1))%Z by lia.
  rewrite Z.pow_add_r by lia. rewrite Pos2Z.inj_mul.
  apply Z.mul_le_mono_nonneg; lia.
Qed.

Lemma SFmul_finite_spec (sx sy : bool) (mx my : positive) (ex ey : Z) :
  SpecFloat.bounded Py.prec Py.emax mx ex = true ->
  SpecFloat.bounded Py.prec Py.emax my ey = true ->
  exists v,
    rounds_to (F2R (Zpos mx) ex * F2R (Zpos my) ey) v /\
    carries (Py.float_mul (S754_finite sx mx ex) (S754_finite sy my ey))
            (xorb sx sy) v.
Proof.
  intros Hx Hy. apply bounded_canonical in Hx, Hy.
  pose proof (digits2_pos_mul mx my) as Hd.
  destruct (binary_round_aux_spec (xorb sx sy) (mx * my) (ex + ey) loc_Exact
              (IZR (Zpos (mx * my)))) as (v & Hv & Hc).
  - split; [cbn; lia|reflexivity].
  - rewrite fexp64_eq. lia.
  - exists v. split; [|exact Hc].
    replace (F2R (Zpos mx) ex * F2R (Zpos my) ey)
      with (IZR (Zpos (mx * my)) * bpow (ex + ey)); [exact Hv|].
    unfold F2R. rewrite Pos2Z.inj_mul, mult_IZR, bpow_add. ring.
Qed.

(** *** Conversion of an integer *)

Lemma pos_iter_xO (m d : positive) :
  Zpos (Pos.iter xO m d) = (Zpos m * 2 ^ Zpos d)%Z.
Proof.
  induction d as [|d IH] using Pos.peano_ind.
  - cbn [Pos.iter]. rewrite (Pos2Z.inj_xO m). change (2 ^ 1)%Z with 2%Z. ring.
  - rewrite Pos.iter_succ, (Pos2Z.inj_xO (Pos.iter xO m d)), IH.
    rewrite Pos2Z.inj_succ, Z.pow_succ_r by lia. ring.
Qed.

Lemma shl_align_spec (m : positive) (e e' : Z) :
  F2R (Zpos (fst (shl_align m e e'))) (snd (shl_align m e e')) = F2R (Zpos m) e
  /\ (snd (shl_align m e e') <= e')%Z.
Proof.
  unfold shl_align. destruct (e' - e)%Z as [|d|d] eqn:E; cbn [fst snd].
  - split; [reflexivity|lia].
  - split; [reflexivity|lia].
  - split; [|lia]. unfold F2R. rewrite pos_iter_xO, mult_IZR.
    rewrite <- bpow_IZR by lia. rewrite Rmult_assoc, <- bpow_add.
    f_equal. f_equal. lia.
Qed.

Lemma binary_round_spec (s : bool) (m : positive) (e : Z) :
  exists v, rounds_to (F2R (Zpos m) e) v /\
            carries (binary_round Py.prec Py.emax s m e) s v.
Proof.
  unfold binary_round.
  pose proof (shl_align_spec m e (fexp64 (Zpos (digits2_pos m) + e)))
    as [Hv He].
  destruct (shl_align m e (fexp64 (Zpos (digits2_pos m) + e))) as [mz ez].
  cbn [fst snd] in Hv, He.
  assert (Zpos (digits2_pos mz) + ez = Zpos (digits2_pos m) + e)%Z as Hd.
  { apply (magnitude_unique (F2R (Zpos m) e)).
    - rewrite <- Hv. apply F2R_magnitude.
    - apply F2R_magnitude. }
  destruct (binary_round_aux_spec s mz ez loc_Exact (IZR (Zpos mz)))
    as (v & Hr & Hc).
  - split; [cbn; lia|reflexivity].
  - rewrite Hd. exact He.
  - exists v. split; [|exact Hc]. rewrite <- Hv. exact Hr.
Qed.

(** *** Division *)

Lemma new_location_located (m2 q r : Z) :
  (0 < m2)%Z -> (0 <= r < m2)%Z -> (0 <= q)%Z ->
  located (shr_record_of_loc q (new_location m2 r))
          (IZR q + IZR r / IZR m2).
Proof.
  intros Hm Hr Hq.
  assert (0 < IZR m2) as HM by (apply IZR_lt; lia).
  set (t := IZR r / IZR m2).
  assert (t * IZR m2 = IZR r) as Ht by (unfold t; field; lra).
  clearbody t.
  assert ((2 * r = m2)%Z -> 2 * t = 1) as Heq.
  { intros Hc. apply (f_equal IZR) in Hc. rewrite mult_IZR in Hc. nra. }
  assert ((2 * r < m2)%Z -> 2 * t < 1) as Hlt.
  { intros Hc. apply IZR_lt in Hc. rewrite mult_IZR in Hc. nra. }
  assert ((m2 < 2 * r)%Z -> 1 < 2 * t) as Hgt.
  { intros Hc. apply IZR_lt in Hc. rewrite mult_IZR in Hc. nra. }
  assert (0 <= t < 1) as Ht01.
  { destruct Hr as [Hr0 Hr1]. apply IZR_le in Hr0. apply IZR_lt in Hr1.
    split; nra. }
  split.
  { destruct (new_location m2 r) as [|[| |]]; exact Hq. }
  assert (r <> 0%Z -> 0 < t) as Htpos.
  { intros Hz. assert (0 < IZR r) by (apply IZR_lt; lia). nra. }
  unfold new_location.
  destruct (Z.even m2) eqn:Hev;
    unfold new_location_even, new_location_odd;
    (destruct (r =? 0)%Z eqn:Hz;
     [apply Z.eqb_eq in Hz; subst r; cbn; assert (t = 0) by nra; lra|]);
    apply Z.eqb_neq in Hz; specialize (Htpos Hz).
  - destruct (2 * r ?= m2)%Z eqn:Hc;
      cbn [inbetween shr_record_of_loc shr_m shr_r shr_s].
    + apply Z.compare_eq in Hc. specialize (Heq Hc). lra.
    + rewrite Z.compare_lt_iff in Hc. specialize (Hlt Hc). lra.
    + rewrite Z.compare_gt_iff in Hc. specialize (Hgt Hc). lra.
  - assert (2 * r <> m2)%Z as Hne.
    { intros E. rewrite <- E, Z.even_mul in Hev. discriminate. }
    destruct (2 * r + 1 ?= m2)%Z eqn:Hc;
      cbn [inbetween shr_record_of_loc shr_m shr_r shr_s].
    + apply Z.compare_eq in Hc. assert (2 * r < m2)%Z as H by lia.
      specialize (Hlt H). lra.
    + rewrite Z.compare_lt_iff in Hc. assert (2 * r < m2)%Z as H by lia.
      specialize (Hlt H). lra.
    + rewrite Z.compare_gt_iff in Hc. assert (m2 < 2 * r)%Z as H by lia.
      specialize (Hgt H). lra.
Qed.

Lemma SFdiv_core_binary_spec (m1 m2 : positive) (e1 e2 : Z) :
  exists q e' l x,
    SFdiv_core_binary Py.prec Py.emax (Zpos m1) e1 (Zpos m2) e2 = (q, e', l) /\
    located (shr_record_of_loc q l) x /\
    x * bpow e' = F2R (Zpos m1) e1 / F2R (Zpos m2) e2 /\
    (e' <= fexp64 (Zdigits2 q + e'))%Z /\
    (0 <= q)%Z /\
    ((-1074 < Zpos (digits2_pos m1) + e1 - (Zpos (digits2_pos m2) + e2))%Z ->
     (0 < q)%Z).
Proof.
  unfold SFdiv_core_binary. cbn [Zdigits2].
  set (d1 := Zpos (digits2_pos m1)). set (d2 := Zpos (digits2_pos m2)).
  set (E := (d1 + e1 - (d2 + e2))%Z).
  set (e' := Z.min (fexp64 E) (e1 - e2)).
  set (sh := (e1 - e2 - e')%Z).
  assert (0 <= sh)%Z as Hsh by (unfold sh, e'; lia).
  set (m' := match sh with
             | 0%Z => Zpos m1
             | Zpos _ => Z.shiftl (Zpos m1) sh
             | Zneg _ => 0%Z
             end).
  assert (m' = Zpos m1 * 2 ^ sh)%Z as Hm'.
  { unfold m'. destruct sh as [|k|k] eqn:Ek; try lia.
    apply Z.shiftl_mul_pow2. lia. }
  clearbody m'.
  pose proof (Z_div_mod m' (Zpos m2) eq_refl) as Hdm.
  destruct (Z.div_eucl m' (Zpos m2)) as [q r]. destruct Hdm as [Hdiv Hr].
  pose proof (digits2_pos_bounds m1) as [L1 U1]. fold d1 in L1, U1.
  pose proof (digits2_pos_bounds m2) as [L2 U2]. fold d2 in L2, U2.
  assert (0 < 2 ^ sh)%Z as Hpow by (apply Z.pow_pos_nonneg; lia).
  assert (0 <= q)%Z as Hq by nia.
  exists q, e', (new_location (Zpos m2) r), (IZR q + IZR r / IZR (Zpos m2)).
  split; [reflexivity|]. split; [apply new_location_located; lia|].
  assert (0 < IZR (Zpos m2)) as HM2 by (apply IZR_lt; lia).
  split.
  - replace (IZR q + IZR r / IZR (Zpos m2)) with (IZR m' / IZR (Zpos m2)).
    2:{ rewrite Hdiv, plus_IZR, mult_IZR. field. lra. }
    rewrite Hm', mult_IZR, <- bpow_IZR by lia. unfold F2R.
    replace (bpow e1) with (bpow sh * bpow e' * bpow e2)
      by (rewrite <- !bpow_add; f_equal; unfold sh; lia).
    pose proof (bpow_gt_0 e2). pose proof (bpow_gt_0 e'). field. lra.
  - assert (e' <= fexp64 E)%Z as He' by (unfold e'; lia).
    rewrite fexp64_eq in He'.
    assert (q = 0%Z -> (e' <= -1074 /\ E <= -1074)%Z) as Hzero.
    { (* the quotient underflows: its exponent is the least one *)
      intros ->.
      assert (m' < 2 ^ d2)%Z as Hlt by lia.
      assert (2 ^ (d1 - 1 + sh) <= m')%Z as Hge.
      { rewrite Z.pow_add_r by (unfold d1; lia). rewrite Hm'.
        apply Z.mul_le_mono_nonneg_r; lia. }
      assert (d1 - 1 + sh < d2)%Z.
      { apply (Z.pow_lt_mono_r_iff 2); [lia|unfold d2; lia|lia]. }
      unfold sh, E in *. lia. }
    split; [|split; [exact Hq|intros HE; fold d1 d2 E in HE; lia]].
    rewrite fexp64_eq.
    destruct q as [|qq|qq]; [| |lia]; cbn [Zdigits2].
    + specialize (Hzero eq_refl). lia.
    + assert (d1 + sh - d2 <= Zpos (digits2_pos qq))%Z as Hdq.
      { apply digits2_pos_ge.
        destruct (Z_lt_le_dec (d1 + sh - d2 - 1) 0) as [Hneg|Hk].
        - rewrite Z.pow_neg_r by lia. lia.
        - assert (2 ^ (d1 + sh - d2 - 1) * Zpos m2 <= m')%Z as Hb.
          { apply Z.le_trans with (2 ^ (d1 + sh - d2 - 1) * 2 ^ d2)%Z.
            - apply Z.mul_le_mono_nonneg_l; [apply Z.pow_nonneg|]; lia.
            - rewrite <- Z.pow_add_r by (unfold d2; lia).
              replace (d1 + sh - d2 - 1 + d2)%Z with (d1 - 1 + sh)%Z by lia.
              rewrite Z.pow_add_r by (unfold d1; lia). rewrite Hm'.
              apply Z.mul_le_mono_nonneg_r; lia. }
          assert (0 < 2 ^ (d1 + sh - d2 - 1))%Z by (apply Z.pow_pos_nonneg; lia).
          nia. }
      unfold sh, E in *. lia.
Qed.

Lemma located_record_bounds (mrs : shr_record) (x : R) :
  located mrs x -> IZR (shr_m mrs) <= x < IZR (shr_m mrs) + 1.
Proof.
  destruct mrs as [m r s]. unfold located. cbn [shr_m shr_r shr_s].
  intros [_ H]. destruct r, s; cbn [inbetween] in H; lra.
Qed.

(** A quotient below one unit of the least exponent rounds to zero or to
    the least positive float. *)
Lemma binary_round_aux_zero (s : bool) (e : Z) (l : location) (x : R) :
  located (shr_record_of_loc 0 l) x -> (e <= -1074)%Z ->
  binary_round_aux Py.prec Py.emax s 0 e l = S754_zero s \/
  binary_round_aux Py.prec Py.emax s 0 e l = S754_finite s 1 (-1074).
Proof.
  intros Hx He.
  destruct (shr_fexp_located 0 e l x Hx) as [Hloc Hexp].
  { cbn [Zdigits2]. rewrite fexp64_eq. lia. }
  cbn [Zdigits2] in Hloc, Hexp. rewrite fexp64_eq in Hloc, Hexp.
  replace (Z.max (0 + e - 53) (-1074)) with (-1074)%Z in Hloc, Hexp by lia.
  unfold binary_round_aux.
  destruct (shr_fexp Py.prec Py.emax 0 e l) as [mrs' e'].
  cbn [fst snd] in Hloc, Hexp. subst e'.
  assert (shr_m mrs' = 0%Z) as Hm.
  { pose proof (located_record_bounds _ _ Hloc) as [Hlo _].
    pose proof (located_bounds _ _ _ Hx) as [_ Hhi].
    destruct Hloc as [Hnn _].
    assert (1 <= bpow (-1074 - e)).
    { change 1 with (bpow 0). apply bpow_le. lia. }
    assert (x / bpow (-1074 - e) < 1).
    { change (IZR 0) with 0 in Hhi.
      pose proof (located_bounds _ _ _ Hx) as [Hx0 _].
      change (IZR 0) with 0 in Hx0.
      assert (/ bpow (-1074 - e) <= 1).
      { rewrite <- Rinv_1. apply Rinv_le_contravar; lra. }
      assert (0 < / bpow (-1074 - e)) by (apply Rinv_0_lt_compat; lra).
      unfold Rdiv. nra. }
    apply Z.le_antisymm; [|exact Hnn].
    apply Z.lt_succ_r, lt_IZR. change (IZR (Z.succ 0)) with 1. lra. }
  destruct mrs' as [m' r' s']. cbn [shr_m] in Hm. subst m'.
  destruct r', s'; cbn; auto.
Qed.

Lemma binary_round_aux_carries (s : bool) (m e : Z) (l : location) (x : R) :
  (0 <= m)%Z ->
  located (shr_record_of_loc m l) x ->
  (e <= fexp64 (Zdigits2 m + e))%Z ->
  exists v, carries (binary_round_aux Py.prec Py.emax s m e l) s v.
Proof.
  intros Hm Hx He. destruct m as [|p|p]; [| |lia].
  - cbn [Zdigits2] in He. rewrite fexp64_eq in He.
    destruct (binary_round_aux_zero s e l x Hx) as [-> | ->]; [lia| |].
    + exists 0. cbn. auto.
    + exists (F2R 1 (-1074)). cbn. auto.
  - destruct (binary_round_aux_spec s p e l x Hx He) as (v & _ & Hc).
    exists v. exact Hc.
Qed.

Lemma SFdiv_finite_carries (sx sy : bool) (mx my : positive) (ex ey : Z) :
  exists v,
    carries (SFdiv Py.prec Py.emax (S754_finite sx mx ex) (S754_finite sy my ey))
            (xorb sx sy) v.
Proof.
  cbn [SFdiv].
  destruct (SFdiv_core_binary_spec mx my ex ey)
    as (q & e' & l & x & -> & Hloc & _ & He & Hq & _).
  apply (binary_round_aux_carries _ q e' l x Hq Hloc He).
Qed.

(** *** Floats and the reals they carry *)

Lemma carries_lt_emax (f : Py.float) (s : bool) (v : R) :
  carries f s v -> is_finite f = true -> v < bpow 1024.
Proof.
  destruct f as [s0|s0| |s0 m e];
    cbn [carries is_finite valid_binary]; try discriminate; try contradiction.
  - intros [_ ->] _. apply bpow_gt_0.
  - intros (_ & Hb & <-) _. apply bounded_lt_emax, Hb.
Qed.

Lemma carries_valid (f : Py.float) (s : bool) (v : R) :
  carries f s v -> valid_binary Py.prec Py.emax f = true.
Proof.
  destruct f as [s0|s0| |s0 m e];
    cbn [carries is_finite valid_binary]; try reflexivity; try contradiction.
  intros (_ & Hb & _). exact Hb.
Qed.

(** The overflow guard of the fallible operations. *)
Lemma overflow_guard (f : Py.float) (s : bool) (v : R) :
  carries f s v -> returns_rounded (Py.finite_or_overflow f) s v.
Proof.
  intros H. pose proof (carries_lt_emax f s v H) as Hlt.
  destruct f as [s0|s0| |s0 m e]; cbn [returns_rounded Py.finite_or_overflow].
  - split; [exact H|]. apply Hlt. reflexivity.
  - split; [reflexivity|]. destruct H as [_ H]. exact H.
  - contradiction.
  - split; [exact H|]. apply Hlt. reflexivity.
Qed.

(** The quotient of two positive integers is correctly rounded. *)
Lemma int_truediv_spec (a b : Z) :
  (0 < a)%Z -> (0 < b < 2 ^ 1074)%Z ->
  exists v, rounds_to (IZR a / IZR b) v /\
            returns_rounded (Py.int_truediv a b) false v.
Proof.
  intros Ha Hb. unfold Py.int_truediv.
  destruct (Z.eqb_spec b 0) as [|_]; [lia|].
  destruct (Z.eqb_spec a 0) as [|_]; [lia|].
  destruct a as [|pa|pa]; try lia. destruct b as [|pb|pb]; try lia.
  change (Z.abs (Zpos pa)) with (Zpos pa).
  change (Z.abs (Zpos pb)) with (Zpos pb).
  change (xorb (Zpos pa <? 0)%Z (Zpos pb <? 0)%Z) with false.
  destruct (SFdiv_core_binary_spec pa pb 0 0)
    as (q & e' & l & x & -> & Hloc & Hval & He & Hq & Hpos).
  assert (0 < q)%Z as Hq'.
  { apply Hpos. pose proof (digits2_pos_le pb 1074). lia. }
  destruct q as [|qq|qq]; try lia.
  destruct (binary_round_aux_spec false qq e' l x Hloc He) as (v & Hr & Hc).
  exists v. split.
  - rewrite Hval in Hr. unfold F2R in Hr. cbn [powerRZ] in Hr.
    rewrite !Rmult_1_r in Hr. exact Hr.
  - apply overflow_guard, Hc.
Qed.

Lemma float_of_int_spec (n : Z) :
  (0 < n)%Z ->
  exists v, rounds_to (IZR n) v /\ returns_rounded (Py.float_of_int n) false v.
Proof.
  intros Hn. destruct n as [|p|p]; try lia.
  destruct (binary_round_spec false p 0) as (v & Hr & Hc).
  exists v. split.
  - unfold F2R in Hr. cbn [powerRZ] in Hr. rewrite Rmult_1_r in Hr. exact Hr.
  - unfold Py.float_of_int. cbn [binary_normalize].
    apply overflow_guard, Hc.
Qed.

(** Integers of at most 53 bits convert exactly. *)
Lemma rounds_to_small_int (n : Z) (v : R) :
  (0 < n <= 2 ^ 53)%Z -> rounds_to (IZR n) v -> v = IZR n.
Proof.
  intros Hn Hv. apply (rounds_to_unique (IZR n)); [exact Hv|].
  destruct n as [|p|p]; try lia.
  replace (IZR (Zpos p)) with (F2R (Zpos p) 0)
    by (unfold F2R; cbn [powerRZ]; lra).
  destruct (Z.eq_dec (Zpos p) (2 ^ 53)%Z) as [E|E].
  - replace (F2R (Zpos p) 0) with (F2R 1 53).
    2:{ unfold F2R. rewrite E, <- bpow_IZR by lia. change (bpow 0) with 1. lra. }
    apply rounds_to_exact with (d := 54%Z).
    + unfold F2R, magnitude. rewrite Rmult_1_l.
      split; [apply Rle_refl|apply bpow_lt; lia].
    + rewrite fexp64_eq. lia.
  - apply rounds_to_exact with (d := (Zpos (digits2_pos p) + 0)%Z).
    + apply F2R_magnitude.
    + rewrite fexp64_eq. pose proof (digits2_pos_le p 53). lia.
Qed.

Lemma float_of_int_exact (n : Z) :
  (0 < n <= 2 ^ 53)%Z ->
  exists f, Py.float_of_int n = Py.Ok f /\ carries f false (IZR n).
Proof.
  intros Hn. destruct (float_of_int_spec n) as (v & Hr & Hc); [lia|].
  apply rounds_to_small_int in Hr; [|exact Hn]. subst v.
  destruct (Py.float_of_int n) as [f|e]; cbn [returns_rounded] in Hc.
  - exists f. split; [reflexivity|apply Hc].
  - destruct Hc as [_ Hc]. exfalso.
    assert (IZR n < bpow 1024); [|unfold Py.emax in Hc; lra].
    apply Rle_lt_trans with (bpow 53); [|apply bpow_lt; lia].
    rewrite bpow_IZR by lia. apply IZR_le. lia.
Qed.

(** *** [round] and [math.floor] *)

Lemma div_mod_real (m : Z) (k : positive) :
  IZR m / bpow (Zpos k)
  = IZR (m / 2 ^ Zpos k) + IZR (m mod 2 ^ Zpos k) / IZR (2 ^ Zpos k).
Proof.
  assert (0 < 2 ^ Zpos k)%Z as Hp by (apply Z.pow_pos_nonneg; lia).
  rewrite bpow_IZR by lia.
  rewrite (Z.div_mod m (2 ^ Zpos k)) at 1 by lia.
  rewrite plus_IZR, mult_IZR. apply IZR_lt in Hp. field. lra.
Qed.

Lemma round_half_even_nearest (m : Z) (k : positive) :
  (0 <= m)%Z -> nearest_even (IZR m / bpow (Zpos k)) (Py.round_half_even m k).
Proof.
  intros Hm.
  assert (0 < 2 ^ Zpos k)%Z as Hp by (apply Z.pow_pos_nonneg; lia).
  assert (Z.even (2 ^ Zpos k) = true) as Hev.
  { replace (Zpos k) with (Z.succ (Zpos k - 1)) by lia.
    rewrite Z.pow_succ_r by lia. rewrite Z.even_mul. reflexivity. }
  assert (Py.round_half_even m k
          = round_nearest_even (m / 2 ^ Zpos k)
              (new_location (2 ^ Zpos k) (m mod 2 ^ Zpos k))) as ->.
  { unfold Py.round_half_even, new_location. rewrite Hev.
    unfold new_location_even.
    destruct (Z.eqb_spec (m mod 2 ^ Zpos k) 0) as [E|E].
    - rewrite E. cbn [round_nearest_even].
      assert ((2 * 0 ?= 2 ^ Zpos k)%Z = Lt) as C
        by (apply Z.compare_lt_iff; lia).
      rewrite C. reflexivity.
    - destruct (2 * (m mod 2 ^ Zpos k) ?= 2 ^ Zpos k)%Z; reflexivity. }
  rewrite div_mod_real.
  pose proof (new_location_located (2 ^ Zpos k) (m / 2 ^ Zpos k)
                (m mod 2 ^ Zpos k) Hp) as H.
  apply (round_nearest_even_located
           (shr_record_of_loc (m / 2 ^ Zpos k)
              (new_location (2 ^ Zpos k) (m mod 2 ^ Zpos k)))) in H.
  - destruct (new_location (2 ^ Zpos k) (m mod 2 ^ Zpos k)) as [|[| |]];
      exact H.
  - apply Z.mod_pos_bound. lia.
  - apply Z.div_pos; lia.
Qed.

(** [round] delivers the integer nearest to the value of a finite
    non-negative float. *)
Lemma round_spec (f : Py.float) (v : R) :
  carries f false v -> v < bpow 1024 ->
  exists n, Py.round f = Py.Ok n /\ nearest_even v n.
Proof.
  intros Hc Hv. destruct f as [s0|s0| |s0 m e]; cbn [carries] in Hc.
  - destruct Hc as [_ ->]. exists 0%Z. split; [reflexivity|].
    apply (nearest_even_IZR 0).
  - destruct Hc as [_ Hc]. unfold Py.emax in Hc. lra.
  - contradiction.
  - destruct Hc as (-> & _ & <-). cbn [Py.round cond_Zopp].
    eexists. split; [reflexivity|]. unfold F2R.
    destruct e as [|k|k].
    + change (bpow 0) with 1. rewrite Rmult_1_r.
      change (2 ^ 0)%Z with 1%Z. rewrite Z.mul_1_r. apply nearest_even_IZR.
    + rewrite bpow_IZR, <- mult_IZR by lia. apply nearest_even_IZR.
    + change (Zneg k) with (- Zpos k)%Z. rewrite bpow_opp.
      apply round_half_even_nearest. lia.
Qed.

(** [math.floor] delivers an integer at or below the value of a finite
    non-negative float, less than one away. *)
Lemma floor_spec (f : Py.float) (v : R) :
  carries f false v -> v < bpow 1024 ->
  exists n, Py.floor f = Py.Ok n /\ IZR n <= v < IZR n + 1.
Proof.
  intros Hc Hv. destruct f as [s0|s0| |s0 m e]; cbn [carries] in Hc.
  - destruct Hc as [_ ->]. exists 0%Z. split; [reflexivity|].
    change (IZR 0) with 0. lra.
  - destruct Hc as [_ Hc]. unfold Py.emax in Hc. lra.
  - contradiction.
  - destruct Hc as (-> & _ & <-). cbn [Py.floor cond_Zopp].
    eexists. split; [reflexivity|]. unfold F2R.
    destruct e as [|k|k].
    + change (bpow 0) with 1. rewrite Rmult_1_r.
      change (2 ^ 0)%Z with 1%Z. rewrite Z.mul_1_r. lra.
    + rewrite bpow_IZR, <- mult_IZR by lia. lra.
    + change (Zneg k) with (- Zpos k)%Z. rewrite bpow_opp.
      change (IZR (Zpos m) * / bpow (Zpos k))
        with (IZR (Zpos m) / bpow (Zpos k)).
      rewrite div_mod_real.
      assert (0 < 2 ^ Zpos k)%Z as Hp by (apply Z.pow_pos_nonneg; lia).
      pose proof (Z.mod_pos_bound (Zpos m) (2 ^ Zpos k) Hp) as [H0 H1].
      apply IZR_le in H0. apply IZR_lt in H1, Hp.
      set (t := IZR (Zpos m mod 2 ^ Zpos k) / IZR (2 ^ Zpos k)).
      assert (t * IZR (2 ^ Zpos k) = IZR (Zpos m mod 2 ^ Zpos k)) as Ht
        by (unfold t; field; lra).
      clearbody t. split; nra.
Qed.

(** *** Comparison and [min] *)

Lemma bounded_exp_lt (m1 m2 : positive) (e1 e2 : Z) :
  SpecFloat.bounded Py.prec Py.emax m1 e1 = true ->
  SpecFloat.bounded Py.prec Py.emax m2 e2 = true ->
  (e1 < e2)%Z -> F2R (Zpos m1) e1 < F2R (Zpos m2) e2.
Proof.
  intros H1 H2 He. apply bounded_canonical in H1, H2.
  destruct (F2R_magnitude m1 e1) as [_ U].
  destruct (F2R_magnitude m2 e2) as [L _].
  apply Rlt_le_trans with (1 := U). apply Rle_trans with (2 := L).
  apply bpow_le. lia.
Qed.

Lemma SFltb_spec (a b : Py.float) (va vb : R) :
  carries a false va -> carries b false vb ->
  va < bpow 1024 -> vb < bpow 1024 ->
  (SFltb a b = true <-> va < vb).
Proof.
  intros Ha Hb Hva Hvb. unfold SFltb.
  destruct a as [sa|sa| |sa ma ea]; cbn [carries] in Ha;
    try contradiction; try (destruct Ha as [_ Ha]; unfold Py.emax in Ha; lra);
  destruct b as [sb|sb| |sb mb eb]; cbn [carries] in Hb;
    try contradiction; try (destruct Hb as [_ Hb]; unfold Py.emax in Hb; lra).
  - destruct Ha as [_ ->], Hb as [_ ->]. cbn. split; [discriminate|lra].
  - destruct Ha as [_ ->], Hb as (-> & _ & <-). cbn.
    pose proof (F2R_pos mb eb). split; [lra|reflexivity].
  - destruct Ha as (-> & _ & <-), Hb as [_ ->]. cbn.
    pose proof (F2R_pos ma ea). split; [discriminate|lra].
  - destruct Ha as (-> & Ba & <-), Hb as (-> & Bb & <-). cbn [SFcompare].
    destruct (Z.compare_spec ea eb) as [E|E|E].
    + subst eb. rewrite Pos.compare_cont_spec. cbn [Pos.switch_Eq].
      unfold F2R. pose proof (bpow_gt_0 ea) as Hp.
      destruct (Pos.compare_spec ma mb) as [C|C|C].
      * subst mb. split; [discriminate|lra].
      * split; [intros _|reflexivity].
        apply Rmult_lt_compat_r; [exact Hp|]. apply IZR_lt. lia.
      * split; [discriminate|]. intros H. exfalso.
        assert (IZR (Zpos mb) < IZR (Zpos ma)) by (apply IZR_lt; lia). nra.
    + split; [intros _|reflexivity]. apply bounded_exp_lt; assumption.
    + split; [discriminate|]. intros H. exfalso.
      pose proof (bounded_exp_lt mb ma eb ea Bb Ba E). lra.
Qed.

Lemma min_spec (a b : Py.float) (va vb : R) :
  carries a false va -> carries b false vb ->
  va < bpow 1024 -> vb < bpow 1024 ->
  exists v, carries (Py.min a b) false v /\ v <= va /\ v <= vb /\
            (v = va \/ v = vb).
Proof.
  intros Ha Hb Hva Hvb. unfold Py.min.
  pose proof (SFltb_spec b a vb va Hb Ha Hvb Hva) as H.
  destruct (SFltb b a).
  - exists vb. assert (vb < va) by (apply H; reflexivity).
    repeat split; [exact Hb|lra|lra|auto].
  - exists va. assert (~ vb < va) by (intros C; apply H in C; discriminate).
    repeat split; [exact Ha|lra|lra|auto].
Qed.

(** *** Multiplication of non-negative floats *)

Lemma rounds_to0_nonneg (x v : R) : rounds_to0 x v -> 0 <= v.
Proof. intros [[_ ->]|H]; [lra|apply (rounds_to_nonneg x v H)]. Qed.

Lemma rounds_to_pos (x v : R) (d : Z) : rounds_to x v -> 0 < x.
Proof. intros (d' & n & M & _). apply (magnitude_pos _ _ M). Qed.

Lemma rounds_to0_monotone (x y vx vy : R) :
  rounds_to0 x vx -> rounds_to0 y vy -> x <= y -> vx <= vy.
Proof.
  intros [[-> ->]|Hx] Hy Hxy.
  - apply (rounds_to0_nonneg y vy Hy).
  - pose proof (rounds_to_pos x vx 0 Hx).
    destruct Hy as [[-> _]|Hy]; [lra|].
    apply (rounds_to_monotone x y); assumption.
Qed.

Lemma float_mul_nonneg_spec (x y : Py.float) (vx vy : R) :
  carries x false vx -> carries y false vy ->
  vx < bpow 1024 -> vy < bpow 1024 ->
  exists v, rounds_to0 (vx * vy) v /\ carries (Py.float_mul x y) false v.
Proof.
  intros Hx Hy Hvx Hvy. unfold Py.float_mul.
  destruct x as [sx|sx| |sx mx ex]; cbn [carries] in Hx;
    try contradiction; try (destruct Hx as [_ Hx]; unfold Py.emax in Hx; lra);
  destruct y as [sy|sy| |sy my ey]; cbn [carries] in Hy;
    try contradiction; try (destruct Hy as [_ Hy]; unfold Py.emax in Hy; lra).
  - destruct Hx as [-> ->], Hy as [-> ->]. exists 0.
    split; [left; split; lra|]. cbn. auto.
  - destruct Hx as [-> ->], Hy as (-> & _ & <-). exists 0.
    split; [left; split; lra|]. cbn. auto.
  - destruct Hx as (-> & _ & <-), Hy as [-> ->]. exists 0.
    split; [left; split; lra|]. cbn. auto.
  - destruct Hx as (-> & Bx & <-), Hy as (-> & By & <-).
    destruct (SFmul_finite_spec false false mx my ex ey Bx By)
      as (v & Hr & Hc).
    exists v. split; [right; exact Hr|exact Hc].
Qed.

(** *** The scale factor and the scaled sides of the letterbox *)

Lemma carries_value_nonneg (f : Py.float) (s : bool) (v : R) :
  carries f s v -> 0 <= v.
Proof.
  destruct f as [s0|s0| |s0 m e]; cbn [carries]; try contradiction.
  - intros [_ ->]. lra.
  - intros [_ H]. pose proof (bpow_gt_0 Py.emax). lra.
  - intros (_ & _ & <-). apply Rlt_le, F2R_pos.
Qed.

Lemma ratio_bounds (tgt src : Z) :
  (1 <= src <= 2 ^ 53)%Z -> (1 <= tgt <= 2 ^ 53)%Z ->
  bpow (-53) <= IZR tgt / IZR src <= bpow 53.
Proof.
  intros [Hs1 Hs2] [Ht1 Ht2].
  apply IZR_le in Hs1, Hs2, Ht1, Ht2. rewrite <- bpow_IZR in Hs2, Ht2 by lia.
  assert (bpow (-53) * bpow 53 = 1) as E
    by (rewrite <- bpow_add; reflexivity).
  pose proof (bpow_gt_0 53). pose proof (bpow_gt_0 (-53)).
  assert (0 < / IZR src) by (apply Rinv_0_lt_compat; lra).
  assert (IZR src * / IZR src = 1) by (apply Rinv_r; lra).
  unfold Rdiv. split; nra.
Qed.

(** [target / src] on the integer sides: the quotient exists and exceeds
    the exact ratio by at most the relative error [2^-53]. *)
Lemma side_ratio_spec (tgt src : Z) :
  (1 <= src <= 2 ^ 53)%Z -> (1 <= tgt <= 2 ^ 53)%Z ->
  exists f v,
    Py.int_truediv tgt src = Py.Ok f /\ carries f false v /\
    v < bpow 1024 /\
    v <= IZR tgt / IZR src * (1 + bpow (-53)).
Proof.
  intros Hs Ht.
  destruct (int_truediv_spec tgt src) as (v & Hr & Hc); [lia| |].
  { split; [lia|]. apply Z.le_lt_trans with (2 ^ 53)%Z; [lia|].
    apply Z.pow_lt_mono_r; lia. }
  pose proof (ratio_bounds tgt src Hs Ht) as [Hlo Hhi].
  assert (v <= IZR tgt / IZR src * (1 + bpow (-53))) as Hup.
  { apply rounds_to_upper; [exact Hr|].
    apply Rle_trans with (2 := Hlo). apply bpow_le. lia. }
  assert (v < bpow 1024) as Hfin.
  { apply Rle_lt_trans with (1 := Hup).
    apply Rle_lt_trans with (bpow 53 * bpow 1).
    - assert (bpow (-53) <= 1).
      { change 1 with (bpow 0). apply bpow_le. lia. }
      change (bpow 1) with (2 * 1).
      pose proof (bpow_gt_0 53). pose proof (bpow_gt_0 (-53)).
      generalize dependent (IZR tgt / IZR src). intros r; intros. nra.
    - rewrite <- bpow_add. apply bpow_lt. lia. }
  destruct (Py.int_truediv tgt src) as [f|e]; cbn [returns_rounded] in Hc.
  - exists f, v. destruct Hc as [Hc _]. auto.
  - destruct Hc as [_ Hc]. unfold Py.emax in Hc. lra.
Qed.

(** [floor(src * scale)] stays within the target side as soon as the
    scale is at most the rounded ratio. *)
Lemma scaled_side_spec (src tgt : Z) (scale : Py.float) (vs : R) :
  (1 <= src <= 2 ^ 53)%Z -> (1 <= tgt <= 2 ^ 51)%Z ->
  carries scale false vs ->
  vs <= IZR tgt / IZR src * (1 + bpow (-53)) ->
  exists fs n,
    Py.float_of_int src = Py.Ok fs /\
    Py.floor (Py.float_mul fs scale) = Py.Ok n /\
    (0 <= n <= tgt)%Z.
Proof.
  intros Hs Ht Hc Hvs.
  destruct (float_of_int_exact src) as (fs & Hfs & Hcs); [lia|].
  exists fs. rewrite Hfs.
  pose proof (carries_value_nonneg _ _ _ Hc) as Hvs0.
  assert (1 <= IZR src) as Hs1 by (apply IZR_le; lia).
  assert (1 <= IZR tgt) as Ht1 by (apply IZR_le; lia).
  assert (IZR tgt <= bpow 51) as Ht51
    by (rewrite bpow_IZR by lia; apply IZR_le; lia).
  assert (IZR src <= bpow 53) as Hs53
    by (rewrite bpow_IZR by lia; apply IZR_le; lia).
  assert (IZR src * vs <= IZR tgt + / 4) as Hprod.
  { apply Rle_trans with (IZR src * (IZR tgt / IZR src * (1 + bpow (-53)))).
    - apply Rmult_le_compat_l; lra.
    - replace (IZR src * (IZR tgt / IZR src * (1 + bpow (-53))))
        with (IZR tgt + IZR tgt * bpow (-53)) by (field; lra).
      assert (IZR tgt * bpow (-53) <= bpow 51 * bpow (-53)).
      { apply Rmult_le_compat_r; [apply Rlt_le, bpow_gt_0|exact Ht51]. }
      rewrite <- bpow_add in H.
      change (bpow (51 + -53)) with (/ (2 * (2 * 1))) in H. lra. }
  assert (vs < bpow 1024) as Hvfin.
  { assert (vs <= IZR src * vs) by nra.
    apply Rle_lt_trans with (bpow 51 + 1); [lra|].
    apply Rlt_le_trans with (bpow 52).
    - change 52%Z with (51 + 1)%Z. rewrite bpow_succ.
      assert (1 < bpow 51).
      { change 1 with (bpow 0). apply bpow_lt. lia. }
      lra.
    - apply bpow_le. lia. }
  assert (IZR src < bpow 1024) as Hsfin.
  { apply Rle_lt_trans with (1 := Hs53). apply bpow_lt. lia. }
  destruct (float_mul_nonneg_spec fs scale (IZR src) vs Hcs Hc Hsfin Hvfin)
    as (v & Hr & Hcv).
  (* [tgt + 1/2] is a float, so the product rounds to at most it *)
  assert (rounds_to (F2R (2 * tgt + 1) (-1)) (F2R (2 * tgt + 1) (-1))) as Hhalf.
  { destruct (2 * tgt + 1)%Z as [|p|p] eqn:Ep; try lia.
    apply rounds_to_exact with (d := (Zpos (digits2_pos p) + -1)%Z).
    - apply F2R_magnitude.
    - rewrite fexp64_eq. pose proof (digits2_pos_le p 53).
      assert (Zpos p < 2 ^ 53)%Z.
      { rewrite <- Ep. change (2 ^ 53)%Z with (2 * 2 ^ 51 + 2 * 2 ^ 51)%Z. lia. }
      lia. }
  assert (F2R (2 * tgt + 1) (-1) = IZR tgt + / 2) as Ehalf.
  { unfold F2R. rewrite plus_IZR, mult_IZR. change (bpow (-1)) with (/ (2 * 1)).
    field. }
  rewrite Ehalf in Hhalf.
  assert (v <= IZR tgt + / 2) as Hv.
  { apply (rounds_to0_monotone (IZR src * vs) (IZR tgt + / 2));
      [exact Hr|right; exact Hhalf|lra]. }
  assert (v < bpow 1024) as Hfin.
  { apply Rle_lt_trans with (bpow 51 + 1); [lra|].
    apply Rlt_le_trans with (bpow 52).
    - change 52%Z with (51 + 1)%Z. rewrite bpow_succ.
      assert (1 < bpow 51).
      { change 1 with (bpow 0). apply bpow_lt. lia. }
      lra.
    - apply bpow_le. lia. }
  destruct (floor_spec _ v Hcv Hfin) as (n & Hn & Hlo & Hhi).
  exists n. split; [reflexivity|]. split; [exact Hn|].
  pose proof (rounds_to0_nonneg _ _ Hr) as Hv0.
  split.
  - apply Z.lt_succ_r, lt_IZR. rewrite succ_IZR. change (IZR 0) with 0. lra.
  - apply IZR_lt_half. lra.
Qed.

(** *** Scaling a non-negative float by an integer and rounding *)

Lemma round_ok_finite (f : Py.float) (n : Z) :
  Py.round f = Py.Ok n -> is_finite f = true.
Proof. destruct f; cbn; intros H; try discriminate; reflexivity. Qed.

Lemma rounds_to_ge_1 (n : Z) (v : R) :
  (1 <= n)%Z -> rounds_to (IZR n) v -> 1 <= v.
Proof.
  intros Hn Hv.
  assert (rounds_to 1 1) as H1.
  { assert (F2R 1 0 = 1) as E.
    { unfold F2R. change (bpow 0) with 1. lra. }
    rewrite <- E. apply rounds_to_exact with (d := 1%Z).
    - unfold magnitude. rewrite E.
      change (bpow (1 - 1)) with 1. change (bpow 1) with (2 * 1). lra.
    - rewrite fexp64_eq. lia. }
  apply (rounds_to_monotone 1 (IZR n)); [exact H1|exact Hv|].
  apply IZR_le. exact Hn.
Qed.

(** With the factor [x] fixed, [round(x * n)] is defined for every
    positive integer below one for which it is defined, and does not
    decrease with [n]. *)
Lemma scaled_round_monotone (x : Py.float) (vx : R) (n1 n2 r2 : Z) :
  carries x false vx -> vx < bpow 1024 ->
  (0 < n1 <= n2)%Z ->
  (Py.float_of_int n2 ≫= fun d => Py.round (Py.float_mul x d)) = Py.Ok r2 ->
  exists r1,
    (Py.float_of_int n1 ≫= fun d => Py.round (Py.float_mul x d)) = Py.Ok r1
    /\ (r1 <= r2)%Z.
Proof.
  intros Hx Hvx Hn H2.
  destruct (float_of_int_spec n1) as (v1 & Hr1 & Hc1); [lia|].
  destruct (float_of_int_spec n2) as (v2 & Hr2 & Hc2); [lia|].
  assert (v1 <= v2) as Hv12.
  { apply (rounds_to_monotone (IZR n1) (IZR n2)); [assumption..|].
    apply IZR_le. lia. }
  destruct (Py.float_of_int n2) as [d2|e2]; [|discriminate].
  cbn [mbind result_bind Py.bind] in H2.
  cbn [returns_rounded] in Hc2. destruct Hc2 as [Hc2 Hf2].
  destruct (Py.float_of_int n1) as [d1|e1]; cbn [returns_rounded] in Hc1.
  2:{ destruct Hc1 as [_ Hc1]. lra. }
  destruct Hc1 as [Hc1 Hf1]. cbn [mbind result_bind Py.bind].
  unfold Py.emax in Hf1, Hf2.
  destruct (float_mul_nonneg_spec x d1 vx v1 Hx Hc1 Hvx Hf1) as (p1 & Hp1 & Hcp1).
  destruct (float_mul_nonneg_spec x d2 vx v2 Hx Hc2 Hvx Hf2) as (p2 & Hp2 & Hcp2).
  pose proof (carries_value_nonneg _ _ _ Hx) as Hx0.
  assert (p1 <= p2) as Hp12.
  { apply (rounds_to0_monotone (vx * v1) (vx * v2)); [assumption..|]. nra. }
  assert (p2 < bpow 1024) as Hfp2.
  { apply (carries_lt_emax _ _ _ Hcp2). apply (round_ok_finite _ _ H2). }
  assert (p1 < bpow 1024) as Hfp1 by lra.
  destruct (round_spec _ p1 Hcp1 Hfp1) as (r1 & Hr1' & Hn1).
  destruct (round_spec _ p2 Hcp2 Hfp2) as (r2' & Hr2' & Hn2).
  rewrite H2 in Hr2'. injection Hr2' as <-.
  exists r1. split; [exact Hr1'|].
  apply (nearest_even_monotone p1 p2); assumption.
Qed.

(** *** Sign symmetry *)

Lemma binary_round_aux_opp (s : bool) (m e : Z) (l : location) :
  binary_round_aux Py.prec Py.emax (negb s) m e l
  = SFopp (binary_round_aux Py.prec Py.emax s m e l).
Proof.
  unfold binary_round_aux.
  destruct (shr_fexp Py.prec Py.emax m e l) as [mrs' e'].
  destruct (shr_fexp Py.prec Py.emax _ e' loc_Exact) as [mrs'' e''].
  destruct (shr_m mrs'') as [|p|p]; [reflexivity| |reflexivity].
  destruct (e'' <=? Py.emax - Py.prec)%Z; reflexivity.
Qed.

Lemma float_of_int_opp (n : Z) :
  (0 < n)%Z ->
  Py.float_of_int (- n) = (Py.float_of_int n ≫= fun f => Py.Ok (SFopp f)).
Proof.
  intros Hn. destruct n as [|p|p]; try lia.
  unfold Py.float_of_int.
  change (binary_normalize Py.prec Py.emax (- Zpos p) 0 false)
    with (binary_round Py.prec Py.emax true p 0).
  change (binary_normalize Py.prec Py.emax (Zpos p) 0 false)
    with (binary_round Py.prec Py.emax false p 0).
  unfold binary_round.
  destruct (shl_align p 0 _) as [mz ez].
  change true with (negb false). rewrite binary_round_aux_opp.
  destruct (binary_round_aux Py.prec Py.emax false (Zpos mz) ez loc_Exact);
    reflexivity.
Qed.

Lemma float_mul_opp_r (x y : Py.float) :
  Py.float_mul x (SFopp y) = SFopp (Py.float_mul x y).
Proof.
  unfold Py.float_mul.
  destruct x as [sx|sx| |sx mx ex], y as [sy|sy| |sy my ey];
    cbn [SFopp SFmul]; try reflexivity;
    try (destruct sx, sy; reflexivity).
  rewrite <- binary_round_aux_opp. destruct sx, sy; reflexivity.
Qed.

Lemma round_opp (f : Py.float) :
  Py.round (SFopp f) = (Py.round f ≫= fun n => Py.Ok (- n)%Z).
Proof.
  destruct f as [s|s| |s m e]; cbn [SFopp Py.round mbind result_bind Py.bind];
    try reflexivity.
  destruct s; cbn [negb cond_Zopp]; f_equal; lia.
Qed.

(** *** [cm_to_px] *)

Lemma carries_positive (f : Py.float) (v : R) :
  carries f false v -> 0 < v -> v < bpow 1024 ->
  exists m e, f = S754_finite false m e /\
              SpecFloat.bounded Py.prec Py.emax m e = true.
Proof.
  destruct f as [s0|s0| |s0 m e]; cbn [carries]; try contradiction.
  - intros [_ ->] H _. lra.
  - intros [_ H] _ H'. unfold Py.emax in H. lra.
  - intros (-> & Hb & _) _ _. eauto.
Qed.

Lemma float_of_int_positive (n : Z) (f : Py.float) :
  (0 < n)%Z -> Py.float_of_int n = Py.Ok f ->
  exists m e, f = S754_finite false m e /\
              SpecFloat.bounded Py.prec Py.emax m e = true.
Proof.
  intros Hn Hf. destruct (float_of_int_spec n Hn) as (v & Hr & Hc).
  rewrite Hf in Hc. destruct Hc as [Hc Hfin].
  apply (carries_positive f v Hc); [|exact Hfin].
  pose proof (rounds_to_ge_1 n v ltac:(lia) Hr). lra.
Qed.

(** In [cm_to_px] the factor [cm / 2.54] of a positive length is zero, a
    positive finite float or [+inf]. *)
Lemma inches_carries (cm : Py.num) (c : Py.float) :
  positive_length cm -> Py.to_float cm = Py.Ok c ->
  exists inches v,
    Py.float_truediv c Py.lit_2_54 = Py.Ok inches /\ carries inches false v.
Proof.
  intros Hcm Hc.
  assert (exists m e, c = S754_finite false m e) as (m & e & ->).
  { destruct cm as [n|x]; cbn [positive_length Py.to_float] in *.
    - destruct (float_of_int_positive n c Hcm Hc) as (m & e & -> & _). eauto.
    - destruct Hcm as (m & e & -> & _). injection Hc as <-. eauto. }
  unfold Py.float_truediv, Py.lit_2_54.
  destruct (SFdiv_finite_carries false false m 5719571526760530 e (-51))
    as (v & Hv).
  eauto.
Qed.

Lemma round_mul_infinity (d : Py.float) (m : positive) (e : Z) (r : Z) :
  d = S754_finite false m e ->
  Py.round (Py.float_mul (S754_infinity false) d) <> Py.Ok r.
Proof. intros ->. cbn. discriminate. Qed.

Lemma nearest_even_opp (x : R) (n : Z) :
  nearest_even x n -> nearest_even (- x) (- n).
Proof.
  intros [[L U] E]. unfold nearest_even. rewrite opp_IZR, Z.even_opp.
  split; [lra|]. intros [H|H]; apply E; [right|left]; lra.
Qed.

(** Whatever [round] returns is the integer nearest to the value of its
    argument, the even one on a tie. *)
Lemma round_nearest (f : Py.float) (n : Z) :
  Py.round f = Py.Ok n -> nearest_even (SF2R f) n.
Proof.
  destruct f as [s|s| |s m e]; cbn [Py.round SF2R]; intros H;
    try discriminate; injection H as <-.
  - apply (nearest_even_IZR 0).
  - assert (nearest_even (F2R (Zpos m) e)
              match e with
              | Zneg k => Py.round_half_even (Zpos m) k
              | _ => (Zpos m * 2 ^ e)%Z
              end) as Hpos.
    { unfold F2R. destruct e as [|k|k].
      - change (bpow 0) with 1. rewrite Rmult_1_r.
        change (2 ^ 0)%Z with 1%Z. rewrite Z.mul_1_r. apply nearest_even_IZR.
      - rewrite bpow_IZR, <- mult_IZR by lia. apply nearest_even_IZR.
      - change (Zneg k) with (- Zpos k)%Z. rewrite bpow_opp.
        apply round_half_even_nearest. lia. }
    destruct s; cbn [cond_Zopp]; [|exact Hpos].
    replace (F2R (- Zpos m) e) with (- F2R (Zpos m) e).
    + apply nearest_even_opp, Hpos.
    + unfold F2R. rewrite opp_IZR. ring.
Qed.

End Binary64.

(** * The letterbox geometry *)

Lemma max_1_spec (n t : Z) : 0 <= n <= t -> 1 <= t -> 1 <= Py.max 1 n <= t.
Proof. unfold Py.max. destruct (Z.ltb_spec 1 n); lia. Qed.

(** The scale and both scaled sides exist for valid sides, and the scaled
    sides stay within the target. *)
Lemma letterbox_sides (src_w src_h target_w target_h : Z) :
  valid_side src_w -> valid_side src_h ->
  valid_side target_w -> valid_side target_h ->
  exists rw rh fw fh iw ih,
    Py.int_truediv target_w src_w = Py.Ok rw /\
    Py.int_truediv target_h src_h = Py.Ok rh /\
    Py.float_of_int src_w = Py.Ok fw /\
    Py.floor (Py.float_mul fw (Py.min rw rh)) = Py.Ok iw /\
    Py.float_of_int src_h = Py.Ok fh /\
    Py.floor (Py.float_mul fh (Py.min rw rh)) = Py.Ok ih /\
    0 <= iw <= target_w /\ 0 <= ih <= target_h.
Proof.
  unfold valid_side. intros Hsw Hsh Htw Hth.
  assert (2 ^ 31 < 2 ^ 51) by (apply Z.pow_lt_mono_r; lia).
  assert (2 ^ 51 < 2 ^ 53) by (apply Z.pow_lt_mono_r; lia).
  destruct (side_ratio_spec target_w src_w) as (rw & vw & Hrw & Hcw & Hfw & Hbw);
    [lia|lia|].
  destruct (side_ratio_spec target_h src_h) as (rh & vh & Hrh & Hch & Hfh & Hbh);
    [lia|lia|].
  destruct (min_spec rw rh vw vh Hcw Hch Hfw Hfh)
    as (vs & Hcs & Hsw' & Hsh' & _).
  destruct (scaled_side_spec src_w target_w (Py.min rw rh) vs)
    as (fw & iw & Hfw' & Hiw & Hiw');
    [lia|lia|exact Hcs|lra|].
  destruct (scaled_side_spec src_h target_h (Py.min rw rh) vs)
    as (fh & ih & Hfh' & Hih & Hih');
    [lia|lia|exact Hcs|lra|].
  exists rw, rh, fw, fh, iw, ih. auto 10.
Qed.

(** What [fit_with_letterbox] returns on valid sides; shared by the
    statements on the compositor and on the batch driver. *)
Lemma fit_with_letterbox_returns (img : PIL.image) (target_w target_h : Z)
    (bg : PIL.color) :
  let src := PIL.exif_transpose img in
  valid_side (fst (PIL.size src)) -> valid_side (snd (PIL.size src)) ->
  valid_side target_w -> valid_side target_h ->
  exists scale new_w new_h canvas,
    letterbox_scale (fst (PIL.size src)) (snd (PIL.size src))
                    target_w target_h = Py.Ok scale /\
    scaled_side (fst (PIL.size src)) scale = Py.Ok new_w /\
    scaled_side (snd (PIL.size src)) scale = Py.Ok new_h /\
    photo_formatter.fit_with_letterbox img target_w target_h bg
      = Py.Ok canvas /\
    PIL.size canvas = (target_w, target_h) /\
    PIL.img_mode canvas = PIL.RGB /\
    PIL.transparency canvas = false /\
    PIL.content canvas
      = letterboxed bg src new_w new_h
          ((target_w - new_w) / 2) ((target_h - new_h) / 2) /\
    box_inside ((target_w - new_w) / 2) ((target_h - new_h) / 2)
               new_w new_h target_w target_h.
Proof.
  intros src Hsw Hsh Htw Hth.
  destruct (letterbox_sides _ _ _ _ Hsw Hsh Htw Hth)
    as (rw & rh & fw & fh & iw & ih & Hrw & Hrh & Hfw & Hiw & Hfh & Hih
        & Hbw & Hbh).
  pose proof (max_1_spec iw target_w Hbw ltac:(unfold valid_side in Htw; lia))
    as Hnw.
  pose proof (max_1_spec ih target_h Hbh ltac:(unfold valid_side in Hth; lia))
    as Hnh.
  exists (Py.min rw rh), (Py.max 1 iw), (Py.max 1 ih).
  unfold photo_formatter.fit_with_letterbox, letterbox_scale, scaled_side.
  fold src. fold (has_alpha src).
  set (conv := if has_alpha src then PIL.convert src PIL.RGBA
               else PIL.convert src PIL.RGB).
  assert (PIL.size conv = PIL.size src) as Hsize
    by (unfold conv; destruct (has_alpha src); reflexivity).
  destruct (PIL.size src) as [src_w src_h] eqn:Esrc.
  rewrite Hsize. cbn [fst snd] in *.
  rewrite Hrw, Hrh, Hfw, Hfh. cbn [mbind result_bind Py.bind].
  rewrite Hiw, Hih. cbn [mbind result_bind Py.bind].
  unfold PIL.resize, PIL.new. cbn [fst snd].
  replace (0 <? Py.max 1 iw) with true by (symmetry; apply Z.ltb_lt; lia).
  replace (0 <? Py.max 1 ih) with true by (symmetry; apply Z.ltb_lt; lia).
  replace (0 <=? target_w) with true
    by (symmetry; apply Z.leb_le; unfold valid_side in Htw; lia).
  replace (0 <=? target_h) with true
    by (symmetry; apply Z.leb_le; unfold valid_side in Hth; lia).
  cbn [andb mbind result_bind Py.bind PIL.img_mode].
  assert (box_inside ((target_w - Py.max 1 iw) / 2)
            ((target_h - Py.max 1 ih) / 2) (Py.max 1 iw) (Py.max 1 ih)
            target_w target_h) as Hbox.
  { unfold box_inside.
    pose proof (Z.div_pos (target_w - Py.max 1 iw) 2).
    pose proof (Z.div_pos (target_h - Py.max 1 ih) 2).
    pose proof (Z.mul_div_le (target_w - Py.max 1 iw) 2).
    pose proof (Z.mul_div_le (target_h - Py.max 1 ih) 2).
    lia. }
  unfold letterboxed, conv.
  destruct (has_alpha src); eexists;
    repeat (split; [reflexivity|]); exact Hbox.
Qed.

(** * Pixel lengths *)

(** [cm_to_px] on a positive length: where it returns at a DPI, it returns
    at every smaller positive DPI, with a result no larger. Shared by the
    statements on monotonicity and on totality. *)
Lemma cm_to_px_monotone (cm : Py.num) (dpi1 dpi2 px2 : Z) :
  positive_length cm -> 0 < dpi1 <= dpi2 ->
  photo_formatter.cm_to_px cm dpi2 = Py.Ok px2 ->
  exists px1, photo_formatter.cm_to_px cm dpi1 = Py.Ok px1 /\ px1 <= px2.
Proof.
  intros Hcm Hdpi H2. unfold photo_formatter.cm_to_px in *.
  destruct (Py.to_float cm) as [c|e] eqn:Hc; [|discriminate].
  destruct (inches_carries cm c Hcm Hc) as (inches & v & Hi & Hv).
  cbn [mbind result_bind Py.bind] in *. rewrite Hi in *.
  cbn [mbind result_bind Py.bind] in *.
  destruct inches as [s0|s0| |s0 m e].
  - apply (scaled_round_monotone _ v dpi1 dpi2 px2 Hv); [|lia|exact H2].
    apply (carries_lt_emax _ _ _ Hv). reflexivity.
  - exfalso. destruct Hv as [-> _].
    destruct (Py.float_of_int dpi2) as [d|e] eqn:Hd; [|discriminate].
    destruct (float_of_int_positive dpi2 d ltac:(lia) Hd) as (m & e & E & _).
    apply (round_mul_infinity d m e px2 E). exact H2.
  - contradiction.
  - apply (scaled_round_monotone _ v dpi1 dpi2 px2 Hv); [|lia|exact H2].
    apply (carries_lt_emax _ _ _ Hv). reflexivity.
Qed.

Lemma cm_to_px_opp (cm : Py.num) (dpi : Z) :
  0 < dpi ->
  photo_formatter.cm_to_px cm (- dpi)
  = (photo_formatter.cm_to_px cm dpi ≫= fun px => Py.Ok (- px)).
Proof.
  intros Hdpi. unfold photo_formatter.cm_to_px.
  destruct (Py.to_float cm) as [c|e]; [|reflexivity].
  cbn [mbind result_bind Py.bind].
  destruct (Py.float_truediv c Py.lit_2_54) as [inches|e]; [|reflexivity].
  cbn [mbind result_bind Py.bind].
  rewrite float_of_int_opp by exact Hdpi.
  destruct (Py.float_of_int dpi) as [d|e]; [|reflexivity].
  cbn [mbind result_bind Py.bind].
  rewrite float_mul_opp_r, round_opp. reflexivity.
Qed.

Lemma canvas_length_positive (cm : Py.num) :
  cm = Py.Int 10 \/ cm = Py.Int 15 -> positive_length cm.
Proof. intros [-> | ->]; cbn; lia. Qed.

(** The two lengths of the program at a positive DPI up to [2^1000]. *)
Lemma cm_to_px_returns_positive (cm : Py.num) (dpi : Z) :
  cm = Py.Int 10 \/ cm = Py.Int 15 -> 0 < dpi <= 2 ^ 1000 ->
  exists px, photo_formatter.cm_to_px cm dpi = Py.Ok px /\ 3 <= px.
Proof.
  intros Hcm Hdpi.
  assert (exists top, photo_formatter.cm_to_px cm (2 ^ 1000) = Py.Ok top)
    as [top Htop].
  { destruct Hcm as [-> | ->]; vm_compute; eexists; reflexivity. }
  destruct (cm_to_px_monotone cm dpi (2 ^ 1000) top
              (canvas_length_positive cm Hcm) ltac:(lia) Htop)
    as (px & Hpx & _).
  exists px. split; [exact Hpx|].
  destruct (cm_to_px_monotone cm 1 dpi px
              (canvas_length_positive cm Hcm) ltac:(lia) Hpx)
    as (px1 & Hpx1 & Hle).
  assert (3 <= px1); [|lia].
  destruct Hcm as [-> | ->]; vm_compute in Hpx1; injection Hpx1 as <-; lia.
Qed.

(** Between the DPI bounds of [start] both sides of either canvas are
    valid sides. *)
Lemma cm_to_px_accepted (cm : Py.num) (dpi : Z) :
  cm = Py.Int 10 \/ cm = Py.Int 15 -> 72 <= dpi <= 1200 ->
  exists px, photo_formatter.cm_to_px cm dpi = Py.Ok px /\ valid_side px.
Proof.
  intros Hcm Hdpi.
  assert (exists top, photo_formatter.cm_to_px cm 1200 = Py.Ok top
                      /\ top <= 7087) as (top & Htop & Hle).
  { destruct Hcm as [-> | ->]; vm_compute; eexists; split;
      try reflexivity; discriminate. }
  destruct (cm_to_px_monotone cm dpi 1200 top
              (canvas_length_positive cm Hcm) ltac:(lia) Htop)
    as (px & Hpx & Hle').
  exists px. split; [exact Hpx|].
  destruct (cm_to_px_returns_positive cm dpi Hcm) as (px' & Hpx' & Hge).
  { split; [lia|]. apply Z.le_trans with (2 ^ 11); [lia|].
    apply Z.pow_le_mono_r; lia. }
  rewrite Hpx in Hpx'. injection Hpx' as <-.
  unfold valid_side. split; [lia|].
  apply Z.le_lt_trans with (2 ^ 13); [lia|]. apply Z.pow_lt_mono_r; lia.
Qed.

(** * The output namer *)

Lemma string_app_length (s t : string) :
  String.length (s +:+ t) = (String.length s + String.length t)%nat.
Proof.
  induction s as [|c s IH]; [reflexivity|].
  simpl. rewrite IH. reflexivity.
Qed.

Lemma string_app_inj_r (s1 s2 t : string) : s1 +:+ t = s2 +:+ t -> s1 = s2.
Proof.
  revert s2. induction s1 as [|c1 s1 IH]; intros [|c2 s2] H; simpl in H.
  - reflexivity.
  - apply (f_equal String.length) in H. simpl in H.
    rewrite !string_app_length in H. simpl in H. lia.
  - apply (f_equal String.length) in H. simpl in H.
    rewrite !string_app_length in H. simpl in H. lia.
  - injection H as -> H. f_equal. apply IH, H.
Qed.

Lemma numbered_inj (base : string) (i j : nat) :
  App.numbered base i = App.numbered base j -> i = j.
Proof.
  unfold App.numbered. intros H.
  apply String.app_inj, String.app_inj, string_app_inj_r in H.
  apply (inj pretty), H.
Qed.

Lemma numbered_not_first (base : string) (k : nat) :
  App.numbered base k <> base +:+ "_10x15.jpg".
Proof.
  unfold App.numbered. intros H.
  apply String.app_inj in H. discriminate H.
Qed.

Lemma candidate_inj (base : string) : Inj (=) (=) (candidate base).
Proof.
  intros [|i] [|j] H; cbn [candidate] in H.
  - reflexivity.
  - symmetry in H. apply numbered_not_first in H. contradiction.
  - apply numbered_not_first in H. contradiction.
  - apply numbered_inj in H. exact H.
Qed.

(** The loop stops at the first free candidate within its fuel. *)
Lemma probe_first_free (d : gmap string App.stored) (base : string)
    (fuel k j : nat) :
  (k <= j < k + fuel)%nat ->
  d !! candidate base j = None ->
  (forall i, (k <= i < j)%nat -> is_Some (d !! candidate base i)) ->
  App.probe fuel d base (candidate base k) (S k) = candidate base j.
Proof.
  revert k. induction fuel as [|fuel IH]; intros k Hk Hfree Hused; [lia|].
  cbn [App.probe].
  destruct (decide (k = j)) as [->|Hne].
  - rewrite bool_decide_eq_false_2; [reflexivity|].
    rewrite Hfree. apply is_Some_None.
  - rewrite bool_decide_eq_true_2 by (apply Hused; lia).
    change (App.numbered base (S k)) with (candidate base (S k)).
    apply IH; [lia|exact Hfree|]. intros i Hi. apply Hused. lia.
Qed.

(** A directory cannot hold more candidates than it has files. *)
Lemma free_candidate_exists (d : gmap string App.stored) (base : string) :
  exists j, (j <= size d)%nat /\ d !! candidate base j = None /\
            forall i, (i < j)%nat -> is_Some (d !! candidate base i).
Proof.
  assert (forall n, (forall i, (i < n)%nat -> is_Some (d !! candidate base i))
                    -> (n <= size d)%nat) as Hpigeon.
  { intros n Hn.
    assert (list_to_set (candidate base <$> seq 0 n) ⊆ dom d) as Hsub.
    { intros x Hx. apply elem_of_list_to_set, list_elem_of_fmap in Hx.
      destruct Hx as (i & -> & Hi). apply elem_of_seq in Hi.
      apply elem_of_dom, Hn. lia. }
    apply subseteq_size in Hsub. rewrite size_dom in Hsub.
    rewrite size_list_to_set in Hsub.
    - rewrite length_fmap, length_seq in Hsub. exact Hsub.
    - apply NoDup_fmap; [apply candidate_inj|apply NoDup_seq]. }
  assert (forall n, (forall i, (i < n)%nat -> is_Some (d !! candidate base i))
            -> (n <= size d)%nat ->
            forall fuel, (size d < n + fuel)%nat ->
            exists j, (j <= size d)%nat /\ d !! candidate base j = None /\
                      forall i, (i < j)%nat -> is_Some (d !! candidate base i))
    as Hsearch.
  { intros n Hn Hle fuel. revert n Hn Hle.
    induction fuel as [|fuel IH]; intros n Hn Hle Hf; [lia|].
    destruct (d !! candidate base n) eqn:E.
    - assert (forall i, (i < S n)%nat -> is_Some (d !! candidate base i)) as Hn'.
      { intros i Hi. destruct (decide (i = n)) as [->|]; [eauto|].
        apply Hn. lia. }
      apply (IH (S n) Hn' (Hpigeon _ Hn')). lia.
    - exists n. auto. }
  apply (Hsearch 0%nat ltac:(lia) ltac:(lia) (S (size d))). lia.
Qed.

(** What the namer returns: the first free candidate. Shared by the
    statements on the namer and on the batch driver. *)
Lemma unique_dest_spec (d : gmap string App.stored) (base : string) :
  exists j,
    App.unique_dest d base = candidate base j /\
    d !! candidate base j = None /\
    forall i, (i < j)%nat -> is_Some (d !! candidate base i).
Proof.
  destruct (free_candidate_exists d base) as (j & Hj & Hfree & Hused).
  exists j. split; [|auto].
  unfold App.unique_dest.
  change (base +:+ "_10x15.jpg") with (candidate base 0).
  apply probe_first_free; [lia|exact Hfree|]. intros i Hi. apply Hused. lia.
Qed.

(** * The batch driver *)

Section Loop.

Variable w : App.world.
Variable dpi : Z.
Variable total : nat.

(** The [for] loop under a flag first seen set at its [k]-th read: the
    first [k] files are processed, in order, and no other. *)
Lemma loop_spec (files : list App.path) :
  forall (k idx : nat) (self : App.app) (st : App.stats),
    (k <= length files)%nat ->
    (forall i, (i < k)%nat -> App.stop_flag w (App.reads self + i) = false) ->
    ((k < length files)%nat -> App.stop_flag w (App.reads self + k) = true) ->
    let r := App.loop w dpi total files idx self st in
    let o := outcomes w dpi (App.out_dir self) (take k files) in
    App.log (fst r) = App.log self ++ fst o /\
    App.out_dir (fst r) = snd o /\
    App.ok (snd r) = (App.ok st + count is_OK (fst o))%nat /\
    App.skip (snd r) = (App.skip st + count is_SKIP (fst o))%nat /\
    App.err (snd r) = (App.err st + count is_ERR (fst o))%nat /\
    App.reads (fst r)
      = (App.reads self + if (k <? length files)%nat then S k else k)%nat /\
    App.progress_maximum (fst r) = App.progress_maximum self /\
    App.progress_value (fst r)
      = match k with O => App.progress_value self | S k' => (idx + k')%nat end.
Proof.
  induction files as [|f rest IH]; intros k idx self st Hk Hrun Hstop.
  { cbn in Hk. assert (k = 0)%nat as -> by lia. cbn.
    rewrite app_nil_r, !Nat.add_0_r. auto 10. }
  destruct k as [|k].
  { (* the flag is set at the first read *)
    cbn [App.loop App.read_stop_flag take outcomes fst snd].
    rewrite Nat.add_0_r in Hstop. rewrite Hstop by (cbn; lia).
    cbn. rewrite app_nil_r, !Nat.add_0_r. repeat split; lia. }
  assert (App.stop_flag w (App.reads self) = false) as Hgo.
  { rewrite <- (Nat.add_0_r (App.reads self)). apply Hrun. lia. }
  cbn [App.loop App.read_stop_flag take outcomes]. rewrite Hgo.
  unfold outcome.
  set (self1 := {| App.reads := S (App.reads self); App.log := App.log self;
                   App.progress_maximum := App.progress_maximum self;
                   App.progress_value := App.progress_value self;
                   App.status_var := App.status_var self;
                   App.out_dir := App.out_dir self |}).
  assert (forall self2 st2,
            App.reads self2 = S (App.reads self) ->
            let r := App.loop w dpi total rest (S idx) self2 st2 in
            let o := outcomes w dpi (App.out_dir self2) (take k rest) in
            App.log (fst r) = App.log self2 ++ fst o /\
            App.out_dir (fst r) = snd o /\
            App.ok (snd r) = (App.ok st2 + count is_OK (fst o))%nat /\
            App.skip (snd r) = (App.skip st2 + count is_SKIP (fst o))%nat /\
            App.err (snd r) = (App.err st2 + count is_ERR (fst o))%nat /\
            App.reads (fst r)
              = (App.reads self2 + if (k <? length rest)%nat then S k else k)%nat /\
            App.progress_maximum (fst r) = App.progress_maximum self2 /\
            App.progress_value (fst r)
              = match k with
                | O => App.progress_value self2
                | S k' => (S idx + k')%nat
                end) as Hrest.
  { intros self2 st2 Hreads. apply IH.
    - cbn in Hk. lia.
    - intros i Hi. rewrite Hreads.
      replace (S (App.reads self) + i)%nat with (App.reads self + S i)%nat
        by lia.
      apply Hrun. lia.
    - intros Hlt. rewrite Hreads.
      replace (S (App.reads self) + k)%nat with (App.reads self + S k)%nat
        by lia.
      apply Hstop. cbn. lia. }
  assert ((S k <? length (f :: rest))%nat = (k <? length rest)%nat) as Hltb
    by reflexivity.
  rewrite Hltb.
  destruct (App.is_heic f && negb (App.heif_ok w)) eqn:Hskip.
  - (* skipped *)
    cbn [App.out_dir self1].
    specialize (Hrest (App.set_progress (App.log_msg self1
                                           (App.SKIP (App.name f))) idx)
                  {| App.ok := App.ok st; App.skip := S (App.skip st);
                     App.err := App.err st |} eq_refl).
    cbn [App.set_progress App.log_msg App.out_dir App.log App.reads
         App.progress_value App.progress_maximum App.ok App.skip App.err
         self1] in Hrest.
    destruct Hrest as (H1 & H2 & H3 & H4 & H5 & H6 & H7 & H8).
    destruct (outcomes w dpi (App.out_dir self) (take k rest)) as [ls d2].
    cbn [fst snd] in *.
    rewrite H1, H2, H3, H4, H5, H6, H7, H8, <- app_assoc.
    unfold count. cbn [List.filter is_OK is_SKIP is_ERR length app].
    repeat split; try lia;
      [destruct (k <? length rest)%nat; lia|destruct k; lia].
  - (* converted, or failed *)
    cbn [App.out_dir self1].
    destruct (App.convert w dpi (App.out_dir self) f) as [d [dest|e]];
      cbv beta iota zeta; cbn [App.err].
    + specialize (Hrest
        (App.set_status
           (App.set_progress
              (App.log_msg (App.set_out_dir self1 d) (App.OK (App.name f)))
              idx)
           (App.Processing idx total (App.err st)))
        {| App.ok := S (App.ok st); App.skip := App.skip st;
           App.err := App.err st |} eq_refl).
      cbn [App.set_status App.set_progress App.log_msg App.set_out_dir
           App.out_dir App.log App.reads
           App.progress_value App.progress_maximum App.ok App.skip App.err
           self1] in Hrest.
      destruct Hrest as (H1 & H2 & H3 & H4 & H5 & H6 & H7 & H8).
      destruct (outcomes w dpi d (take k rest)) as [ls d2].
      cbn [fst snd] in *.
      rewrite H1, H2, H3, H4, H5, H6, H7, H8, <- app_assoc.
      unfold count. cbn [List.filter is_OK is_SKIP is_ERR length app].
      repeat split; try lia;
        [destruct (k <? length rest)%nat; lia|destruct k; lia].
    + specialize (Hrest
        (App.set_status
           (App.set_progress
              (App.log_msg (App.set_out_dir self1 d) (App.ERR (App.name f) e))
              idx)
           (App.Processing idx total (S (App.err st))))
        {| App.ok := App.ok st; App.skip := App.skip st;
           App.err := S (App.err st) |} eq_refl).
      cbn [App.set_status App.set_progress App.log_msg App.set_out_dir
           App.out_dir App.log App.reads
           App.progress_value App.progress_maximum App.ok App.skip App.err
           self1] in Hrest.
      destruct Hrest as (H1 & H2 & H3 & H4 & H5 & H6 & H7 & H8).
      destruct (outcomes w dpi d (take k rest)) as [ls d2].
      cbn [fst snd] in *.
      rewrite H1, H2, H3, H4, H5, H6, H7, H8, <- app_assoc.
      unfold count. cbn [List.filter is_OK is_SKIP is_ERR length app].
      repeat split; try lia;
        [destruct (k <? length rest)%nat; lia|destruct k; lia].
Qed.

End Loop.

Lemma exif_transpose_idem (img : PIL.image) :
  PIL.exif_transpose (PIL.exif_transpose img) = PIL.exif_transpose img.
Proof.
  unfold PIL.exif_transpose at 2 3.
  destruct (PIL.orientation img) as [o|] eqn:Eo.
  - destruct ((2 <=? o) && (o <=? 8)) eqn:Er.
    + reflexivity.
    + unfold PIL.exif_transpose. rewrite Eo, Er. reflexivity.
  - unfold PIL.exif_transpose. rewrite Eo. reflexivity.
Qed.

Lemma exif_transpose_valid (img : PIL.image) :
  valid_image img -> valid_image (PIL.exif_transpose img).
Proof.
  unfold valid_image, PIL.exif_transpose. intros [Hw Hh].
  destruct (PIL.orientation img) as [o|]; [|auto].
  destruct ((2 <=? o) && (o <=? 8)); [|auto].
  cbn [PIL.size]. destruct (5 <=? o); cbn [fst snd]; auto.
Qed.

Lemma keeps_refl (d : gmap string App.stored) : keeps d d.
Proof. intros n v H. exact H. Qed.

Lemma keeps_trans (d1 d2 d3 : gmap string App.stored) :
  keeps d1 d2 -> keeps d2 d3 -> keeps d1 d3.
Proof. intros H12 H23 n v H. apply H23, H12, H. Qed.

Lemma keeps_insert_free (d : gmap string App.stored) (n : string)
    (v : App.stored) :
  d !! n = None -> keeps d (<[n := v]> d).
Proof.
  intros Hfree m u Hm. rewrite lookup_insert_ne; [exact Hm|].
  intros ->. rewrite Hfree in Hm. discriminate.
Qed.

Lemma unique_dest_free (d : gmap string App.stored) (base : string) :
  d !! App.unique_dest d base = None.
Proof.
  destruct (unique_dest_spec d base) as (j & -> & Hfree & _). exact Hfree.
Qed.

(** A save under an unused name: the file is there when the call returns,
    whole or incomplete, and the directory is as before when it raises. *)
Lemma save_fresh (w : App.world) (d : gmap string App.stored)
    (canvas : PIL.image) (dest : string) (params : gmap string PIL.param) :
  d !! dest = None ->
  App.save w d canvas dest params
  = match App.image_save w dest canvas params with
    | App.Written => (<[dest := App.Complete canvas params]> d, Py.Ok ())
    | App.WrittenShort => (<[dest := App.Truncated]> d, Py.Ok ())
    | App.Failed e => (d, Py.Raise e)
    end.
Proof.
  intros Hfree. unfold App.save.
  destruct (App.image_save w dest canvas params); try reflexivity.
  rewrite bool_decide_eq_false_2
    by (rewrite Hfree; intros [v Hv]; discriminate).
  rewrite delete_id by exact Hfree. reflexivity.
Qed.

(** One conversion never touches a file already stored. *)
Lemma convert_keeps (w : App.world) (dpi : Z) (d : gmap string App.stored)
    (f : App.path) :
  keeps d (fst (App.convert w dpi d f)).
Proof.
  unfold App.convert.
  destruct (_ ≫= _) as [[im canvas]|e]; [|apply keeps_refl].
  cbv zeta. rewrite save_fresh by apply unique_dest_free.
  destruct (App.image_save w _ canvas _); cbn [fst].
  - apply keeps_insert_free, unique_dest_free.
  - apply keeps_insert_free, unique_dest_free.
  - apply keeps_refl.
Qed.

Lemma outcome_keeps (w : App.world) (dpi : Z) (d : gmap string App.stored)
    (f : App.path) :
  keeps d (snd (outcome w dpi d f)).
Proof.
  unfold outcome. destruct (App.is_heic f && negb (App.heif_ok w)).
  - apply keeps_refl.
  - pose proof (convert_keeps w dpi d f) as H.
    destruct (App.convert w dpi d f) as [d' [dest|e]]; exact H.
Qed.

Lemma outcomes_keeps (w : App.world) (dpi : Z) (files : list App.path) :
  forall d, keeps d (snd (outcomes w dpi d files)).
Proof.
  induction files as [|f rest IH]; intros d; cbn [outcomes].
  - apply keeps_refl.
  - pose proof (outcome_keeps w dpi d f) as H1.
    destruct (outcome w dpi d f) as [l d1]. cbn [snd] in H1.
    specialize (IH d1). destruct (outcomes w dpi d1 rest) as [ls d2].
    cbn [snd] in *. apply (keeps_trans d d1 d2); assumption.
Qed.

Lemma outcomes_length (w : App.world) (dpi : Z) (files : list App.path) :
  forall d, length (fst (outcomes w dpi d files)) = length files.
Proof.
  induction files as [|f rest IH]; intros d; cbn [outcomes]; [reflexivity|].
  destruct (outcome w dpi d f) as [l d1]. specialize (IH d1).
  destruct (outcomes w dpi d1 rest) as [ls d2]. cbn [fst length] in *. lia.
Qed.

Lemma outcome_subject (w : App.world) (dpi : Z) (d : gmap string App.stored)
    (f : App.path) :
  subject (fst (outcome w dpi d f)) = App.name f.
Proof.
  unfold outcome. destruct (App.is_heic f && negb (App.heif_ok w));
    [reflexivity|].
  destruct (App.convert w dpi d f) as [d' [dest|e]]; reflexivity.
Qed.

Lemma outcomes_recorded (w : App.world) (dpi : Z) (files : list App.path) :
  forall d, Forall2 (recorded_for w dpi) files (fst (outcomes w dpi d files)).
Proof.
  induction files as [|f rest IH]; intros d; cbn [outcomes].
  - constructor.
  - specialize (IH (snd (outcome w dpi d f))).
    assert (recorded_for w dpi f (fst (outcome w dpi d f))) as H
      by (exists d; reflexivity).
    destruct (outcome w dpi d f) as [l d1]. cbn [fst snd] in *.
    destruct (outcomes w dpi d1 rest) as [ls d2]. cbn [fst] in *.
    constructor; assumption.
Qed.


Lemma compute_target_canvas_accepted (img_w img_h dpi : Z) :
  72 <= dpi <= 1200 ->
  exists tw th,
    photo_formatter.compute_target_canvas img_w img_h dpi = Py.Ok (tw, th) /\
    valid_side tw /\ valid_side th.
Proof.
  intros Hdpi.
  destruct (cm_to_px_accepted (Py.Int 15) dpi (or_intror eq_refl) Hdpi)
    as (a & Ha & Hva).
  destruct (cm_to_px_accepted (Py.Int 10) dpi (or_introl eq_refl) Hdpi)
    as (b & Hb & Hvb).
  unfold photo_formatter.compute_target_canvas.
  destruct (img_w >=? img_h); rewrite Ha, Hb; cbn; eauto.
Qed.




(** A run over at least one file under a flag first seen set at the
    worker's [k]-th read: shared by the statements on outcome recording
    and on cancellation. *)
Lemma process_all_spec (w : App.world) (self : App.app)
    (tree : list App.path) (dpi : Z) (k : nat) :
  let files := List.filter App.supported tree in
  files <> [] ->
  (k <= length files)%nat ->
  (forall i, (i < k)%nat -> App.stop_flag w (App.reads self + i) = false) ->
  ((k < length files)%nat -> App.stop_flag w (App.reads self + k) = true) ->
  let o := outcomes w dpi (App.out_dir self) (take k files) in
  let self' := App.process_all w self tree dpi in
  App.log self' = App.log self ++ fst o /\
  App.out_dir self' = snd o /\
  App.progress_maximum self' = length files /\
  App.progress_value self' = k /\
  App.status_var self'
  = App.Final
      (App.stop_flag w
         (App.reads self + if (k <? length files)%nat then S k else k))
      (count is_OK (fst o)) (count is_SKIP (fst o)) (count is_ERR (fst o)).
Proof.
  intros files Hne Hk Hrun Hstop o self'.
  unfold self', App.process_all. fold files.
  destruct (Nat.eqb_spec (length files) 0) as [E|_].
  { destruct files; [contradiction|discriminate]. }
  set (self0 := {| App.reads := App.reads self; App.log := App.log self;
                   App.progress_maximum := length files;
                   App.progress_value := 0;
                   App.status_var := App.Found (length files);
                   App.out_dir := App.out_dir self |}).
  pose proof (loop_spec w dpi (length files) files k 1 self0
                {| App.ok := 0; App.skip := 0; App.err := 0 |} Hk Hrun Hstop)
    as H.
  cbv zeta in H. cbn [App.out_dir App.log App.reads App.progress_maximum
                      App.progress_value App.ok App.skip App.err self0] in H.
  fold o in H.
  destruct (App.loop w dpi (length files) files 1 self0 _) as [self1 st].
  cbn [fst snd] in H.
  destruct H as (H1 & H2 & H3 & H4 & H5 & H6 & H7 & H8).
  unfold App.read_stop_flag.
  cbn [App.set_status App.log App.out_dir App.progress_maximum
       App.progress_value App.status_var].
  rewrite H1, H2, H3, H4, H5, H6, H7, H8.
  repeat split; try reflexivity. destruct k; lia.
Qed.

(** Between the DPI bounds of [start] the float computation of [cm_to_px]
    agrees with exact arithmetic: checked on each of the 1129 values. *)
Lemma cm_to_px_exact_accepted (cm dpi : Z) :
  cm = 10 \/ cm = 15 -> 72 <= dpi <= 1200 ->
  exists px, photo_formatter.cm_to_px (Py.Int cm) dpi = Py.Ok px /\
             nearest_to_exact cm dpi px.
Proof.
  intros Hcm Hdpi.
  assert (forallb
            (fun n => nearest_to_exactb cm (72 + Z.of_nat n)
                        (photo_formatter.cm_to_px (Py.Int cm)
                           (72 + Z.of_nat n)))
            (seq 0 1129) = true) as Hall.
  { destruct Hcm as [-> | ->]; vm_compute; reflexivity. }
  rewrite forallb_forall in Hall.
  specialize (Hall (Z.to_nat (dpi - 72))).
  replace (72 + Z.of_nat (Z.to_nat (dpi - 72))) with dpi in Hall by lia.
  assert (In (Z.to_nat (dpi - 72)) (seq 0 1129)) as Hin
    by (apply in_seq; lia).
  specialize (Hall Hin).
  destruct (photo_formatter.cm_to_px (Py.Int cm) dpi) as [px|e];
    [|discriminate].
  exists px. split; [reflexivity|].
  unfold nearest_to_exact. cbn [nearest_to_exactb] in Hall.
  apply Z.ltb_lt in Hall. exact Hall.
Qed.

(** A conversion that raises, in either source file, leaves the directory
    as it was; one that returns leaves what [left_by_save] says under the
    name the namer picked. *)
Lemma convert_cases (w : App.world) (dpi : Z)
    (d d' : gmap string App.stored) (f : App.path) (r : Py.result string) :
  App.convert w dpi d f = (d', r) ->
  match r with
  | Py.Raise _ => d' = d
  | Py.Ok n => n = App.unique_dest d (App.stem f) /\ left_by_save w d d' n
  end.
Proof.
  unfold App.convert.
  destruct (_ ≫= _) as [[im canvas]|e0];
    [|intros H; injection H as <- <-; reflexivity].
  cbv zeta. rewrite save_fresh by apply unique_dest_free.
  destruct (App.image_save w _ canvas _) eqn:Hsave;
    intros H; injection H as <- <-; try reflexivity;
    (split; [reflexivity|]); (split; [apply unique_dest_free|]);
    eexists canvas, _; rewrite Hsave; reflexivity.
Qed.

Lemma convert_10x15_cases (w : App.world) (dpi : Z)
    (d d' : gmap string App.stored) (f : App.path) (r : Py.result string) :
  Photo_Formatter_10x15.convert w dpi d f = (d', r) ->
  match r with
  | Py.Raise _ => d' = d
  | Py.Ok n => n = App.unique_dest d (App.stem f) /\ left_by_save w d d' n
  end.
Proof.
  unfold Photo_Formatter_10x15.convert.
  destruct (_ ≫= _) as [[im canvas]|e0];
    [|intros H; injection H as <- <-; reflexivity].
  cbv zeta. rewrite save_fresh by apply unique_dest_free.
  destruct (App.image_save w _ canvas _) eqn:Hsave;
    intros H; injection H as <- <-; try reflexivity;
    (split; [reflexivity|]); (split; [apply unique_dest_free|]);
    eexists canvas, _; rewrite Hsave; reflexivity.
Qed.

(** * The claims *)

(** ** Compositor *)

(** Claim C1. For a source whose sides, after the orientation correction,
    are valid and a valid target canvas, [fit_with_letterbox] returns an
    image of exactly [target_w] by [target_h] pixels in mode RGB without
    transparency; its pixels are the background overpainted with the
    source resized to [max(1, floor(src_w * scale))] by
    [max(1, floor(src_h * scale))], where
    [scale = min(target_w / src_w, target_h / src_h)], pasted at
    [((target_w - new_w) // 2, (target_h - new_h) // 2)]; the pasted box
    lies within the canvas. *)
Theorem fit_with_letterbox_exact_canvas (img : PIL.image)
    (target_w target_h : Z) (bg : PIL.color) :
  let src := PIL.exif_transpose img in
  valid_side (fst (PIL.size src)) -> valid_side (snd (PIL.size src)) ->
  valid_side target_w -> valid_side target_h ->
  exists scale new_w new_h canvas,
    letterbox_scale (fst (PIL.size src)) (snd (PIL.size src))
                    target_w target_h = Py.Ok scale /\
    scaled_side (fst (PIL.size src)) scale = Py.Ok new_w /\
    scaled_side (snd (PIL.size src)) scale = Py.Ok new_h /\
    photo_formatter.fit_with_letterbox img target_w target_h bg
      = Py.Ok canvas /\
    PIL.size canvas = (target_w, target_h) /\
    PIL.img_mode canvas = PIL.RGB /\
    PIL.transparency canvas = false /\
    PIL.content canvas
      = letterboxed bg src new_w new_h
          ((target_w - new_w) / 2) ((target_h - new_h) / 2) /\
    box_inside ((target_w - new_w) / 2) ((target_h - new_h) / 2)
               new_w new_h target_w target_h.
Proof. exact (fit_with_letterbox_returns img target_w target_h bg). Qed.

Lemma fit_with_letterbox_exact_canvas_witness :
  exists scale new_w new_h canvas,
    letterbox_scale 1200 800 1772 1181 = Py.Ok scale /\
    scaled_side 1200 scale = Py.Ok new_w /\
    scaled_side 800 scale = Py.Ok new_h /\
    photo_formatter.fit_with_letterbox (sample_image "a" 1200 800) 1772 1181
      photo_formatter.white = Py.Ok canvas /\
    PIL.size canvas = (1772, 1181) /\
    PIL.img_mode canvas = PIL.RGB /\
    PIL.transparency canvas = false /\
    PIL.content canvas
      = letterboxed photo_formatter.white (sample_image "a" 1200 800)
          new_w new_h ((1772 - new_w) / 2) ((1181 - new_h) / 2) /\
    box_inside ((1772 - new_w) / 2) ((1181 - new_h) / 2)
               new_w new_h 1772 1181.
Proof.
  apply (fit_with_letterbox_exact_canvas (sample_image "a" 1200 800)
           1772 1181 photo_formatter.white);
    unfold valid_side; cbn; lia.
Defined.

(** The scale is a float: on the side that limits it the product
    [src * scale] can round below the target, and the floor then leaves
    one pixel of background. Here [133 * (1181 / 133)] is below 1181. *)
Example scaled_side_below_target :
  (letterbox_scale 133 133 1181 1772 ≫= scaled_side 133) = Py.Ok 1180.
Proof. vm_compute. reflexivity. Qed.

Example scaled_side_landscape :
  (letterbox_scale 1200 800 1772 1181 ≫= scaled_side 1200) = Py.Ok 1771 /\
  (letterbox_scale 1200 800 1772 1181 ≫= scaled_side 800) = Py.Ok 1181.
Proof. split; vm_compute; reflexivity. Qed.

(** ** Geometry *)

(** Claim C2. [compute_target_canvas] returns the Landscape canvas,
    15 cm by 10 cm, when the width is at least the height, the square
    case included, and the Portrait canvas, 10 cm by 15 cm, when the
    width is less than the height. *)
Theorem compute_target_canvas_orientation (img_w img_h dpi : Z) :
  (img_w >= img_h ->
   photo_formatter.compute_target_canvas img_w img_h dpi
   = canvas_px Landscape dpi) /\
  (img_w < img_h ->
   photo_formatter.compute_target_canvas img_w img_h dpi
   = canvas_px Portrait dpi) /\
  photo_formatter.compute_target_canvas img_w img_w dpi
  = canvas_px Landscape dpi.
Proof.
  unfold photo_formatter.compute_target_canvas, canvas_px.
  repeat split.
  - intros H. replace (img_w >=? img_h) with true; [reflexivity|].
    symmetry. apply Z.geb_le. lia.
  - intros H. replace (img_w >=? img_h) with false; [reflexivity|].
    symmetry. rewrite Z.geb_leb. apply Z.leb_gt. lia.
  - replace (img_w >=? img_w) with true; [reflexivity|].
    symmetry. apply Z.geb_le. lia.
Qed.

Lemma compute_target_canvas_orientation_witness :
  photo_formatter.compute_target_canvas 1200 800 300 = Py.Ok (1772, 1181) /\
  photo_formatter.compute_target_canvas 800 1200 300 = Py.Ok (1181, 1772) /\
  photo_formatter.compute_target_canvas 640 640 300 = Py.Ok (1772, 1181).
Proof.
  destruct (compute_target_canvas_orientation 1200 800 300) as (H1 & _ & _).
  destruct (compute_target_canvas_orientation 800 1200 300) as (_ & H2 & _).
  destruct (compute_target_canvas_orientation 640 640 300) as (_ & _ & H3).
  rewrite H1, H2, H3 by lia. vm_compute. auto.
Defined.

(** Claim C3. [cm_to_px] returns [round((length_cm / 2.54) * dpi)]: it is
    the conversion of the specification, and whatever it returns is the
    integer nearest to the float product, the even one on a tie; for the
    two lengths of the program and every DPI that [start] accepts this is
    also the integer nearest to the exact quotient; at 300 DPI the
    Landscape canvas is 1772 by 1181 pixels and the Portrait canvas 1181 by
    1772. *)
Theorem cm_to_px_rounds_product :
  (forall cm dpi,
     photo_formatter.cm_to_px cm dpi = physicalToPixels cm dpi) /\
  (forall cm dpi px,
     photo_formatter.cm_to_px cm dpi = Py.Ok px ->
     exists x inches d,
       Py.to_float cm = Py.Ok x /\
       Py.float_truediv x Py.lit_2_54 = Py.Ok inches /\
       Py.float_of_int dpi = Py.Ok d /\
       nearest_even (SF2R (Py.float_mul inches d)) px) /\
  (forall cm dpi,
     cm = 10 \/ cm = 15 -> 72 <= dpi <= 1200 ->
     exists px, photo_formatter.cm_to_px (Py.Int cm) dpi = Py.Ok px /\
                nearest_to_exact cm dpi px) /\
  canvas_px Landscape 300 = Py.Ok (1772, 1181) /\
  canvas_px Portrait 300 = Py.Ok (1181, 1772).
Proof.
  split; [reflexivity|].
  split; [|split; [exact cm_to_px_exact_accepted|
                   split; vm_compute; reflexivity]].
  intros cm dpi px H. unfold photo_formatter.cm_to_px in H.
  destruct (Py.to_float cm) as [x|e] eqn:Hx; [|discriminate].
  cbn [mbind result_bind Py.bind] in H.
  destruct (Py.float_truediv x Py.lit_2_54) as [inches|e] eqn:Hi;
    [|discriminate].
  cbn [mbind result_bind Py.bind] in H.
  destruct (Py.float_of_int dpi) as [d|e] eqn:Hd; [|discriminate].
  cbn [mbind result_bind Py.bind] in H.
  exists x, inches, d. repeat (split; [assumption || reflexivity|]).
  apply round_nearest, H.
Qed.

Lemma cm_to_px_rounds_product_witness :
  exists x inches d,
    Py.to_float (Py.Int 15) = Py.Ok x /\
    Py.float_truediv x Py.lit_2_54 = Py.Ok inches /\
    Py.float_of_int 300 = Py.Ok d /\
    nearest_even (SF2R (Py.float_mul inches d)) 1772.
Proof.
  destruct cm_to_px_rounds_product as (_ & H & _).
  apply (H (Py.Int 15) 300 1772). vm_compute. reflexivity.
Defined.

(** Claim C9. For a positive length [cm_to_px] does not decrease with the
    DPI: where it returns at a positive DPI it returns at every smaller
    positive DPI, with a result at most as large. *)
Theorem cm_to_px_monotone_in_dpi (cm : Py.num) (dpi1 dpi2 px2 : Z) :
  positive_length cm -> 0 < dpi1 <= dpi2 ->
  photo_formatter.cm_to_px cm dpi2 = Py.Ok px2 ->
  exists px1, photo_formatter.cm_to_px cm dpi1 = Py.Ok px1 /\ px1 <= px2.
Proof. exact (cm_to_px_monotone cm dpi1 dpi2 px2). Qed.

Lemma cm_to_px_monotone_in_dpi_witness :
  exists px1, photo_formatter.cm_to_px (Py.Int 15) 72 = Py.Ok px1 /\
              px1 <= 1772.
Proof.
  apply (cm_to_px_monotone_in_dpi (Py.Int 15) 72 300 1772).
  - cbn. lia.
  - lia.
  - vm_compute. reflexivity.
Defined.

(** Claim C8, as the code has it. For the two lengths of the program and
    every integer DPI from [-2^1000] to [2^1000] [cm_to_px] returns a
    value and raises nothing: a value of at least 3 for a positive DPI,
    and a value of at most 0 for a DPI of at most 0, where it does not
    fail. A DPI below 72 is refused before the run by the check of
    [start]. *)
Theorem cm_to_px_returns_for_every_dpi (cm : Py.num) (dpi : Z) :
  cm = Py.Int 10 \/ cm = Py.Int 15 ->
  - 2 ^ 1000 <= dpi <= 2 ^ 1000 ->
  (exists px,
     photo_formatter.cm_to_px cm dpi = Py.Ok px /\
     (0 < dpi -> 3 <= px) /\ (dpi <= 0 -> px <= 0)) /\
  (dpi < 72 -> App.check_dpi dpi = Py.Raise Py.ValueError).
Proof.
  intros Hcm Hdpi. split.
  - destruct (Z.lt_trichotomy dpi 0) as [Hneg|[->|Hpos]].
    + destruct (cm_to_px_returns_positive cm (- dpi) Hcm ltac:(lia))
        as (px & Hpx & Hge).
      exists (- px). replace dpi with (- - dpi) by lia.
      rewrite cm_to_px_opp by lia. rewrite Hpx.
      split; [reflexivity|]. split; lia.
    + exists 0. split; [|lia].
      destruct Hcm as [-> | ->]; vm_compute; reflexivity.
    + destruct (cm_to_px_returns_positive cm dpi Hcm ltac:(lia))
        as (px & Hpx & Hge).
      exists px. split; [exact Hpx|]. split; lia.
  - intros Hlow. unfold App.check_dpi.
    replace (72 <=? dpi) with false; [reflexivity|].
    symmetry. apply Z.leb_gt. exact Hlow.
Qed.

Lemma cm_to_px_returns_for_every_dpi_witness :
  (exists px,
     photo_formatter.cm_to_px (Py.Int 15) (-300) = Py.Ok px /\
     (0 < -300 -> 3 <= px) /\ (-300 <= 0 -> px <= 0)) /\
  (-300 < 72 -> App.check_dpi (-300) = Py.Raise Py.ValueError).
Proof.
  apply (cm_to_px_returns_for_every_dpi (Py.Int 15) (-300)).
  - right. reflexivity.
  - split.
    + apply Z.le_trans with (- 2 ^ 9); [|lia].
      apply (proj1 (Z.opp_le_mono (2 ^ 9) (2 ^ 1000))).
      apply Z.pow_le_mono_r; lia.
    + apply Z.le_trans with (2 ^ 0); [lia|]. apply Z.pow_le_mono_r; lia.
Defined.

(** Claim C8 as stated fails: at DPI 0 and at DPI -300 [cm_to_px] returns
    a value, and at the positive DPI [2^1024] it raises. *)
Lemma cm_to_px_no_invalid_input :
  photo_formatter.cm_to_px (Py.Int 15) 0 = Py.Ok 0 /\
  photo_formatter.cm_to_px (Py.Int 15) (-300) = Py.Ok (-1772) /\
  photo_formatter.cm_to_px (Py.Int 15) (2 ^ 1024)
  = Py.Raise Py.OverflowError.
Proof. repeat split; vm_compute; reflexivity. Qed.

(** Claim C10. The three pure functions of [photo_formatter.py] and of
    [10x15_Photo_Formatter.py] compute the same results on every input. *)
Theorem pure_core_duplicated :
  (forall cm dpi,
     photo_formatter.cm_to_px cm dpi = Photo_Formatter_10x15.cm_to_px cm dpi) /\
  (forall img_w img_h dpi,
     photo_formatter.compute_target_canvas img_w img_h dpi
     = Photo_Formatter_10x15.compute_target_canvas img_w img_h dpi) /\
  (forall img target_w target_h bg_color,
     photo_formatter.fit_with_letterbox img target_w target_h bg_color
     = Photo_Formatter_10x15.fit_with_letterbox img target_w target_h
         bg_color).
Proof. repeat split. Qed.

(** ** Output namer *)

(** Claim C6. For every stem and every directory the namer returns the
    first name of the sequence [stem_10x15.jpg], [stem_10x15_1.jpg],
    [stem_10x15_2.jpg], ... that the directory does not hold, so never a
    name that exists; and three calls in a row for one stem, each name
    being created before the next call, in a directory that held none of
    the three names, return [stem_10x15.jpg], [stem_10x15_1.jpg] and
    [stem_10x15_2.jpg] in this order. *)
Theorem unique_dest_first_unused (d : gmap string App.stored)
    (base : string) :
  (exists j,
     App.unique_dest d base = candidate base j /\
     d !! candidate base j = None /\
     forall i, (i < j)%nat -> is_Some (d !! candidate base i)) /\
  d !! App.unique_dest d base = None /\
  (forall v1 v2,
     d !! (base +:+ "_10x15.jpg") = None ->
     d !! (base +:+ "_10x15_1.jpg") = None ->
     d !! (base +:+ "_10x15_2.jpg") = None ->
     let n1 := App.unique_dest d base in
     let d1 := <[n1 := v1]> d in
     let n2 := App.unique_dest d1 base in
     let d2 := <[n2 := v2]> d1 in
     let n3 := App.unique_dest d2 base in
     n1 = base +:+ "_10x15.jpg" /\
     n2 = base +:+ "_10x15_1.jpg" /\
     n3 = base +:+ "_10x15_2.jpg").
Proof.
  split; [apply unique_dest_spec|]. split; [apply unique_dest_free|].
  intros v1 v2 H0 H1 H2.
  change (base +:+ "_10x15.jpg") with (candidate base 0) in *.
  change (base +:+ "_10x15_1.jpg") with (candidate base 1) in *.
  change (base +:+ "_10x15_2.jpg") with (candidate base 2) in *.
  assert (forall (d' : gmap string App.stored) j,
            d' !! candidate base j = None ->
            (forall i, (i < j)%nat -> is_Some (d' !! candidate base i)) ->
            App.unique_dest d' base = candidate base j) as Hfirst.
  { intros d' j Hfree Hused.
    destruct (unique_dest_spec d' base) as (j' & -> & Hfree' & Hused').
    f_equal. destruct (Nat.lt_trichotomy j' j) as [Hlt|[->|Hgt]].
    - apply Hused in Hlt. rewrite Hfree' in Hlt.
      apply is_Some_None in Hlt. contradiction.
    - reflexivity.
    - apply Hused' in Hgt. rewrite Hfree in Hgt.
      apply is_Some_None in Hgt. contradiction. }
  assert (App.unique_dest d base = candidate base 0) as E1.
  { apply Hfirst; [exact H0|]. intros i Hi. lia. }
  cbv zeta. rewrite E1.
  assert (App.unique_dest (<[candidate base 0 := v1]> d) base
          = candidate base 1%nat) as E2.
  { apply Hfirst.
    - rewrite lookup_insert_ne; [exact H1|].
      intros E. apply candidate_inj in E. discriminate.
    - intros i Hi. assert (i = 0)%nat as -> by lia.
      rewrite lookup_insert_eq. eauto. }
  rewrite E2.
  assert (App.unique_dest
            (<[candidate base 1 := v2]> (<[candidate base 0 := v1]> d)) base
          = candidate base 2%nat) as E3.
  { apply Hfirst.
    - rewrite !lookup_insert_ne; [exact H2| |].
      + intros E. apply candidate_inj in E. discriminate.
      + intros E. apply candidate_inj in E. discriminate.
    - intros i Hi. destruct i as [|[|i]]; [| |lia].
      + rewrite lookup_insert_ne.
        * rewrite lookup_insert_eq. eauto.
        * intros E. apply candidate_inj in E. discriminate.
      + rewrite lookup_insert_eq. eauto. }
  rewrite E3. auto.
Qed.

Lemma unique_dest_first_unused_witness :
  let d : gmap string App.stored := ∅ in
  let n1 := App.unique_dest d "a" in
  let d1 := <[n1 := App.Truncated]> d in
  let n2 := App.unique_dest d1 "a" in
  let d2 := <[n2 := App.Truncated]> d1 in
  let n3 := App.unique_dest d2 "a" in
  n1 = "a_10x15.jpg" /\ n2 = "a_10x15_1.jpg" /\ n3 = "a_10x15_2.jpg".
Proof.
  destruct (unique_dest_first_unused ∅ "a") as (_ & _ & H).
  apply (H App.Truncated App.Truncated); apply lookup_empty.
Defined.

(** ** Batch driver *)


(** Claim C5. The flag is read only between files: when it is first seen
    set at the read that follows [k] files, and stays set, the run has
    processed exactly these [k] files, each as a unit, and no other, and
    ends with the status Stopped; the conversion of a file does not depend
    on the flag. With the flag set after the first of three files, one
    file is processed and the two others are never started. *)
Theorem process_all_stops_between_files (w : App.world) (self : App.app)
    (tree : list App.path) (dpi : Z) (k : nat) :
  let files := List.filter App.supported tree in
  files <> [] ->
  (k <= length files)%nat ->
  (forall i, (i < k)%nat -> App.stop_flag w (App.reads self + i) = false) ->
  (forall j, (k <= j)%nat -> App.stop_flag w (App.reads self + j) = true) ->
  let o := outcomes w dpi (App.out_dir self) (take k files) in
  let self' := App.process_all w self tree dpi in
  App.log self' = App.log self ++ fst o /\
  length (fst o) = k /\
  Forall2 (fun f l => subject l = App.name f) (take k files) (fst o) /\
  App.out_dir self' = snd o /\
  App.progress_value self' = k /\
  App.status_var self'
  = App.Final true (count is_OK (fst o)) (count is_SKIP (fst o))
      (count is_ERR (fst o)) /\
  (forall flag d f,
     App.convert
       {| App.heif_ok := App.heif_ok w; App.image_open := App.image_open w;
          App.image_save := App.image_save w; App.stop_flag := flag |}
       dpi d f
     = App.convert w dpi d f).
Proof.
  intros files Hne Hk Hrun Hstop o self'.
  pose proof (process_all_spec w self tree dpi k Hne Hk Hrun
                (fun _ => Hstop k (Nat.le_refl k))) as H.
  cbv zeta in H. fold files in H. fold o self' in H.
  destruct H as (H1 & H2 & _ & H4 & H5).
  rewrite Hstop in H5 by (destruct (k <? length files)%nat; lia).
  split; [exact H1|]. split.
  { unfold o. rewrite outcomes_length, length_take. lia. }
  split.
  { eapply Forall2_impl; [apply outcomes_recorded|].
    intros f l [d ->]. apply outcome_subject. }
  repeat (split; [assumption|]).
  intros flag d f. reflexivity.
Qed.


Lemma process_all_stops_between_files_witness :
  let w := sample_world true after_first App.Written in
  let tree := [sample_path "a" ".jpg"; sample_path "b" ".png";
               sample_path "e" ".jpg"] in
  let self' := App.process_all w fresh_app tree 300 in
  App.log self' = [App.OK "a.jpg"] /\
  App.status_var self' = App.Final true 1 0 0 /\
  App.progress_value self' = 1%nat /\
  App.out_dir self' !! "b_10x15.jpg" = None /\
  App.out_dir self' !! "e_10x15.jpg" = None.
Proof.
  intros w tree self'. unfold self'. clear self'.
  destruct (process_all_stops_between_files w fresh_app tree 300 1)
    as (Hlog & _ & _ & Hdir & Hprog & Hstatus & _).
  - vm_compute. discriminate.
  - vm_compute. lia.
  - intros i Hi. assert (i = 0)%nat as -> by lia. reflexivity.
  - intros j Hj. apply Nat.leb_le. exact Hj.
  - rewrite Hlog, Hdir, Hprog, Hstatus. vm_compute. auto.
Defined.

(** Claim C7, as the code has it. When the conversion of a file raises,
    in either source file, be it in the decoding, the orientation, the
    geometry, the compositing or the save, the destination directory is
    left exactly as it was: nothing is written before the save, and the
    save was given a name that did not exist, so that the imaging library
    removes the file it had created. Nothing is placed atomically: the
    save writes under the final name itself, with no temporary file and no
    rename. When the conversion returns, one file has been added under the
    unused name the namer picked; it is the whole output when the encoder
    wrote all of it, and an incomplete file when the save returned after a
    short write. *)
Theorem convert_failure_leaves_directory (w : App.world) (dpi : Z)
    (d : gmap string App.stored) (f : App.path) :
  (forall d' e, App.convert w dpi d f = (d', Py.Raise e) -> d' = d) /\
  (forall d' e,
     Photo_Formatter_10x15.convert w dpi d f = (d', Py.Raise e) -> d' = d) /\
  (forall d' n,
     App.convert w dpi d f = (d', Py.Ok n) ->
     n = App.unique_dest d (App.stem f) /\ left_by_save w d d' n) /\
  (forall d' n,
     Photo_Formatter_10x15.convert w dpi d f = (d', Py.Ok n) ->
     n = App.unique_dest d (App.stem f) /\ left_by_save w d d' n).
Proof.
  split; [|split; [|split]].
  - intros d' e H. exact (convert_cases w dpi d d' f _ H).
  - intros d' e H. exact (convert_10x15_cases w dpi d d' f _ H).
  - intros d' n H. exact (convert_cases w dpi d d' f _ H).
  - intros d' n H. exact (convert_10x15_cases w dpi d d' f _ H).
Qed.

Lemma convert_failure_leaves_directory_witness :
  let w := sample_world true never (App.Failed Py.OSError) in
  let f := sample_path "a" ".jpg" in
  let d : gmap string App.stored := {[ "a_10x15.jpg" := App.Truncated ]} in
  App.convert w 300 d f = (d, Py.Raise Py.OSError) /\
  Photo_Formatter_10x15.convert w 300 d f = (d, Py.Raise Py.OSError) /\
  left_by_save (sample_world true never App.Written) d
    (fst (App.convert (sample_world true never App.Written) 300 d f))
    "a_10x15_1.jpg".
Proof.
  intros w f d.
  destruct (convert_failure_leaves_directory w 300 d f) as (H1 & H2 & _).
  destruct (convert_failure_leaves_directory
              (sample_world true never App.Written) 300 d f)
    as (_ & _ & H3 & _).
  split; [|split].
  - destruct (App.convert w 300 d f) as [d' r] eqn:E.
    assert (r = Py.Raise Py.OSError) as -> by (vm_compute in E; congruence).
    rewrite (H1 d' _ eq_refl). reflexivity.
  - destruct (Photo_Formatter_10x15.convert w 300 d f) as [d' r] eqn:E.
    assert (r = Py.Raise Py.OSError) as -> by (vm_compute in E; congruence).
    rewrite (H2 d' _ eq_refl). reflexivity.
  - destruct (App.convert (sample_world true never App.Written) 300 d f)
      as [d' r] eqn:E.
    assert (r = Py.Ok "a_10x15_1.jpg") as ->
      by (vm_compute in E; congruence).
    exact (proj2 (H3 d' _ eq_refl)).
Defined.

(** Claim C7 as stated fails: the output is written under its final name,
    and a save that returns after a short write leaves an incomplete file
    there, which either program records as converted. *)
Lemma short_write_leaves_truncated_file :
  let w := sample_world true never App.WrittenShort in
  let f := sample_path "a" ".jpg" in
  let self' := App.process_all w fresh_app [f] 300 in
  App.log self' = [App.OK "a.jpg"] /\
  App.status_var self' = App.Final false 1 0 0 /\
  App.out_dir self' !! "a_10x15.jpg" = Some App.Truncated /\
  Photo_Formatter_10x15.convert w 300 ∅ f
  = (<["a_10x15.jpg" := App.Truncated]> ∅, Py.Ok "a_10x15.jpg").
Proof. vm_compute. repeat split; reflexivity. Qed.

(** * Further properties of the code *)

(** ** The geometry of the letterbox *)

Section LetterboxGeometry.

Local Open Scope R_scope.

Local Abbreviation bpow e := (powerRZ 2 e).

(** Rounding to nearest loses at most the relative error [2^-53] in the
    normal range. *)
Lemma rounds_to_lower (x v : R) :
  rounds_to x v -> bpow (-1022) <= x -> x * (1 - bpow (-53)) <= v.
Proof.
  intros (d & n & M & [[_ N] _] & ->) Hx.
  assert (-1022 < d)%Z as Hd.
  { apply bpow_lt_inv. destruct M. lra. }
  rewrite fexp64_eq in *.
  replace (Z.max (d - 53) (-1074)) with (d - 53)%Z in * by lia.
  destruct M as [Hlo _]. unfold F2R.
  pose proof (bpow_gt_0 (d - 53)) as Hp.
  assert (x - / 2 * bpow (d - 53) <= IZR n * bpow (d - 53)).
  { apply Rmult_le_compat_r with (r := bpow (d - 53)) in N; [|lra].
    replace (x / bpow (d - 53) * bpow (d - 53)) with x in N by (field; lra).
    lra. }
  assert (bpow (d - 53) = 2 * bpow (d - 1) * bpow (-53)) as E.
  { replace (d - 53)%Z with (1 + (d - 1) + -53)%Z by lia.
    rewrite !bpow_add. change (bpow 1) with (2 * 1). ring. }
  pose proof (bpow_gt_0 (-53)). nra.
Qed.

Lemma bpow_m53_small : 0 < bpow (-53) /\ bpow (-53) * bpow 53 = 1.
Proof.
  split; [apply bpow_gt_0|]. rewrite <- bpow_add. reflexivity.
Qed.

(** The quotient of two sides is the correctly rounded ratio. *)
Lemma side_ratio_rounds (tgt src : Z) :
  (1 <= src <= 2 ^ 53)%Z -> (1 <= tgt <= 2 ^ 53)%Z ->
  exists f v,
    Py.int_truediv tgt src = Py.Ok f /\ carries f false v /\
    rounds_to (IZR tgt / IZR src) v /\
    bpow (-54) <= v <= bpow 54.
Proof.
  intros Hs Ht.
  destruct (int_truediv_spec tgt src) as (v & Hr & Hc); [lia| |].
  { split; [lia|]. apply Z.le_lt_trans with (2 ^ 53)%Z; [lia|].
    apply Z.pow_lt_mono_r; lia. }
  pose proof (ratio_bounds tgt src Hs Ht) as [Hlo Hhi].
  assert (bpow (-1022) <= IZR tgt / IZR src) as Hnorm.
  { apply Rle_trans with (2 := Hlo). apply bpow_le. lia. }
  pose proof (rounds_to_upper _ _ Hr Hnorm) as Hup.
  pose proof (rounds_to_lower _ _ Hr Hnorm) as Hdn.
  pose proof bpow_m53_small as [He0 _].
  assert (bpow (-53) <= / 2) as He.
  { apply Rle_trans with (bpow (-1)); [apply bpow_le; lia|].
    change (bpow (-1)) with (/ (2 * 1)). lra. }
  assert (bpow (-54) <= v <= bpow 54) as Hb.
  { split.
    - change (-54)%Z with (-53 + -1)%Z. rewrite bpow_add.
      change (bpow (-1)) with (/ (2 * 1)).
      generalize dependent (IZR tgt / IZR src). intros r; intros. nra.
    - change 54%Z with (53 + 1)%Z. rewrite bpow_add.
      change (bpow 1) with (2 * 1).
      generalize dependent (IZR tgt / IZR src). intros r; intros. nra. }
  assert (v < bpow 1024) as Hfin.
  { apply Rle_lt_trans with (bpow 54); [lra|]. apply bpow_lt. lia. }
  destruct (Py.int_truediv tgt src) as [f|e]; cbn [returns_rounded] in Hc.
  - exists f, v. destruct Hc as [Hc _]. auto.
  - destruct Hc as [_ Hc]. unfold Py.emax in Hc. lra.
Qed.

(** [floor(src * scale)] is the floor of the correctly rounded product. *)
Lemma scaled_floor_rounds (src : Z) (scale : Py.float) (vs : R) :
  (1 <= src <= 2 ^ 53)%Z ->
  carries scale false vs -> bpow (-54) <= vs <= bpow 54 ->
  exists fs n p,
    Py.float_of_int src = Py.Ok fs /\
    Py.floor (Py.float_mul fs scale) = Py.Ok n /\
    rounds_to (IZR src * vs) p /\
    IZR n <= p < IZR n + 1.
Proof.
  intros Hs Hc [Hlo Hhi].
  destruct (float_of_int_exact src) as (fs & Hfs & Hcs); [lia|].
  exists fs. rewrite Hfs.
  assert (1 <= IZR src) as Hs1 by (apply IZR_le; lia).
  assert (IZR src <= bpow 53) as Hs53
    by (rewrite bpow_IZR by lia; apply IZR_le; lia).
  pose proof (bpow_gt_0 (-54)) as H54.
  assert (vs < bpow 1024) as Hvfin.
  { apply Rle_lt_trans with (1 := Hhi). apply bpow_lt. lia. }
  assert (IZR src < bpow 1024) as Hsfin.
  { apply Rle_lt_trans with (1 := Hs53). apply bpow_lt. lia. }
  destruct (float_mul_nonneg_spec fs scale (IZR src) vs Hcs Hc Hsfin Hvfin)
    as (p & Hr & Hcp).
  destruct Hr as [[Hz _]|Hr]; [nra|].
  assert (bpow (-1022) <= IZR src * vs) as Hnorm.
  { apply Rle_trans with (bpow (-54)); [apply bpow_le; lia|nra]. }
  pose proof (rounds_to_upper _ _ Hr Hnorm) as Hup.
  assert (p < bpow 1024) as Hfin.
  { apply Rle_lt_trans with (1 := Hup).
    apply Rle_lt_trans with (bpow 53 * bpow 54 * bpow 1).
    - pose proof bpow_m53_small as [He0 _].
      assert (bpow (-53) <= 1).
      { change 1 with (bpow 0). apply bpow_le. lia. }
      change (bpow 1) with (2 * 1).
      pose proof (bpow_gt_0 53). pose proof (bpow_gt_0 54).
      assert (IZR src * vs <= bpow 53 * bpow 54) as Hx.
      { apply Rmult_le_compat; lra. }
      assert (0 <= IZR src * vs) as Hx0 by (apply Rmult_le_pos; lra).
      generalize dependent (IZR src * vs). intros x; intros.
      apply Rle_trans with (x * 2); [|lra].
      apply Rmult_le_compat_l; lra.
    - rewrite <- !bpow_add. apply bpow_lt. lia. }
  destruct (floor_spec _ p Hcp Hfin) as (n & Hn & Hb).
  exists n, p. auto.
Qed.

Lemma rounds_to_one : rounds_to 1 1.
Proof.
  assert (F2R 1 0 = 1) as E.
  { unfold F2R. change (bpow 0) with 1. lra. }
  rewrite <- E. apply rounds_to_exact with (d := 1%Z).
  - rewrite E. unfold magnitude. change (bpow (1 - 1)) with 1.
    change (bpow 1) with (2 * 1). lra.
  - rewrite fexp64_eq. lia.
Qed.

Lemma rounds_to_int (n : Z) :
  (0 < n <= 2 ^ 53)%Z -> rounds_to (IZR n) (IZR n).
Proof.
  intros Hn. destruct (float_of_int_spec n) as (v & Hv & _); [lia|].
  rewrite (rounds_to_small_int n v Hn Hv) in Hv. exact Hv.
Qed.

(** Half an integer below [2^52] is a float. *)
Lemma rounds_to_below_half (t : Z) :
  (1 <= t <= 2 ^ 51)%Z -> rounds_to (IZR t - / 2) (IZR t - / 2).
Proof.
  intros Ht.
  assert (F2R (2 * t - 1) (-1) = IZR t - / 2) as E.
  { unfold F2R. rewrite minus_IZR, mult_IZR.
    change (bpow (-1)) with (/ (2 * 1)). field. }
  rewrite <- E.
  destruct (2 * t - 1)%Z as [|p|p] eqn:Ep; try lia.
  apply rounds_to_exact with (d := (Zpos (digits2_pos p) + -1)%Z).
  - apply F2R_magnitude.
  - rewrite fexp64_eq. pose proof (digits2_pos_le p 53).
    assert (Zpos p < 2 ^ 53)%Z.
    { rewrite <- Ep. change (2 ^ 53)%Z with (2 * 2 ^ 51 + 2 * 2 ^ 51)%Z. lia. }
    lia.
Qed.

(** The two floors differ from a common scale by less than a pixel
    each. *)
Lemma scaled_cross_bound (a b s e p q i j : R) :
  0 < a -> 0 < b -> 0 <= s -> 0 < e ->
  2 * e * (a * s * b) <= 1 ->
  p <= a * s * (1 + e) -> b * s * (1 - e) <= q ->
  i <= p -> q < j + 1 ->
  i * b - j * a < a + 1.
Proof.
  intros Ha Hb Hs He HX Hp Hq Hi Hj.
  assert (i * b <= a * s * (1 + e) * b) as H1.
  { apply Rmult_le_compat_r; lra. }
  assert ((b * s * (1 - e) - 1) * a < j * a) as H2.
  { apply Rmult_lt_compat_r; lra. }
  lra.
Qed.

(** The sides [floor(src * scale)] of the resized image, for valid sides:
    one of them is within a pixel of its target; a source that fits in
    the canvas is not reduced, one that exceeds it in a direction is not
    enlarged; and the two sides are in the proportion of the source up to
    a pixel. *)
Lemma letterbox_sides_geometry (src_w src_h target_w target_h : Z) :
  valid_side src_w -> valid_side src_h ->
  valid_side target_w -> valid_side target_h ->
  exists rw rh fw fh iw ih,
    Py.int_truediv target_w src_w = Py.Ok rw /\
    Py.int_truediv target_h src_h = Py.Ok rh /\
    Py.float_of_int src_w = Py.Ok fw /\
    Py.floor (Py.float_mul fw (Py.min rw rh)) = Py.Ok iw /\
    Py.float_of_int src_h = Py.Ok fh /\
    Py.floor (Py.float_mul fh (Py.min rw rh)) = Py.Ok ih /\
    (target_w - 1 <= iw \/ target_h - 1 <= ih)%Z /\
    ((src_w <= target_w)%Z -> (src_h <= target_h)%Z ->
     (src_w <= iw /\ src_h <= ih)%Z) /\
    ((target_w <= src_w \/ target_h <= src_h)%Z ->
     (iw <= src_w /\ ih <= src_h)%Z) /\
    ((target_w <= 2 ^ 20 \/ target_h <= 2 ^ 20)%Z ->
     (iw * src_h - ih * src_w <= src_w /\
      ih * src_w - iw * src_h <= src_h)%Z).
Proof.
  unfold valid_side. intros Hsw Hsh Htw Hth.
  assert (2 ^ 31 < 2 ^ 51)%Z by (apply Z.pow_lt_mono_r; lia).
  assert (2 ^ 51 < 2 ^ 53)%Z by (apply Z.pow_lt_mono_r; lia).
  destruct (side_ratio_rounds target_w src_w)
    as (rw & vw & Hrw & Hcw & Hvw & Hbw); [lia|lia|].
  destruct (side_ratio_rounds target_h src_h)
    as (rh & vh & Hrh & Hch & Hvh & Hbh); [lia|lia|].
  assert (vw < bpow 1024) as Hfw
    by (apply Rle_lt_trans with (bpow 54); [lra|apply bpow_lt; lia]).
  assert (vh < bpow 1024) as Hfh
    by (apply Rle_lt_trans with (bpow 54); [lra|apply bpow_lt; lia]).
  destruct (min_spec rw rh vw vh Hcw Hch Hfw Hfh)
    as (vs & Hcs & Hsw' & Hsh' & Hmin).
  assert (bpow (-54) <= vs <= bpow 54) as Hbs by (destruct Hmin; subst; lra).
  destruct (scaled_floor_rounds src_w (Py.min rw rh) vs)
    as (fw & iw & pw & Hfw' & Hiw & Hpw & Hiw'); [lia|exact Hcs|exact Hbs|].
  destruct (scaled_floor_rounds src_h (Py.min rw rh) vs)
    as (fh & ih & ph & Hfh' & Hih & Hph & Hih'); [lia|exact Hcs|exact Hbs|].
  exists rw, rh, fw, fh, iw, ih.
  repeat (split; [assumption|]).
  (* the reals at hand *)
  pose proof (bpow_gt_0 (-54)) as H54.
  pose proof bpow_m53_small as [He0 He1].
  assert (1 <= IZR src_w) as Ha1 by (apply IZR_le; lia).
  assert (1 <= IZR src_h) as Hb1 by (apply IZR_le; lia).
  assert (1 <= IZR target_w) as Htw1 by (apply IZR_le; lia).
  assert (1 <= IZR target_h) as Hth1 by (apply IZR_le; lia).
  assert (forall n, (n < 2 ^ 31)%Z -> IZR n <= bpow 31) as Hle31.
  { intros n Hn. rewrite bpow_IZR by lia. apply IZR_le. lia. }
  pose proof (Hle31 _ (proj2 Hsw)) as Ha31.
  pose proof (Hle31 _ (proj2 Hsh)) as Hb31.
  pose proof (Hle31 _ (proj2 Htw)) as Htw31.
  pose proof (Hle31 _ (proj2 Hth)) as Hth31.
  assert (bpow (-1022) <= bpow (-54)) as Hn54 by (apply bpow_le; lia).
  assert (forall t s, (1 <= s <= 2 ^ 53)%Z -> (1 <= t <= 2 ^ 53)%Z ->
            bpow (-1022) <= IZR t / IZR s) as Hnorm.
  { intros t s Hs Ht. destruct (ratio_bounds t s Hs Ht) as [Hlo _].
    apply Rle_trans with (2 := Hlo). apply bpow_le. lia. }
  pose proof (rounds_to_upper _ _ Hvw
                (Hnorm target_w src_w ltac:(lia) ltac:(lia))) as Huw.
  pose proof (rounds_to_upper _ _ Hvh
                (Hnorm target_h src_h ltac:(lia) ltac:(lia))) as Huh.
  pose proof (rounds_to_lower _ _ Hvw
                (Hnorm target_w src_w ltac:(lia) ltac:(lia))) as Hlw.
  pose proof (rounds_to_lower _ _ Hvh
                (Hnorm target_h src_h ltac:(lia) ltac:(lia))) as Hlh.
  assert (bpow (-1022) <= IZR src_w * vs) as Hnw.
  { apply Rle_trans with (1 * bpow (-54)); [lra|].
    apply Rmult_le_compat; lra. }
  assert (bpow (-1022) <= IZR src_h * vs) as Hnh.
  { apply Rle_trans with (1 * bpow (-54)); [lra|].
    apply Rmult_le_compat; lra. }
  pose proof (rounds_to_upper _ _ Hpw Hnw) as Hupw.
  pose proof (rounds_to_upper _ _ Hph Hnh) as Huph.
  pose proof (rounds_to_lower _ _ Hpw Hnw) as Hlpw.
  pose proof (rounds_to_lower _ _ Hph Hnh) as Hlph.
  assert (bpow 31 * bpow (-53) <= / 2) as Hsmall.
  { rewrite <- bpow_add.
    apply Rle_trans with (bpow (-1)); [apply bpow_le; lia|].
    change (bpow (-1)) with (/ (2 * 1)). lra. }
  (* a side multiplied by its rounded ratio is within half a pixel of
     the target *)
  assert (forall s t v : R, 1 <= s -> 1 <= t -> t <= bpow 31 ->
            t / s * (1 - bpow (-53)) <= v -> t - / 2 <= s * v) as Hnear.
  { intros s t v Hs Ht Ht31 Hv.
    apply Rle_trans with (s * (t / s * (1 - bpow (-53)))).
    - replace (s * (t / s * (1 - bpow (-53)))) with (t - t * bpow (-53))
        by (field; lra).
      assert (t * bpow (-53) <= bpow 31 * bpow (-53)).
      { apply Rmult_le_compat_r; lra. }
      lra.
    - apply Rmult_le_compat_l; lra. }
  assert (forall s t v : R, 1 <= s -> 1 <= t ->
            v <= t / s * (1 + bpow (-53)) -> s * v <= t * (1 + bpow (-53)))
    as Hfar.
  { intros s t v Hs Ht Hv.
    replace (t * (1 + bpow (-53))) with (s * (t / s * (1 + bpow (-53))))
      by (field; lra).
    apply Rmult_le_compat_l; lra. }
  split.
  { (* one side is filled up to a pixel *)
    destruct Hmin as [-> | ->]; [left|right].
    - pose proof (Hnear _ _ _ Ha1 Htw1 Htw31 Hlw) as Hx.
      pose proof (rounds_to_monotone _ _ _ _
                    (rounds_to_below_half target_w ltac:(lia)) Hpw Hx) as Hp.
      assert (target_w - 2 < iw)%Z; [|lia].
      apply lt_IZR. rewrite minus_IZR. lra.
    - pose proof (Hnear _ _ _ Hb1 Hth1 Hth31 Hlh) as Hx.
      pose proof (rounds_to_monotone _ _ _ _
                    (rounds_to_below_half target_h ltac:(lia)) Hph Hx) as Hp.
      assert (target_h - 2 < ih)%Z; [|lia].
      apply lt_IZR. rewrite minus_IZR. lra. }
  split.
  { (* a source that fits is not reduced *)
    intros Hw Hh.
    assert (1 <= vw) as H1w.
    { apply (rounds_to_monotone 1 (IZR target_w / IZR src_w));
        [exact rounds_to_one|exact Hvw|].
      apply IZR_le in Hw. apply Rmult_le_reg_r with (IZR src_w); [lra|].
      replace (IZR target_w / IZR src_w * IZR src_w) with (IZR target_w)
        by (field; lra). lra. }
    assert (1 <= vh) as H1h.
    { apply (rounds_to_monotone 1 (IZR target_h / IZR src_h));
        [exact rounds_to_one|exact Hvh|].
      apply IZR_le in Hh. apply Rmult_le_reg_r with (IZR src_h); [lra|].
      replace (IZR target_h / IZR src_h * IZR src_h) with (IZR target_h)
        by (field; lra). lra. }
    assert (1 <= vs) as H1s by (destruct Hmin; subst; lra).
    assert (IZR src_w <= pw) as Hpw1.
    { apply (rounds_to_monotone (IZR src_w) (IZR src_w * vs));
        [apply rounds_to_int; lia|exact Hpw|].
      replace (IZR src_w) with (IZR src_w * 1) at 1 by ring.
      apply Rmult_le_compat_l; lra. }
    assert (IZR src_h <= ph) as Hph1.
    { apply (rounds_to_monotone (IZR src_h) (IZR src_h * vs));
        [apply rounds_to_int; lia|exact Hph|].
      replace (IZR src_h) with (IZR src_h * 1) at 1 by ring.
      apply Rmult_le_compat_l; lra. }
    split; apply Z.lt_succ_r, lt_IZR; rewrite succ_IZR; lra. }
  split.
  { (* a source that exceeds the canvas is not enlarged *)
    intros Hex.
    assert (vs <= 1) as H1s.
    { destruct Hex as [Hw|Hh].
      - apply Rle_trans with (1 := Hsw').
        apply (rounds_to_monotone (IZR target_w / IZR src_w) 1);
          [exact Hvw|exact rounds_to_one|].
        apply IZR_le in Hw. apply Rmult_le_reg_r with (IZR src_w); [lra|].
        replace (IZR target_w / IZR src_w * IZR src_w) with (IZR target_w)
          by (field; lra). lra.
      - apply Rle_trans with (1 := Hsh').
        apply (rounds_to_monotone (IZR target_h / IZR src_h) 1);
          [exact Hvh|exact rounds_to_one|].
        apply IZR_le in Hh. apply Rmult_le_reg_r with (IZR src_h); [lra|].
        replace (IZR target_h / IZR src_h * IZR src_h) with (IZR target_h)
          by (field; lra). lra. }
    assert (pw <= IZR src_w) as Hpw1.
    { apply (rounds_to_monotone (IZR src_w * vs) (IZR src_w));
        [exact Hpw|apply rounds_to_int; lia|].
      replace (IZR src_w) with (IZR src_w * 1) at 2 by ring.
      apply Rmult_le_compat_l; lra. }
    assert (ph <= IZR src_h) as Hph1.
    { apply (rounds_to_monotone (IZR src_h * vs) (IZR src_h));
        [exact Hph|apply rounds_to_int; lia|].
      replace (IZR src_h) with (IZR src_h * 1) at 2 by ring.
      apply Rmult_le_compat_l; lra. }
    split; apply le_IZR; lra. }
  (* the proportion of the source *)
  intros Hsmallt.
  assert (bpow (-53) <= 1) as He_le.
  { change 1 with (bpow 0). apply bpow_le. lia. }
  assert (2 * bpow (-53) * (IZR src_w * vs * IZR src_h) <= 1) as HX.
  { assert (IZR src_w * vs * IZR src_h <= bpow 52) as HX.
    { assert (bpow 52 = bpow 20 * 2 * bpow 31) as ->.
      { change 52%Z with (20 + 1 + 31)%Z. rewrite !bpow_add.
        change (bpow 1) with (2 * 1). ring. }
      pose proof (bpow_gt_0 20).
      destruct Hsmallt as [Ht|Ht].
      - assert (IZR target_w <= bpow 20) as Ht20
          by (rewrite bpow_IZR by lia; apply IZR_le; lia).
        assert (IZR src_w * vs <= bpow 20 * 2) as Hx.
        { apply Rle_trans with (IZR target_w * (1 + bpow (-53))).
          - apply Hfar; lra.
          - apply Rmult_le_compat; lra. }
        apply Rmult_le_compat; try lra.
        apply Rmult_le_pos; lra.
      - assert (IZR target_h <= bpow 20) as Ht20
          by (rewrite bpow_IZR by lia; apply IZR_le; lia).
        assert (IZR src_h * vs <= bpow 20 * 2) as Hx.
        { apply Rle_trans with (IZR target_h * (1 + bpow (-53))).
          - apply Hfar; lra.
          - apply Rmult_le_compat; lra. }
        replace (IZR src_w * vs * IZR src_h)
          with (IZR src_h * vs * IZR src_w) by ring.
        apply Rmult_le_compat; try lra.
        apply Rmult_le_pos; lra. }
    assert (2 * bpow (-53) * bpow 52 = 1) as E.
    { change 52%Z with (53 + -1)%Z. rewrite bpow_add.
      change (bpow (-1)) with (/ (2 * 1)).
      replace (2 * bpow (-53) * (bpow 53 * / (2 * 1)))
        with (bpow (-53) * bpow 53) by field.
      exact He1. }
    rewrite <- E. apply Rmult_le_compat_l; lra. }
  split; apply Z.lt_succ_r, lt_IZR;
    rewrite succ_IZR, minus_IZR, !mult_IZR.
  - apply (scaled_cross_bound (IZR src_w) (IZR src_h) vs (bpow (-53)) pw ph);
      lra.
  - apply (scaled_cross_bound (IZR src_h) (IZR src_w) vs (bpow (-53)) ph pw);
      lra.
Qed.

End LetterboxGeometry.

(** What [fit_with_letterbox] returns on valid sides, with the geometry of
    the pasted box; shared by the statements below. *)
Lemma fit_with_letterbox_geometry (img : PIL.image) (target_w target_h : Z)
    (bg : PIL.color) :
  let src := PIL.exif_transpose img in
  let src_w := fst (PIL.size src) in
  let src_h := snd (PIL.size src) in
  valid_side src_w -> valid_side src_h ->
  valid_side target_w -> valid_side target_h ->
  exists new_w new_h canvas,
    photo_formatter.fit_with_letterbox img target_w target_h bg
      = Py.Ok canvas /\
    PIL.content canvas
      = letterboxed bg src new_w new_h
          ((target_w - new_w) / 2) ((target_h - new_h) / 2) /\
    1 <= new_w <= target_w /\ 1 <= new_h <= target_h /\
    (target_w - 1 <= new_w \/ target_h - 1 <= new_h) /\
    (src_w <= target_w -> src_h <= target_h ->
     src_w <= new_w /\ src_h <= new_h) /\
    (target_w <= src_w \/ target_h <= src_h ->
     new_w <= src_w /\ new_h <= src_h) /\
    (target_w <= 2 ^ 20 \/ target_h <= 2 ^ 20 ->
     (new_w = 1 \/ new_w * src_h - new_h * src_w <= src_w) /\
     (new_h = 1 \/ new_h * src_w - new_w * src_h <= src_h)).
Proof.
  intros src src_w src_h Hsw Hsh Htw Hth.
  destruct (fit_with_letterbox_returns img target_w target_h bg
              Hsw Hsh Htw Hth)
    as (scale & new_w & new_h & canvas & Hscale & Hnw & Hnh & Hfit & _ & _ & _
        & Hcontent & Hbox).
  destruct (letterbox_sides_geometry _ _ _ _ Hsw Hsh Htw Hth)
    as (rw & rh & fw & fh & iw & ih & Hrw & Hrh & Hfw & Hiw & Hfh & Hih
        & Hfill & Hfits & Hexc & Hprop).
  fold src src_w src_h in Hscale, Hnw, Hnh, Hcontent.
  unfold letterbox_scale in Hscale. rewrite Hrw, Hrh in Hscale.
  cbn [mbind result_bind Py.bind] in Hscale.
  injection Hscale as <-.
  unfold scaled_side in Hnw, Hnh. rewrite Hfw in Hnw. rewrite Hfh in Hnh.
  cbn [mbind result_bind Py.bind] in Hnw, Hnh.
  rewrite Hiw in Hnw. rewrite Hih in Hnh.
  cbn [mbind result_bind Py.bind] in Hnw, Hnh.
  injection Hnw as <-. injection Hnh as <-.
  exists (Py.max 1 iw), (Py.max 1 ih), canvas.
  split; [exact Hfit|]. split; [exact Hcontent|].
  unfold box_inside in Hbox. unfold valid_side in *.
  assert (1 <= Py.max 1 iw /\ iw <= Py.max 1 iw /\
          (Py.max 1 iw = 1 \/ Py.max 1 iw = iw)) as (Hw1 & Hw2 & Hw3).
  { unfold Py.max. destruct (Z.ltb_spec 1 iw); lia. }
  assert (1 <= Py.max 1 ih /\ ih <= Py.max 1 ih /\
          (Py.max 1 ih = 1 \/ Py.max 1 ih = ih)) as (Hh1 & Hh2 & Hh3).
  { unfold Py.max. destruct (Z.ltb_spec 1 ih); lia. }
  split; [lia|]. split; [lia|].
  split; [lia|].
  split; [intros Hw Hh; specialize (Hfits Hw Hh); lia|].
  split; [intros Hex; specialize (Hexc Hex); lia|].
  intros Hsmall. specialize (Hprop Hsmall). destruct Hprop as [Hp1 Hp2].
  split.
  - destruct Hw3 as [Hw3|Hw3]; [left; exact Hw3|right].
    rewrite Hw3. nia.
  - destruct Hh3 as [Hh3|Hh3]; [left; exact Hh3|right].
    rewrite Hh3. nia.
Qed.

(** The pasted box is centred: on each axis the border before the box and
    the border after it differ by at most one pixel, and the odd pixel
    goes after the box, to the right and to the bottom. *)
Theorem fit_with_letterbox_centred (img : PIL.image) (target_w target_h : Z)
    (bg : PIL.color) :
  let src := PIL.exif_transpose img in
  valid_side (fst (PIL.size src)) -> valid_side (snd (PIL.size src)) ->
  valid_side target_w -> valid_side target_h ->
  exists new_w new_h off_x off_y canvas,
    photo_formatter.fit_with_letterbox img target_w target_h bg
      = Py.Ok canvas /\
    PIL.content canvas = letterboxed bg src new_w new_h off_x off_y /\
    let right := target_w - new_w - off_x in
    let bottom := target_h - new_h - off_y in
    (0 <= off_x /\ off_x <= right /\ right <= off_x + 1) /\
    (0 <= off_y /\ off_y <= bottom /\ bottom <= off_y + 1).
Proof.
  intros src Hsw Hsh Htw Hth.
  destruct (fit_with_letterbox_geometry img target_w target_h bg
              Hsw Hsh Htw Hth)
    as (new_w & new_h & canvas & Hfit & Hcontent & Hw & Hh & _).
  exists new_w, new_h, ((target_w - new_w) / 2), ((target_h - new_h) / 2),
    canvas.
  split; [exact Hfit|]. split; [exact Hcontent|].
  cbv zeta.
  pose proof (Z.div_mod (target_w - new_w) 2 ltac:(lia)) as Ex.
  pose proof (Z.mod_pos_bound (target_w - new_w) 2 ltac:(lia)) as Mx.
  pose proof (Z.div_mod (target_h - new_h) 2 ltac:(lia)) as Ey.
  pose proof (Z.mod_pos_bound (target_h - new_h) 2 ltac:(lia)) as My.
  lia.
Qed.

Lemma fit_with_letterbox_centred_witness :
  exists new_w new_h off_x off_y canvas,
    photo_formatter.fit_with_letterbox (sample_image "a" 1200 800) 1772 1181
      photo_formatter.white = Py.Ok canvas /\
    PIL.content canvas
      = letterboxed photo_formatter.white (sample_image "a" 1200 800)
          new_w new_h off_x off_y /\
    let right := 1772 - new_w - off_x in
    let bottom := 1181 - new_h - off_y in
    (0 <= off_x /\ off_x <= right /\ right <= off_x + 1) /\
    (0 <= off_y /\ off_y <= bottom /\ bottom <= off_y + 1).
Proof.
  apply (fit_with_letterbox_centred (sample_image "a" 1200 800)
           1772 1181 photo_formatter.white);
    unfold valid_side; cbn; lia.
Defined.

(** The resized source reaches the canvas on one axis: in width or in
    height at most one pixel of the canvas is left to the borders. *)
Theorem fit_with_letterbox_fills_one_axis (img : PIL.image)
    (target_w target_h : Z) (bg : PIL.color) :
  let src := PIL.exif_transpose img in
  valid_side (fst (PIL.size src)) -> valid_side (snd (PIL.size src)) ->
  valid_side target_w -> valid_side target_h ->
  exists new_w new_h canvas,
    photo_formatter.fit_with_letterbox img target_w target_h bg
      = Py.Ok canvas /\
    PIL.content canvas
      = letterboxed bg src new_w new_h
          ((target_w - new_w) / 2) ((target_h - new_h) / 2) /\
    new_w <= target_w /\ new_h <= target_h /\
    (target_w - new_w <= 1 \/ target_h - new_h <= 1).
Proof.
  intros src Hsw Hsh Htw Hth.
  destruct (fit_with_letterbox_geometry img target_w target_h bg
              Hsw Hsh Htw Hth)
    as (new_w & new_h & canvas & Hfit & Hcontent & Hw & Hh & Hfill & _).
  exists new_w, new_h, canvas.
  split; [exact Hfit|]. split; [exact Hcontent|]. lia.
Qed.

Lemma fit_with_letterbox_fills_one_axis_witness :
  exists new_w new_h canvas,
    photo_formatter.fit_with_letterbox (sample_image "b" 800 1200) 1772 1181
      photo_formatter.white = Py.Ok canvas /\
    PIL.content canvas
      = letterboxed photo_formatter.white (sample_image "b" 800 1200)
          new_w new_h ((1772 - new_w) / 2) ((1181 - new_h) / 2) /\
    new_w <= 1772 /\ new_h <= 1181 /\
    (1772 - new_w <= 1 \/ 1181 - new_h <= 1).
Proof.
  apply (fit_with_letterbox_fills_one_axis (sample_image "b" 800 1200)
           1772 1181 photo_formatter.white);
    unfold valid_side; cbn; lia.
Defined.

(** A source that fits in the canvas is enlarged or kept, never reduced;
    a source that exceeds the canvas in width or in height is reduced or
    kept, never enlarged. *)
Theorem fit_with_letterbox_scales_towards_canvas (img : PIL.image)
    (target_w target_h : Z) (bg : PIL.color) :
  let src := PIL.exif_transpose img in
  let src_w := fst (PIL.size src) in
  let src_h := snd (PIL.size src) in
  valid_side src_w -> valid_side src_h ->
  valid_side target_w -> valid_side target_h ->
  exists new_w new_h canvas,
    photo_formatter.fit_with_letterbox img target_w target_h bg
      = Py.Ok canvas /\
    PIL.content canvas
      = letterboxed bg src new_w new_h
          ((target_w - new_w) / 2) ((target_h - new_h) / 2) /\
    (src_w <= target_w -> src_h <= target_h ->
     src_w <= new_w /\ src_h <= new_h) /\
    (target_w <= src_w \/ target_h <= src_h ->
     new_w <= src_w /\ new_h <= src_h).
Proof.
  intros src src_w src_h Hsw Hsh Htw Hth.
  destruct (fit_with_letterbox_geometry img target_w target_h bg
              Hsw Hsh Htw Hth)
    as (new_w & new_h & canvas & Hfit & Hcontent & _ & _ & _ & Hfits & Hexc
        & _).
  exists new_w, new_h, canvas. auto.
Qed.

Lemma fit_with_letterbox_scales_towards_canvas_witness :
  exists new_w new_h canvas,
    photo_formatter.fit_with_letterbox (sample_image "a" 1200 800) 1772 1181
      photo_formatter.white = Py.Ok canvas /\
    PIL.content canvas
      = letterboxed photo_formatter.white (sample_image "a" 1200 800)
          new_w new_h ((1772 - new_w) / 2) ((1181 - new_h) / 2) /\
    (1200 <= 1772 -> 800 <= 1181 -> 1200 <= new_w /\ 800 <= new_h) /\
    (1772 <= 1200 \/ 1181 <= 800 -> new_w <= 1200 /\ new_h <= 800).
Proof.
  apply (fit_with_letterbox_scales_towards_canvas
           (sample_image "a" 1200 800) 1772 1181 photo_formatter.white);
    unfold valid_side; cbn; lia.
Defined.

(** A source that has the size of the canvas is pasted at its own size
    at the origin: no border is added and no side is changed. *)
Theorem fit_with_letterbox_canvas_sized_source (img : PIL.image)
    (target_w target_h : Z) (bg : PIL.color) :
  let src := PIL.exif_transpose img in
  PIL.size src = (target_w, target_h) ->
  valid_side target_w -> valid_side target_h ->
  exists canvas,
    photo_formatter.fit_with_letterbox img target_w target_h bg
      = Py.Ok canvas /\
    PIL.content canvas = letterboxed bg src target_w target_h 0 0.
Proof.
  intros src Hsize Htw Hth.
  destruct (fit_with_letterbox_geometry img target_w target_h bg)
    as (new_w & new_h & canvas & Hfit & Hcontent & Hw & Hh & _ & Hfits & _);
    try (fold src; rewrite Hsize; assumption); try assumption.
  fold src in Hfits, Hcontent. rewrite Hsize in Hfits. cbn [fst snd] in Hfits.
  destruct Hfits as [Hw' Hh']; [lia|lia|].
  assert (new_w = target_w) as -> by lia.
  assert (new_h = target_h) as -> by lia.
  rewrite !Z.sub_diag in Hcontent. change (0 / 2) with 0 in Hcontent.
  exists canvas. auto.
Qed.

Lemma fit_with_letterbox_canvas_sized_source_witness :
  exists canvas,
    photo_formatter.fit_with_letterbox (sample_image "a" 1772 1181) 1772 1181
      photo_formatter.white = Py.Ok canvas /\
    PIL.content canvas
    = letterboxed photo_formatter.white (sample_image "a" 1772 1181)
        1772 1181 0 0.
Proof.
  apply (fit_with_letterbox_canvas_sized_source (sample_image "a" 1772 1181)
           1772 1181 photo_formatter.white);
    [reflexivity|unfold valid_side; lia|unfold valid_side; lia].
Defined.

(** The resized source keeps the proportion of the source up to one
    pixel: on a canvas with a side of at most [2^20] pixels, the cross
    products [new_w * src_h] and [new_h * src_w] differ by at most one
    source side, unless the side was raised to the minimum of one pixel. *)
Theorem fit_with_letterbox_keeps_proportion (img : PIL.image)
    (target_w target_h : Z) (bg : PIL.color) :
  let src := PIL.exif_transpose img in
  let src_w := fst (PIL.size src) in
  let src_h := snd (PIL.size src) in
  valid_side src_w -> valid_side src_h ->
  valid_side target_w -> valid_side target_h ->
  target_w <= 2 ^ 20 \/ target_h <= 2 ^ 20 ->
  exists new_w new_h canvas,
    photo_formatter.fit_with_letterbox img target_w target_h bg
      = Py.Ok canvas /\
    PIL.content canvas
      = letterboxed bg src new_w new_h
          ((target_w - new_w) / 2) ((target_h - new_h) / 2) /\
    (new_w = 1 \/ new_w * src_h - new_h * src_w <= src_w) /\
    (new_h = 1 \/ new_h * src_w - new_w * src_h <= src_h).
Proof.
  intros src src_w src_h Hsw Hsh Htw Hth Hsmall.
  destruct (fit_with_letterbox_geometry img target_w target_h bg
              Hsw Hsh Htw Hth)
    as (new_w & new_h & canvas & Hfit & Hcontent & _ & _ & _ & _ & _ & Hprop).
  exists new_w, new_h, canvas. auto.
Qed.

Lemma fit_with_letterbox_keeps_proportion_witness :
  exists new_w new_h canvas,
    photo_formatter.fit_with_letterbox (sample_image "b" 800 1200) 1772 1181
      photo_formatter.white = Py.Ok canvas /\
    PIL.content canvas
      = letterboxed photo_formatter.white (sample_image "b" 800 1200)
          new_w new_h ((1772 - new_w) / 2) ((1181 - new_h) / 2) /\
    (new_w = 1 \/ new_w * 1200 - new_h * 800 <= 800) /\
    (new_h = 1 \/ new_h * 800 - new_w * 1200 <= 1200).
Proof.
  apply (fit_with_letterbox_keeps_proportion (sample_image "b" 800 1200)
           1772 1181 photo_formatter.white);
    unfold valid_side; cbn; lia.
Defined.

(** ** Every run of the batch driver *)

(** The flag is first seen set at some read, or at none of a run. *)
Lemma first_stop (flag : nat -> bool) (n len : nat) :
  exists k, (k <= len)%nat /\
            (forall i, (i < k)%nat -> flag (n + i)%nat = false) /\
            ((k < len)%nat -> flag (n + k)%nat = true).
Proof.
  induction len as [|len (k & Hk & Hrun & Hstop)].
  - exists 0%nat. split; [lia|]. split; intros; lia.
  - destruct (decide (k < len)%nat) as [Hlt|Hge].
    + exists k. split; [lia|]. split; [exact Hrun|]. intros _. auto.
    + assert (k = len) as -> by lia.
      destruct (flag (n + len)%nat) eqn:E.
      * exists len. split; [lia|]. split; [exact Hrun|]. intros _. exact E.
      * exists (S len). split; [lia|]. split; [|lia].
        intros i Hi. destruct (decide (i = len)) as [->|Hne]; [exact E|].
        apply Hrun. lia.
Qed.

(** A run processes a prefix of the eligible files, whatever the flag
    does. *)
Lemma process_all_run (w : App.world) (self : App.app)
    (tree : list App.path) (dpi : Z) :
  let files := List.filter App.supported tree in
  files <> [] ->
  exists (k : nat) (stopped : bool),
    (k <= length files)%nat /\
    let o := outcomes w dpi (App.out_dir self) (take k files) in
    let self' := App.process_all w self tree dpi in
    App.log self' = App.log self ++ fst o /\
    App.out_dir self' = snd o /\
    App.progress_maximum self' = length files /\
    App.progress_value self' = k /\
    App.status_var self'
    = App.Final stopped (count is_OK (fst o)) (count is_SKIP (fst o))
        (count is_ERR (fst o)).
Proof.
  intros files Hne.
  destruct (first_stop (App.stop_flag w) (App.reads self) (length files))
    as (k & Hk & Hrun & Hstop).
  exists k. eexists. split; [exact Hk|].
  exact (process_all_spec w self tree dpi k Hne Hk Hrun Hstop).
Qed.

(** A run never changes, replaces or removes a file that is in the
    output directory when it starts, whatever the files, the DPI, the
    failures and the flag are. *)
Theorem process_all_keeps_stored_files (w : App.world) (self : App.app)
    (tree : list App.path) (dpi : Z) :
  keeps (App.out_dir self) (App.out_dir (App.process_all w self tree dpi)).
Proof.
  destruct (decide (List.filter App.supported tree = [])) as [E|Hne].
  - unfold App.process_all. rewrite E. cbn. apply keeps_refl.
  - destruct (process_all_run w self tree dpi Hne)
      as (k & stopped & _ & _ & -> & _).
    apply outcomes_keeps.
Qed.






(** A conversion writes at the name picked for the file and nowhere
    else. *)
Lemma convert_elsewhere (w : App.world) (dpi : Z)
    (d : gmap string App.stored) (f : App.path) (n : string) :
  n <> App.unique_dest d (App.stem f) ->
  fst (App.convert w dpi d f) !! n = d !! n.
Proof.
  intros Hn. unfold App.convert.
  destruct (_ ≫= _) as [[im canvas]|e]; [|reflexivity].
  cbv zeta. rewrite save_fresh by apply unique_dest_free.
  destruct (App.image_save w _ canvas _); cbn [fst];
    rewrite ?lookup_insert_ne by congruence; reflexivity.
Qed.

Lemma outcomes_changes (w : App.world) (dpi : Z) (files : list App.path) :
  forall d n,
    snd (outcomes w dpi d files) !! n <> d !! n ->
    exists f j, f ∈ files /\ n = candidate (App.stem f) j /\ d !! n = None.
Proof.
  induction files as [|f rest IH]; intros d n; cbn [outcomes].
  - cbn. intros H. contradiction.
  - assert (n <> App.unique_dest d (App.stem f) ->
            snd (outcome w dpi d f) !! n = d !! n) as H1.
    { intros Hn. unfold outcome.
      destruct (App.is_heic f && negb (App.heif_ok w)); [reflexivity|].
      pose proof (convert_elsewhere w dpi d f n Hn) as H.
      destruct (App.convert w dpi d f) as [d' [dest|e]]; exact H. }
    pose proof (outcome_keeps w dpi d f) as Hk.
    destruct (outcome w dpi d f) as [l d1]. cbn [snd] in H1, Hk.
    specialize (IH d1 n). destruct (outcomes w dpi d1 rest) as [ls d2].
    cbn [snd] in *. intros Hchg.
    destruct (decide (n = App.unique_dest d (App.stem f))) as [->|Hne].
    + destruct (unique_dest_spec d (App.stem f)) as (j & Ej & Hfree & _).
      exists f, j. split; [left|]. split; [exact Ej|].
      apply unique_dest_free.
    + rewrite <- (H1 Hne) in Hchg.
      destruct (IH Hchg) as (f' & j & Hin & -> & Hnone).
      exists f', j. split; [right; exact Hin|]. split; [reflexivity|].
      rewrite <- (H1 Hne). exact Hnone.
Qed.

(** A run touches nothing but what the filter lets through: every line
    it logs is about an eligible file of the tree, and every name at which
    the output directory has changed was free before and is a name
    [stem_10x15.jpg] or [stem_10x15_k.jpg] of the stem of such a file. *)
Theorem process_all_only_eligible_files (w : App.world) (self : App.app)
    (tree : list App.path) (dpi : Z) :
  let self' := App.process_all w self tree dpi in
  Forall (fun l => exists f, f ∈ tree /\ App.supported f = true /\
                             subject l = App.name f)
         (new_lines self self') /\
  (forall n, App.out_dir self' !! n <> App.out_dir self !! n ->
     exists f j, f ∈ tree /\ App.supported f = true /\
                 n = candidate (App.stem f) j /\
                 App.out_dir self !! n = None).
Proof.
  intros self'.
  destruct (decide (List.filter App.supported tree = [])) as [E|Hne].
  { unfold self', new_lines, App.process_all. rewrite E. cbn.
    rewrite drop_all. split; [constructor|]. intros n H. contradiction. }
  destruct (process_all_run w self tree dpi Hne)
    as (k & stopped & Hk & Hlog & Hdir & _).
  fold self' in Hlog, Hdir.
  set (files := List.filter App.supported tree) in *.
  assert (forall f, f ∈ take k files -> f ∈ tree /\ App.supported f = true)
    as Hsub.
  { intros f Hin. apply subseteq_take in Hin.
    apply list_elem_of_In, filter_In in Hin. destruct Hin as [Hin Hs].
    split; [apply list_elem_of_In; exact Hin|exact Hs]. }
  split.
  - unfold new_lines. rewrite Hlog, drop_app_length.
    pose proof (outcomes_recorded w dpi (take k files) (App.out_dir self))
      as Hrec.
    eapply Forall2_Forall_r; [exact Hrec|].
    apply Forall_forall. intros f Hin l [d ->]. exists f.
    destruct (Hsub f Hin). auto using outcome_subject.
  - intros n Hn. rewrite Hdir in Hn.
    destruct (outcomes_changes w dpi (take k files) _ n Hn)
      as (f & j & Hin & -> & Hnone).
    exists f, j. destruct (Hsub f Hin). auto.
Qed.

(** ** Pixel lengths of integer lengths *)

Section PixelLengths.

Local Open Scope R_scope.

Local Abbreviation bpow e := (powerRZ 2 e).

(** The quotient of two finite floats is correctly rounded when it is not
    subnormal. *)
Lemma SFdiv_finite_rounds (sx sy : bool) (mx my : positive) (ex ey : Z) :
  (-1074 < Zpos (digits2_pos mx) + ex - (Zpos (digits2_pos my) + ey))%Z ->
  exists v,
    rounds_to (F2R (Zpos mx) ex / F2R (Zpos my) ey) v /\
    carries (SFdiv Py.prec Py.emax (S754_finite sx mx ex) (S754_finite sy my ey))
            (xorb sx sy) v.
Proof.
  intros Hnorm. cbn [SFdiv].
  destruct (SFdiv_core_binary_spec mx my ex ey)
    as (q & e' & l & x & -> & Hloc & Hval & He & _ & Hpos).
  specialize (Hpos Hnorm). destruct q as [|qq|qq]; try lia.
  destruct (binary_round_aux_spec (xorb sx sy) qq e' l x Hloc He)
    as (v & Hr & Hc).
  exists v. rewrite Hval in Hr. auto.
Qed.

(** The literal [2.54] is the float [5719571526760530 * 2^-51], slightly
    above 254/100. *)
Lemma lit_2_54_value :
  let y := F2R 5719571526760530 (-51) in
  0 < y /\ y <= 3 /\ 254 <= 100 * y /\ 100 * y * (1 - bpow (-53)) <= 254.
Proof.
  cbv zeta. unfold F2R.
  assert (bpow (-51) = / IZR (2 ^ 51)) as ->.
  { change (bpow (-51)) with (bpow (Z.opp 51)). rewrite bpow_opp, bpow_IZR by lia.
    reflexivity. }
  assert (bpow (-53) = / IZR (2 ^ 53)) as ->.
  { change (bpow (-53)) with (bpow (Z.opp 53)). rewrite bpow_opp, bpow_IZR by lia.
    reflexivity. }
  change (2 ^ 51)%Z with 2251799813685248%Z.
  change (2 ^ 53)%Z with 9007199254740992%Z.
  repeat split; lra.
Qed.

Lemma cm_to_px_nearest (cm dpi : Z) :
  (0 < cm)%Z -> (0 < dpi)%Z -> (cm * dpi <= 2 ^ 44)%Z ->
  exists px, photo_formatter.cm_to_px (Py.Int cm) dpi = Py.Ok px /\
             nearest_to_exact cm dpi px.
Proof.
  intros Hcm Hdpi Hprod.
  assert (cm <= 2 ^ 44 /\ dpi <= 2 ^ 44)%Z as [Hcm44 Hdpi44] by nia.
  assert (2 ^ 44 < 2 ^ 53)%Z as H4453 by (apply Z.pow_lt_mono_r; lia).
  unfold photo_formatter.cm_to_px. cbn [Py.to_float].
  destruct (float_of_int_exact cm) as (fc & Hfc & Hcc); [lia|].
  destruct (float_of_int_exact dpi) as (fd & Hfd & Hcd); [lia|].
  rewrite Hfc. cbn [mbind result_bind Py.bind].
  assert (1 <= IZR cm) as Hc1 by (apply IZR_le; lia).
  assert (1 <= IZR dpi) as Hd1 by (apply IZR_le; lia).
  assert (IZR cm <= bpow 53) as Hc53
    by (rewrite bpow_IZR by lia; apply IZR_le; lia).
  assert (IZR dpi <= bpow 53) as Hd53
    by (rewrite bpow_IZR by lia; apply IZR_le; lia).
  assert (bpow 53 < bpow 1024) as H53 by (apply bpow_lt; lia).
  destruct (carries_positive fc (IZR cm) Hcc) as (m & e & -> & Hb);
    [lra|lra|].
  cbn [carries] in Hcc. destruct Hcc as (_ & _ & Evc).
  (* the quotient *)
  assert (1 <= Zpos (digits2_pos m) + e)%Z as Hmag.
  { pose proof (F2R_magnitude m e) as [_ Hhi]. rewrite Evc in Hhi.
    assert (0 < Zpos (digits2_pos m) + e)%Z; [|lia].
    apply bpow_lt_inv. change (bpow 0) with 1. lra. }
  destruct (SFdiv_finite_rounds false false m 5719571526760530 e (-51))
    as (vq & Hrq & Hcq).
  { change (Zpos (digits2_pos 5719571526760530) + -51)%Z with 2%Z. lia. }
  rewrite Evc in Hrq. cbn [xorb] in Hcq.
  unfold Py.float_truediv, Py.lit_2_54. cbn [mbind result_bind Py.bind].
  rewrite Hfd. cbn [mbind result_bind Py.bind].
  pose proof lit_2_54_value as (Hy0 & Hy3 & Hy1 & Hy2).
  cbv zeta in Hy0, Hy3, Hy1, Hy2.
  set (y := F2R 5719571526760530 (-51)) in *.
  pose proof bpow_m53_small as [He0 He1].
  assert (bpow (-53) <= / 2) as Hehalf.
  { apply Rle_trans with (bpow (-1)); [apply bpow_le; lia|].
    change (bpow (-1)) with (/ (2 * 1)). lra. }
  set (eps := bpow (-53)) in *.
  assert (y <= 4) as Hy4 by lra.
  assert (/ 4 <= IZR cm / y) as Hq4.
  { apply Rmult_le_reg_r with y; [lra|].
    replace (IZR cm / y * y) with (IZR cm) by (field; lra). lra. }
  assert (bpow (-1022) <= / 8) as Hn4.
  { apply Rle_trans with (bpow (-3)); [apply bpow_le; lia|].
    change (bpow (-3)) with (/ (2 * (2 * (2 * 1)))). lra. }
  pose proof (rounds_to_upper _ _ Hrq ltac:(lra)) as Huq.
  pose proof (rounds_to_lower _ _ Hrq ltac:(lra)) as Hlq.
  fold eps in Huq, Hlq.
  assert (vq * y <= IZR cm * (1 + eps)) as Huq'.
  { replace (IZR cm * (1 + eps)) with (IZR cm / y * (1 + eps) * y)
      by (field; lra).
    apply Rmult_le_compat_r; lra. }
  assert (IZR cm * (1 - eps) <= vq * y) as Hlq'.
  { replace (IZR cm * (1 - eps)) with (IZR cm / y * (1 - eps) * y)
      by (field; lra).
    apply Rmult_le_compat_r; lra. }
  assert (/ 8 <= vq) as Hvq8.
  { apply Rle_trans with (2 := Hlq).
    apply Rle_trans with (/ 4 * (1 - eps)); [lra|].
    apply Rmult_le_compat_r; lra. }
  assert (vq <= bpow 54) as Hvq54.
  { apply Rle_trans with (1 := Huq).
    apply Rle_trans with (bpow 53 * 2).
    - apply Rmult_le_compat; try lra.
      apply Rmult_le_reg_r with y; [lra|].
      replace (IZR cm / y * y) with (IZR cm) by (field; lra).
      pose proof (bpow_gt_0 53). nra.
    - change 54%Z with (53 + 1)%Z. rewrite bpow_add.
      change (bpow 1) with (2 * 1). lra. }
  assert (vq < bpow 1024) as Hvqfin.
  { apply Rle_lt_trans with (1 := Hvq54). apply bpow_lt. lia. }
  (* the product *)
  destruct (float_mul_nonneg_spec _ fd vq (IZR dpi) Hcq Hcd Hvqfin ltac:(lra))
    as (p & Hrp & Hcp).
  assert (/ 8 <= vq * IZR dpi) as Hp8.
  { replace (/ 8) with (/ 8 * 1) by ring. apply Rmult_le_compat; lra. }
  destruct Hrp as [[Hz _]|Hrp]; [lra|].
  assert (bpow (-1022) <= vq * IZR dpi) as Hnp by lra.
  pose proof (rounds_to_upper _ _ Hrp Hnp) as Hup.
  pose proof (rounds_to_lower _ _ Hrp Hnp) as Hlp.
  fold eps in Hup, Hlp.
  assert (p < bpow 1024) as Hpfin.
  { apply Rle_lt_trans with (1 := Hup).
    apply Rle_lt_trans with (bpow 54 * bpow 53 * 2).
    - apply Rmult_le_compat; try lra.
      apply Rmult_le_compat; lra.
    - replace (bpow 54 * bpow 53 * 2) with (bpow (54 + 53 + 1))
        by (rewrite !bpow_add; change (bpow 1) with (2 * 1); ring).
      apply bpow_lt. lia. }
  destruct (round_spec _ p Hcp Hpfin) as (px & Hpx & [[Hnl Hnu] _]).
  exists px. split; [exact Hpx|].
  (* the distance to the exact quotient *)
  set (X := IZR cm * IZR dpi).
  assert (1 <= X) as HX1.
  { unfold X. replace 1 with (1 * 1) by ring. apply Rmult_le_compat; lra. }
  assert (300 * (X * eps) < 1) as HXe.
  { assert (X <= IZR (2 ^ 44)) as HX44.
    { unfold X. rewrite <- mult_IZR. apply IZR_le. exact Hprod. }
    assert (eps = / IZR (2 ^ 53)) as ->.
    { unfold eps. change (bpow (-53)) with (bpow (Z.opp 53)).
      rewrite bpow_opp, bpow_IZR by lia. reflexivity. }
    change (2 ^ 44)%Z with 17592186044416%Z in HX44.
    change (2 ^ 53)%Z with 9007199254740992%Z.
    apply Rmult_lt_reg_r with 9007199254740992; [lra|].
    replace (300 * (X * / 9007199254740992) * 9007199254740992)
      with (300 * X) by (field; lra).
    lra. }
  set (T := X * eps) in *.
  assert (0 <= T) as HT0 by (unfold T; apply Rmult_le_pos; lra).
  assert (T * eps <= T) as HTe.
  { replace T with (T * 1) at 2 by ring. apply Rmult_le_compat_l; lra. }
  assert (0 <= T * eps) as HTe0 by (apply Rmult_le_pos; lra).
  assert (p * y <= X + 3 * T) as Hpy_up.
  { apply Rle_trans with (vq * IZR dpi * (1 + eps) * y).
    - apply Rmult_le_compat_r; lra.
    - apply Rle_trans with (IZR cm * (1 + eps) * IZR dpi * (1 + eps)).
      + replace (vq * IZR dpi * (1 + eps) * y)
          with (vq * y * IZR dpi * (1 + eps)) by ring.
        apply Rmult_le_compat_r; [lra|].
        apply Rmult_le_compat_r; lra.
      + replace (IZR cm * (1 + eps) * IZR dpi * (1 + eps))
          with (X + 2 * T + T * eps) by (unfold T, X; ring).
        lra. }
  assert (X - 2 * T <= p * y) as Hpy_lo.
  { apply Rle_trans with (vq * IZR dpi * (1 - eps) * y).
    - apply Rle_trans with (IZR cm * (1 - eps) * IZR dpi * (1 - eps)).
      + replace (IZR cm * (1 - eps) * IZR dpi * (1 - eps))
          with (X - 2 * T + T * eps) by (unfold T, X; ring).
        lra.
      + replace (vq * IZR dpi * (1 - eps) * y)
          with (vq * y * IZR dpi * (1 - eps)) by ring.
        apply Rmult_le_compat_r; [lra|].
        apply Rmult_le_compat_r; lra.
    - apply Rmult_le_compat_r; lra. }
  assert (0 < p) as Hp0.
  { apply Rlt_le_trans with (2 := Hlp). apply Rmult_lt_0_compat; lra. }
  assert (254 * p <= 100 * (p * y)) as H254_up.
  { replace (100 * (p * y)) with (p * (100 * y)) by ring.
    replace (254 * p) with (p * 254) by ring.
    apply Rmult_le_compat_l; lra. }
  assert (100 * (p * y) * (1 - eps) <= 254 * p) as H254_lo.
  { replace (100 * (p * y) * (1 - eps)) with (p * (100 * y * (1 - eps)))
      by ring.
    replace (254 * p) with (p * 254) by ring.
    apply Rmult_le_compat_l; lra. }
  assert (254 * p - 100 * X < 1 /\ 100 * X - 254 * p < 1) as [Hd1' Hd2'].
  { split.
    - lra.
    - assert ((X - 2 * T) * (1 - eps) <= p * y * (1 - eps)) as H1.
      { apply Rmult_le_compat_r; lra. }
      replace ((X - 2 * T) * (1 - eps)) with (X - 3 * T + 2 * (T * eps)) in H1
        by (unfold T; ring).
      lra. }
  (* back to the integers *)
  unfold nearest_to_exact.
  assert (-128 < 254 * px - 100 * cm * dpi < 128)%Z as Hint.
  { split; apply lt_IZR;
      rewrite minus_IZR, !mult_IZR; fold X;
      replace (IZR 100 * IZR cm * IZR dpi) with (100 * X) by (unfold X; ring);
      [change (IZR (-128)) with (-128)|]; lra. }
  replace (100 * cm * dpi)%Z with (2 * (50 * (cm * dpi)))%Z in * by ring.
  lia.
Qed.

End PixelLengths.

(** For a positive integer length and a positive DPI whose product is at
    most [2^44], [cm_to_px] returns the integer nearest to the exact
    quotient [length_cm * dpi / 2.54]: the three roundings of the float
    computation never move the result to a neighbouring pixel count. *)
Theorem cm_to_px_nearest_integer (cm dpi : Z) :
  0 < cm -> 0 < dpi -> cm * dpi <= 2 ^ 44 ->
  exists px, photo_formatter.cm_to_px (Py.Int cm) dpi = Py.Ok px /\
             nearest_to_exact cm dpi px.
Proof. exact (cm_to_px_nearest cm dpi). Qed.

Lemma cm_to_px_nearest_integer_witness :
  exists px, photo_formatter.cm_to_px (Py.Int 21) 2400 = Py.Ok px /\
             nearest_to_exact 21 2400 px.
Proof. apply (cm_to_px_nearest_integer 21 2400); lia. Defined.

(** At a fixed DPI a longer integer length never gives fewer pixels. *)
Theorem cm_to_px_monotone_in_length (cm1 cm2 dpi : Z) :
  0 < cm1 <= cm2 -> 0 < dpi -> cm2 * dpi <= 2 ^ 44 ->
  exists px1 px2,
    photo_formatter.cm_to_px (Py.Int cm1) dpi = Py.Ok px1 /\
    photo_formatter.cm_to_px (Py.Int cm2) dpi = Py.Ok px2 /\
    px1 <= px2.
Proof.
  intros Hcm Hdpi Hprod.
  destruct (cm_to_px_nearest cm1 dpi) as (px1 & H1 & N1); [lia|lia|nia|].
  destruct (cm_to_px_nearest cm2 dpi) as (px2 & H2 & N2); [lia|lia|lia|].
  exists px1, px2. split; [exact H1|]. split; [exact H2|].
  unfold nearest_to_exact in *.
  assert (cm1 * dpi <= cm2 * dpi) by nia.
  replace (100 * cm1 * dpi) with (100 * (cm1 * dpi)) in N1 by ring.
  replace (100 * cm2 * dpi) with (100 * (cm2 * dpi)) in N2 by ring.
  lia.
Qed.

Lemma cm_to_px_monotone_in_length_witness :
  exists px1 px2,
    photo_formatter.cm_to_px (Py.Int 10) 300 = Py.Ok px1 /\
    photo_formatter.cm_to_px (Py.Int 15) 300 = Py.Ok px2 /\
    px1 <= px2.
Proof. apply (cm_to_px_monotone_in_length 10 15 300); lia. Defined.

(** At every positive DPI up to [2^40] the canvas has the orientation of
    the image, strictly: wider than high for a landscape or square image,
    higher than wide for a portrait one; and its sides are in the ratio
    3 to 2 up to the rounding of each side. *)
Theorem compute_target_canvas_shape (img_w img_h dpi : Z) :
  0 < dpi <= 2 ^ 40 ->
  exists tw th,
    photo_formatter.compute_target_canvas img_w img_h dpi = Py.Ok (tw, th) /\
    (img_h <= img_w -> th < tw /\ Z.abs (2 * tw - 3 * th) <= 2) /\
    (img_w < img_h -> tw < th /\ Z.abs (2 * th - 3 * tw) <= 2).
Proof.
  intros Hdpi.
  destruct (cm_to_px_nearest 15 dpi) as (long & Hlong & Nlong); [lia|lia|lia|].
  destruct (cm_to_px_nearest 10 dpi) as (short & Hshort & Nshort);
    [lia|lia|lia|].
  unfold nearest_to_exact in *. unfold photo_formatter.compute_target_canvas.
  destruct (Z.geb_spec img_w img_h) as [Hge|Hlt];
    rewrite Hlong, Hshort; cbn [mbind result_bind Py.bind].
  - exists long, short. split; [reflexivity|]. split; [|lia].
    intros _. lia.
  - exists short, long. split; [reflexivity|]. split; [lia|].
    intros _. lia.
Qed.

Lemma compute_target_canvas_shape_witness :
  exists tw th,
    photo_formatter.compute_target_canvas 800 1200 300 = Py.Ok (tw, th) /\
    (1200 <= 800 -> th < tw /\ Z.abs (2 * tw - 3 * th) <= 2) /\
    (800 < 1200 -> tw < th /\ Z.abs (2 * th - 3 * tw) <= 2).
Proof. apply (compute_target_canvas_shape 800 1200 300); lia. Defined.

(** [cm_to_px] is odd in the DPI: at the negated DPI it returns the
    negated pixel count, and raises exactly where it raises at the DPI
    itself; at DPI 0 it returns 0 whenever it returns. *)
Theorem cm_to_px_odd_in_dpi (cm : Py.num) (dpi : Z) :
  photo_formatter.cm_to_px cm (- dpi)
  = (photo_formatter.cm_to_px cm dpi ≫= fun px => Py.Ok (- px)) /\
  (forall px, photo_formatter.cm_to_px cm 0 = Py.Ok px -> px = 0).
Proof.
  assert (forall px, photo_formatter.cm_to_px cm 0 = Py.Ok px -> px = 0)
    as Hzero.
  { intros px. unfold photo_formatter.cm_to_px.
    destruct (Py.to_float cm) as [c|e]; [|discriminate].
    cbn [mbind result_bind Py.bind].
    destruct (Py.float_truediv c Py.lit_2_54) as [inches|e]; [|discriminate].
    cbn [mbind result_bind Py.bind].
    change (Py.float_of_int 0) with (Py.Ok (S754_zero false)).
    cbn [mbind result_bind Py.bind].
    destruct inches; cbn; intros H; try discriminate; congruence. }
  split; [|exact Hzero].
  destruct (Z.lt_trichotomy dpi 0) as [Hneg|[->|Hpos]].
  - pose proof (cm_to_px_opp cm (- dpi) ltac:(lia)) as H.
    rewrite Z.opp_involutive in H. rewrite H.
    destruct (photo_formatter.cm_to_px cm (- dpi)) as [px|e];
      cbn [mbind result_bind Py.bind]; [|reflexivity].
    rewrite Z.opp_involutive. reflexivity.
  - change (- 0) with 0.
    destruct (photo_formatter.cm_to_px cm 0) as [px|e] eqn:E;
      cbn [mbind result_bind Py.bind]; [|reflexivity].
    rewrite (Hzero px eq_refl). reflexivity.
  - apply cm_to_px_opp. exact Hpos.
Qed.

(** ** One conversion, end to end *)

(** At the DPIs [start] accepts the canvas has between 283 and 7087
    pixels a side. *)
Lemma compute_target_canvas_bounds (img_w img_h dpi : Z) :
  72 <= dpi <= 1200 ->
  exists tw th,
    photo_formatter.compute_target_canvas img_w img_h dpi = Py.Ok (tw, th) /\
    283 <= tw <= 7087 /\ 283 <= th <= 7087.
Proof.
  intros Hdpi.
  destruct (cm_to_px_nearest 15 dpi) as (long & Hlong & Nlong); [lia|lia|lia|].
  destruct (cm_to_px_nearest 10 dpi) as (short & Hshort & Nshort);
    [lia|lia|lia|].
  unfold nearest_to_exact in *. unfold photo_formatter.compute_target_canvas.
  destruct (img_w >=? img_h);
    rewrite Hlong, Hshort; cbn [mbind result_bind Py.bind];
    eexists _, _; (split; [reflexivity|lia]).
Qed.

(** For a valid file at an accepted DPI the conversion stores, under the
    name the namer picks, the source letterboxed on its print canvas: the
    canvas [compute_target_canvas] gives for the oriented source, filled
    with white, with the oriented source resized in proportion, centred,
    and reaching the canvas on one axis; it is saved with the keywords of
    [save_args], at the DPI of the run and with the EXIF block of the
    oriented source. *)
Theorem convert_stores_letterboxed_source (w : App.world) (dpi : Z)
    (d : gmap string App.stored) (f : App.path) :
  72 <= dpi <= 1200 -> valid_file w f ->
  exists img tw th new_w new_h canvas,
    let src := PIL.exif_transpose img in
    let src_w := fst (PIL.size src) in
    let src_h := snd (PIL.size src) in
    App.image_open w f = Py.Ok img /\
    photo_formatter.compute_target_canvas src_w src_h dpi = Py.Ok (tw, th) /\
    App.convert w dpi d f
    = (<[App.unique_dest d (App.stem f)
         := App.Complete canvas (App.save_args dpi (PIL.exif src))]> d,
       Py.Ok (App.unique_dest d (App.stem f))) /\
    PIL.size canvas = (tw, th) /\
    PIL.content canvas
    = letterboxed photo_formatter.white src new_w new_h
        ((tw - new_w) / 2) ((th - new_h) / 2) /\
    1 <= new_w <= tw /\ 1 <= new_h <= th /\
    (tw - new_w <= 1 \/ th - new_h <= 1) /\
    (new_w = 1 \/ new_w * src_h - new_h * src_w <= src_w) /\
    (new_h = 1 \/ new_h * src_w - new_w * src_h <= src_h).
Proof.
  intros Hdpi (_ & (img & Hopen & Hvalid) & Hsave).
  apply exif_transpose_valid in Hvalid. destruct Hvalid as [Hvw Hvh].
  destruct (compute_target_canvas_bounds
              (fst (PIL.size (PIL.exif_transpose img)))
              (snd (PIL.size (PIL.exif_transpose img))) dpi Hdpi)
    as (tw & th & Hcanvas & Htw & Hth).
  assert (valid_side tw /\ valid_side th) as [Hvtw Hvth].
  { unfold valid_side. split; lia. }
  destruct (fit_with_letterbox_returns (PIL.exif_transpose img) tw th
              photo_formatter.white)
    as (scale & nw & nh & canvas & _ & _ & _ & Hfit & Hsz & _);
    try (rewrite exif_transpose_idem; assumption); try assumption.
  destruct (fit_with_letterbox_geometry (PIL.exif_transpose img) tw th
              photo_formatter.white)
    as (new_w & new_h & canvas' & Hfit' & Hcontent & Hw & Hh & Hfill & _ & _
        & Hprop);
    try (rewrite exif_transpose_idem; assumption); try assumption.
  rewrite Hfit in Hfit'. injection Hfit' as <-.
  rewrite exif_transpose_idem in Hcontent, Hprop.
  exists img, tw, th, new_w, new_h, canvas. cbv zeta.
  split; [exact Hopen|]. split; [exact Hcanvas|].
  split.
  { unfold App.convert. rewrite Hopen. cbn [mbind result_bind Py.bind].
    destruct (PIL.size (PIL.exif_transpose img)) as [iw ih] eqn:Esize.
    cbn [fst snd] in Hcanvas. rewrite Hcanvas.
    cbn [mbind result_bind Py.bind]. rewrite Hfit.
    cbn [mbind result_bind Py.bind]. cbv zeta.
    rewrite save_fresh by apply unique_dest_free. rewrite Hsave.
    reflexivity. }
  split; [exact Hsz|]. split; [exact Hcontent|].
  split; [exact Hw|]. split; [exact Hh|].
  split; [lia|]. apply Hprop. left. lia.
Qed.

Lemma convert_stores_letterboxed_source_witness :
  exists img tw th new_w new_h canvas,
    let src := PIL.exif_transpose img in
    let src_w := fst (PIL.size src) in
    let src_h := snd (PIL.size src) in
    App.image_open (sample_world true never App.Written)
      (sample_path "b" ".png") = Py.Ok img /\
    photo_formatter.compute_target_canvas src_w src_h 300 = Py.Ok (tw, th) /\
    App.convert (sample_world true never App.Written) 300 ∅
      (sample_path "b" ".png")
    = (<[App.unique_dest ∅ (App.stem (sample_path "b" ".png"))
         := App.Complete canvas (App.save_args 300 (PIL.exif src))]> ∅,
       Py.Ok (App.unique_dest ∅ (App.stem (sample_path "b" ".png")))) /\
    PIL.size canvas = (tw, th) /\
    PIL.content canvas
    = letterboxed photo_formatter.white src new_w new_h
        ((tw - new_w) / 2) ((th - new_h) / 2) /\
    1 <= new_w <= tw /\ 1 <= new_h <= th /\
    (tw - new_w <= 1 \/ th - new_h <= 1) /\
    (new_w = 1 \/ new_w * src_h - new_h * src_w <= src_w) /\
    (new_h = 1 \/ new_h * src_w - new_w * src_h <= src_h).
Proof.
  apply (convert_stores_letterboxed_source
           (sample_world true never App.Written) 300 ∅
           (sample_path "b" ".png")); [lia|].
  split; [reflexivity|]. split.
  - exists (sample_image "b" 800 1200). split; [reflexivity|].
    split; unfold valid_side; cbn; lia.
  - intros n c p. reflexivity.
Defined.

(** ** The namer, call after call *)

Lemma unique_dest_at (d : gmap string App.stored) (base : string) (j : nat) :
  d !! candidate base j = None ->
  (forall i, (i < j)%nat -> is_Some (d !! candidate base i)) ->
  App.unique_dest d base = candidate base j.
Proof.
  intros Hfree Hbelow.
  destruct (unique_dest_spec d base) as (j' & -> & Hfree' & Hbelow').
  f_equal. destruct (Nat.lt_trichotomy j' j) as [H|[H|H]]; [|exact H|].
  - destruct (Hbelow j' H) as [v Hv]. congruence.
  - destruct (Hbelow' j H) as [v Hv]. congruence.
Qed.

(** Files of one stem get the names of the sequence in order: when the
    first [j] names of the stem are taken and the later ones are free,
    [n] files stored one after the other get the names [j] to
    [j + n - 1], none is stored over another, and the files that were
    there are kept. *)
Theorem unique_dest_numbers_in_sequence (d : gmap string App.stored)
    (base : string) (j : nat) (vs : list App.stored) :
  (forall i, (i < j)%nat -> is_Some (d !! candidate base i)) ->
  (forall i, (j <= i)%nat -> d !! candidate base i = None) ->
  fst (store_all d base vs) = candidate base <$> seq j (length vs) /\
  size (snd (store_all d base vs)) = (size d + length vs)%nat /\
  keeps d (snd (store_all d base vs)).
Proof.
  revert d j. induction vs as [|v rest IH]; intros d j Hbelow Hfree.
  - cbn. split; [reflexivity|]. split; [lia|apply keeps_refl].
  - cbn [store_all length seq fmap list_fmap].
    rewrite (unique_dest_at d base j (Hfree j (Nat.le_refl j)) Hbelow).
    specialize (IH (<[candidate base j := v]> d) (S j)).
    destruct IH as (IH1 & IH2 & IH3).
    + intros i Hi. destruct (decide (i = j)) as [->|Hne].
      * rewrite lookup_insert_eq. eauto.
      * rewrite lookup_insert_ne
          by (intros E; apply candidate_inj in E; congruence).
        apply Hbelow. lia.
    + intros i Hi. rewrite lookup_insert_ne
        by (intros E; apply candidate_inj in E; lia).
      apply Hfree. lia.
    + destruct (store_all (<[candidate base j := v]> d) base rest)
        as [names d'].
      cbn [fst snd] in *. split; [f_equal; exact IH1|]. split.
      * rewrite IH2, map_size_insert_None by (apply Hfree; lia). lia.
      * apply (keeps_trans d (<[candidate base j := v]> d) d');
          [apply keeps_insert_free, Hfree; lia|exact IH3].
Qed.

Lemma unique_dest_numbers_in_sequence_witness :
  fst (store_all ∅ "a" [App.Truncated; App.Truncated; App.Truncated])
  = candidate "a" <$> seq 0 3 /\
  size (snd (store_all ∅ "a" [App.Truncated; App.Truncated; App.Truncated]))
  = (size (∅ : gmap string App.stored) + 3)%nat /\
  keeps ∅ (snd (store_all ∅ "a" [App.Truncated; App.Truncated; App.Truncated])).
Proof.
  apply (unique_dest_numbers_in_sequence ∅ "a" 0
           [App.Truncated; App.Truncated; App.Truncated]).
  - intros i Hi. lia.
  - intros i _. apply lookup_empty.
Defined.

(** ** The windows *)

Section Windows.

Context {row : Type}.

Implicit Types (self : Tk.app row) (e : Tk.env).

(** What [start] of [photo_formatter.py] does, case by case. *)
Lemma start_cases e self :
  (Tk.worker_running self = true /\ Controls.start e self = Py.Ok self) \/
  (Tk.worker_running self = false /\
   exists text, Controls.start e self = Py.Ok (Tk.showerror self text)) \/
  (Tk.worker_running self = false /\
   exists exn, Controls.start e self = Py.Raise exn) \/
  (Tk.worker_running self = false /\
   exists dpi,
     Tk.int e (Tk.strip e (Tk.dpi_var self)) = Py.Ok dpi /\
     72 <= dpi <= 1200 /\
     Tk.strip e (Tk.input_dir self) <> "" /\
     Tk.path_exists e (Tk.strip e (Tk.input_dir self)) = true /\
     Tk.mkdir e (Tk.strip e (Tk.output_dir self)) = None /\
     Controls.start e self
     = Py.Ok (Tk.start_thread
                (Tk.set_status
                   (Tk.clear_log
                      (Controls.toggle_controls
                         (Tk.set_stop_flag self false) true))
                   "Initializing...")
                {| Tk.in_dir := Tk.strip e (Tk.input_dir self);
                   Tk.out_dir := Tk.strip e (Tk.output_dir self);
                   Tk.dpi := dpi |})).
Proof.
  unfold Controls.start.
  destruct (Tk.worker_running self) eqn:Hrun; [left; auto|right].
  destruct (Tk.path_exists e (Tk.strip e (Tk.input_dir self))) eqn:Hex;
    cbn [negb orb]; [|left; eauto].
  unfold Tk.truthy.
  destruct (bool_decide_reflect (Tk.strip e (Tk.input_dir self) = ""))
    as [Hblank|Hblank]; cbn [negb]; [left; eauto|].
  destruct (Tk.int e (Tk.strip e (Tk.dpi_var self))) as [dpi|exn] eqn:Hint;
    cbn [mbind result_bind Py.bind]; [|left; eauto].
  unfold App.check_dpi.
  destruct (Z.leb_spec 72 dpi), (Z.leb_spec dpi 1200); cbn [andb];
    try (left; eauto; fail).
  destruct (Tk.mkdir e (Tk.strip e (Tk.output_dir self))) as [exn|] eqn:Hmk;
    [right; left; eauto|].
  right. right. split; [reflexivity|]. exists dpi.
  repeat (split; [assumption || reflexivity || lia|]). reflexivity.
Qed.

(** What [start] of [10x15_Photo_Formatter.py] does, case by case. *)
Lemma start_10x15_cases e self :
  (Tk.worker_running self = true /\ Controls_10x15.start e self = Py.Ok self) \/
  (Tk.worker_running self = false /\
   exists text, Controls_10x15.start e self = Py.Ok (Tk.showerror self text)) \/
  (Tk.worker_running self = false /\
   exists exn, Controls_10x15.start e self = Py.Raise exn) \/
  (Tk.worker_running self = false /\
   exists dpi,
     Tk.int e (Tk.strip e (Tk.dpi_var self)) = Py.Ok dpi /\
     72 <= dpi <= 600 /\
     Tk.path_exists e (Tk.strip e (Tk.input_dir self)) = true /\
     Tk.mkdir e (Tk.strip e (Tk.output_dir self)) = None /\
     Controls_10x15.start e self
     = Py.Ok (Tk.start_thread
                (Tk.set_status
                   (Tk.clear_log
                      (Tk.set_buttons (Tk.set_stop_flag self false)
                         Tk.disabled Tk.normal Tk.disabled))
                   "Scanning for images...")
                {| Tk.in_dir := Tk.strip e (Tk.input_dir self);
                   Tk.out_dir := Tk.strip e (Tk.output_dir self);
                   Tk.dpi := dpi |})).
Proof.
  unfold Controls_10x15.start.
  destruct (Tk.worker_running self) eqn:Hrun; [left; auto|right].
  destruct (Tk.path_exists e (Tk.strip e (Tk.input_dir self))) eqn:Hex;
    cbn [negb]; [|left; eauto].
  destruct (Tk.int e (Tk.strip e (Tk.dpi_var self))) as [dpi|exn] eqn:Hint;
    cbn [mbind result_bind Py.bind]; [|left; eauto].
  unfold Controls_10x15.check_dpi.
  destruct (Z.ltb_spec dpi 72), (Z.ltb_spec 600 dpi); cbn [orb];
    try (left; eauto; fail).
  destruct (Tk.mkdir e (Tk.strip e (Tk.output_dir self))) as [exn|] eqn:Hmk;
    [right; left; eauto|].
  right. right. split; [reflexivity|]. exists dpi.
  repeat (split; [assumption || reflexivity || lia|]). reflexivity.
Qed.

(** A window built with callbacks that behave as the two [start]s and
    [poll_worker]s do keeps the invariant. *)
Lemma react_invariant (c : callbacks row) e (lo hi : Z) self
    (ev : event row) :
  (forall s d, Tk.threads (on_choose_input c e s d) = Tk.threads s /\
               Tk.is_alive (on_choose_input c e s d) = Tk.is_alive s /\
               Tk.after (on_choose_input c e s d) = Tk.after s /\
               Tk.start_btn (on_choose_input c e s d) = Tk.start_btn s /\
               Tk.stop_btn (on_choose_input c e s d) = Tk.stop_btn s /\
               Tk.open_btn (on_choose_input c e s d) = Tk.open_btn s) ->
  (forall s d, Tk.threads (on_choose_output c s d) = Tk.threads s /\
               Tk.is_alive (on_choose_output c s d) = Tk.is_alive s /\
               Tk.after (on_choose_output c s d) = Tk.after s /\
               Tk.start_btn (on_choose_output c s d) = Tk.start_btn s /\
               Tk.stop_btn (on_choose_output c s d) = Tk.stop_btn s /\
               Tk.open_btn (on_choose_output c s d) = Tk.open_btn s) ->
  (forall s, Tk.threads (on_stop c s) = Tk.threads s /\
             Tk.is_alive (on_stop c s) = Tk.is_alive s /\
             Tk.after (on_stop c s) = Tk.after s /\
             Tk.start_btn (on_stop c s) = Tk.start_btn s /\
             Tk.stop_btn (on_stop c s) = Tk.stop_btn s /\
             Tk.open_btn (on_stop c s) = Tk.open_btn s) ->
  (forall s s', on_start c e s = Py.Ok s' ->
     window_invariant e lo hi s -> window_invariant e lo hi s') ->
  (forall s, on_after c s
             = let s := Tk.take_after s in
               if Tk.worker_running s then Tk.add_after s
               else Tk.set_buttons s Tk.normal Tk.disabled Tk.normal) ->
  window_invariant e lo hi self ->
  window_invariant e lo hi (react c e self ev).
Proof.
  intros Hin Hout Hstop Hstart Hafter Hinv.
  assert (forall s s' : Tk.app row,
            Tk.threads s' = Tk.threads s -> Tk.is_alive s' = Tk.is_alive s ->
            Tk.after s' = Tk.after s -> Tk.start_btn s' = Tk.start_btn s ->
            Tk.stop_btn s' = Tk.stop_btn s -> Tk.open_btn s' = Tk.open_btn s ->
            window_invariant e lo hi s -> window_invariant e lo hi s')
    as Hsame.
  { intros s s' E1 E2 E3 E4 E5 E6.
    unfold window_invariant, buttons_processing, Tk.worker_running.
    rewrite E1, E2, E3, E4, E5, E6. auto. }
  destruct ev; cbn [react].
  - destruct (Hin self d) as (? & ? & ? & ? & ? & ?). eapply Hsame; eauto.
  - destruct (Hout self d) as (? & ? & ? & ? & ? & ?). eapply Hsame; eauto.
  - eapply Hsame; eauto; reflexivity.
  - eapply Hsame; eauto; reflexivity.
  - eapply Hsame; eauto; reflexivity.
  - destruct (on_start c e self) as [s'|exn] eqn:E; [|exact Hinv].
    eapply Hstart; eauto.
  - destruct (Hstop self) as (? & ? & ? & ? & ? & ?). eapply Hsame; eauto.
  - destruct (Tk.after self) as [|n] eqn:En; [exact Hinv|].
    rewrite Hafter. cbv zeta.
    destruct Hinv as (H1 & H2 & H3).
    unfold window_invariant, buttons_processing, Tk.worker_running in *.
    destruct self as [i o dv sv ts alive flag b1 b2 b3 lg er af].
    cbn in *. subst af.
    destruct ts as [|t ts]; [|destruct alive]; cbn.
    + split; [discriminate|]. split; [auto|exact H3].
    + split; [intros _; split; [apply H1; reflexivity|lia]|].
      split; [intros C; discriminate|exact H3].
    + split; [discriminate|]. split; [auto|exact H3].
  - destruct (Tk.worker_running self); [|exact Hinv].
    eapply Hsame; eauto; reflexivity.
  - destruct (Tk.worker_running self); [|exact Hinv].
    eapply Hsame; eauto; reflexivity.
  - destruct (Tk.worker_running self) eqn:Hrun; [|exact Hinv].
    destruct Hinv as (H1 & H2 & H3). destruct (H1 Hrun) as [_ Hq].
    unfold window_invariant, buttons_processing, Tk.worker_running in *.
    cbn [Tk.thread_exits Tk.threads Tk.is_alive Tk.after Tk.start_btn
         Tk.stop_btn Tk.open_btn].
    split; [destruct (Tk.threads self); discriminate|].
    split; [intros C; lia|exact H3].
Qed.

Lemma init_invariant e (lo hi : Z) :
  window_invariant e lo hi (Controls.init : Tk.app row).
Proof.
  unfold window_invariant, buttons_processing. cbn.
  split; [discriminate|]. split; [auto|constructor].
Qed.

Lemma start_thread_invariant e (lo hi : Z) self (t : Tk.thread)
    (st : string) :
  lo <= Tk.dpi t <= hi -> Tk.path_exists e (Tk.in_dir t) = true ->
  Tk.mkdir e (Tk.out_dir t) = None ->
  window_invariant e lo hi self ->
  window_invariant e lo hi
    (Tk.start_thread
       (Tk.set_status
          (Tk.clear_log
             (Tk.set_buttons (Tk.set_stop_flag self false)
                Tk.disabled Tk.normal Tk.disabled)) st) t).
Proof.
  intros Hdpi Hex Hmk (H1 & H2 & H3).
  unfold window_invariant, buttons_processing, Tk.worker_running. cbn.
  split; [intros _; split; [auto|lia]|].
  split; [intros C; discriminate|]. constructor; auto.
Qed.

Lemma showerror_invariant e (lo hi : Z) self (text : string) :
  window_invariant e lo hi self ->
  window_invariant e lo hi (Tk.showerror self text).
Proof. intros H. exact H. Qed.

(** The threads of a window change only when [start] starts one. *)
Lemma react_threads (c : callbacks row) e self (ev : event row)
    (P : Tk.thread -> Prop) :
  (forall s d, Tk.threads (on_choose_input c e s d) = Tk.threads s) ->
  (forall s d, Tk.threads (on_choose_output c s d) = Tk.threads s) ->
  (forall s, Tk.threads (on_stop c s) = Tk.threads s) ->
  (forall s, Tk.threads (on_after c s) = Tk.threads s) ->
  (forall s s', on_start c e s = Py.Ok s' ->
     Forall P (Tk.threads s) -> Forall P (Tk.threads s')) ->
  Forall P (Tk.threads self) ->
  Forall P (Tk.threads (react c e self ev)).
Proof.
  intros Hin Hout Hstop Hafter Hstart H.
  destruct ev; cbn [react];
    rewrite ?Hin, ?Hout, ?Hstop; try exact H.
  - destruct (on_start c e self) as [s'|exn] eqn:E; [|exact H].
    eapply Hstart; eauto.
  - destruct (Tk.after self); [exact H|]. rewrite Hafter. exact H.
  - destruct (Tk.worker_running self); exact H.
  - destruct (Tk.worker_running self); exact H.
  - destruct (Tk.worker_running self); exact H.
Qed.

(** Once the worker has returned, the scheduled calls of [poll_worker]
    give the buttons back. *)
Lemma after_due_recovers (c : callbacks row) e (n : nat) :
  (forall s, on_after c s
             = let s := Tk.take_after s in
               if Tk.worker_running s then Tk.add_after s
               else Tk.set_buttons s Tk.normal Tk.disabled Tk.normal) ->
  forall self,
    Tk.worker_running self = false -> Tk.after self = n ->
    (n = 0%nat ->
     Tk.start_btn self = Tk.normal /\ Tk.stop_btn self = Tk.disabled) ->
    let self' := foldl (react c e) self (replicate n AfterDue) in
    Tk.start_btn self' = Tk.normal /\ Tk.stop_btn self' = Tk.disabled /\
    Tk.worker_running self' = false /\ Tk.after self' = 0%nat.
Proof.
  intros Hafter. induction n as [|n IH]; intros self Hrun Hn H0.
  - cbn. destruct (H0 eq_refl). auto.
  - cbn [replicate foldl react]. rewrite Hn, Hafter. cbv zeta.
    assert (Tk.worker_running (Tk.take_after self) = false) as Hrun'
      by exact Hrun.
    rewrite Hrun'. apply IH.
    + exact Hrun.
    + cbn. rewrite Hn. reflexivity.
    + intros _. cbn. auto.
Qed.

Lemma window_after_snoc (c : callbacks row) e (evs : list (event row))
    (ev : event row) :
  window_after c e (evs ++ [ev]) = react c e (window_after c e evs) ev.
Proof. unfold window_after. rewrite foldl_app. reflexivity. Qed.

Lemma poll_worker_eq self :
  Controls.poll_worker self
  = let s := Tk.take_after self in
    if Tk.worker_running s then Tk.add_after s
    else Tk.set_buttons s Tk.normal Tk.disabled Tk.normal.
Proof. reflexivity. Qed.

Lemma photo_formatter_window_invariant e (evs : list (event row)) :
  window_invariant e 72 1200 (window_after photo_formatter_window e evs) /\
  Forall (fun t => Tk.in_dir t <> "")
         (Tk.threads (window_after photo_formatter_window e evs)).
Proof.
  induction evs as [|ev evs [IH1 IH2]] using rev_ind.
  - split; [apply init_invariant|constructor].
  - rewrite window_after_snoc. split.
    + apply react_invariant; try exact IH1.
      * intros s d. cbn. unfold Controls.choose_input.
        destruct (negb (Tk.truthy d)); cbn; auto 10.
      * intros s d. cbn. unfold Controls.choose_output.
        destruct (Tk.truthy d); cbn; auto 10.
      * intros s. cbn. auto 10.
      * intros s s' Hs Hinv. cbn in Hs.
        destruct (start_cases e s)
          as [[_ E]|[[_ [text E]]|[[_ [exn E]]|[_ (dpi & _ & Hdpi & _ & Hex
                                                  & Hmk & E)]]]];
          rewrite E in Hs; try discriminate; injection Hs as <-.
        -- exact Hinv.
        -- exact Hinv.
        -- apply start_thread_invariant; assumption.
      * intros s. reflexivity.
    + apply react_threads; try exact IH2.
      * intros s d. cbn. unfold Controls.choose_input.
        destruct (negb (Tk.truthy d)); reflexivity.
      * intros s d. cbn. unfold Controls.choose_output.
        destruct (Tk.truthy d); reflexivity.
      * intros s. reflexivity.
      * intros s. cbn. unfold Controls.poll_worker. cbv zeta.
        destruct (Tk.worker_running (Tk.take_after s)); reflexivity.
      * intros s s' Hs H. cbn in Hs.
        destruct (start_cases e s)
          as [[_ E]|[[_ [text E]]|[[_ [exn E]]|[_ (dpi & _ & _ & Hblank & _
                                                  & _ & E)]]]];
          rewrite E in Hs; try discriminate; injection Hs as <-;
          try exact H.
        constructor; [exact Hblank|exact H].
Qed.

Lemma window_10x15_invariant e (evs : list (event row)) :
  window_invariant e 72 600 (window_after window_10x15 e evs).
Proof.
  induction evs as [|ev evs IH] using rev_ind.
  - apply init_invariant.
  - rewrite window_after_snoc.
    apply react_invariant; try exact IH.
    + intros s d. cbn. unfold Controls_10x15.choose_input.
      destruct (negb (Tk.truthy d)); cbn; auto 10.
    + intros s d. cbn. unfold Controls_10x15.choose_output.
      destruct (negb (Tk.truthy d)); cbn; auto 10.
    + intros s. cbn. auto 10.
    + intros s s' Hs Hinv. cbn in Hs.
      destruct (start_10x15_cases e s)
        as [[_ E]|[[_ [text E]]|[[_ [exn E]]|[_ (dpi & _ & Hdpi & Hex
                                                & Hmk & E)]]]];
        rewrite E in Hs; try discriminate; injection Hs as <-.
      * exact Hinv.
      * exact Hinv.
      * apply start_thread_invariant; assumption.
    + intros s. reflexivity.
Qed.

(** After [WorkerReturns] no worker runs and the invariant holds on. *)
Lemma worker_returns_idle (c : callbacks row) e (lo hi : Z) self :
  window_invariant e lo hi self ->
  let self' := react c e self WorkerReturns in
  Tk.worker_running self' = false /\ Tk.after self' = Tk.after self /\
  (Tk.after self' = 0%nat ->
   Tk.start_btn self' = Tk.normal /\ Tk.stop_btn self' = Tk.disabled).
Proof.
  intros (H1 & H2 & _). cbn [react].
  destruct (Tk.worker_running self) eqn:Hrun.
  - destruct (H1 eq_refl) as [_ Hq].
    unfold Tk.worker_running. cbn.
    split; [destruct (Tk.threads self); reflexivity|].
    split; [reflexivity|]. intros C. lia.
  - split; [exact Hrun|]. split; [reflexivity|].
    intros H0. destruct (H2 H0) as (? & ? & _). auto.
Qed.

End Windows.

(** In the window of [photo_formatter.py], whatever the user and the
    worker do and in whatever order: while the worker runs, Start and the
    output button are disabled, Stop is enabled and a call of
    [poll_worker] is scheduled; when no call is scheduled, Start is
    enabled, Stop is disabled and no worker runs; every thread was started
    on an existing input folder whose text is not blank, after its output
    folder was made, with a DPI from 72 to 1200; and once the worker has
    returned, the scheduled calls of [poll_worker] enable Start and
    disable Stop again. *)
Theorem photo_formatter_window_is_safe (e : Tk.env)
    (evs : list (event App.log_line)) :
  let self := window_after photo_formatter_window e evs in
  let self' :=
    foldl (react photo_formatter_window e) self
      (WorkerReturns :: replicate (Tk.after self) AfterDue) in
  window_invariant e 72 1200 self /\
  Forall (fun t => Tk.in_dir t <> "") (Tk.threads self) /\
  (Tk.start_btn self' = Tk.normal /\ Tk.stop_btn self' = Tk.disabled /\
   Tk.worker_running self' = false /\ Tk.after self' = 0%nat).
Proof.
  intros self self'.
  destruct (photo_formatter_window_invariant e evs) as [Hinv Hblank].
  fold self in Hinv, Hblank. split; [exact Hinv|]. split; [exact Hblank|].
  destruct (worker_returns_idle photo_formatter_window e 72 1200 self Hinv)
    as (Hrun & Hafter & H0).
  unfold self'. cbn [foldl]. rewrite <- Hafter.
  apply after_due_recovers; auto.
Qed.

(** In the window of [10x15_Photo_Formatter.py] the same holds, with a
    DPI from 72 to 600 and an existing input folder whose text may be
    blank. *)
Theorem window_10x15_is_safe (e : Tk.env)
    (evs : list (event Batch_10x15.log_line)) :
  let self := window_after window_10x15 e evs in
  let self' :=
    foldl (react window_10x15 e) self
      (WorkerReturns :: replicate (Tk.after self) AfterDue) in
  window_invariant e 72 600 self /\
  (Tk.start_btn self' = Tk.normal /\ Tk.stop_btn self' = Tk.disabled /\
   Tk.worker_running self' = false /\ Tk.after self' = 0%nat).
Proof.
  intros self self'.
  pose proof (window_10x15_invariant e evs) as Hinv.
  fold self in Hinv. split; [exact Hinv|].
  destruct (worker_returns_idle window_10x15 e 72 600 self Hinv)
    as (Hrun & Hafter & H0).
  unfold self'. cbn [foldl]. rewrite <- Hafter.
  apply after_due_recovers; auto.
Qed.

(** ** The batch driver of 10x15_Photo_Formatter.py *)

Section Loop_10x15.

Variable w : App.world.
Variable dpi : Z.
Variable total : nat.

Lemma outcomes_10x15_length (files : list App.path) :
  forall d, length (fst (outcomes_10x15 w dpi d files)) = length files.
Proof.
  induction files as [|f rest IH]; intros d; cbn [outcomes_10x15];
    [reflexivity|].
  destruct (outcome_10x15 w dpi d f) as [l d1]. specialize (IH d1).
  destruct (outcomes_10x15 w dpi d1 rest) as [ls d2].
  cbn [fst length] in *. lia.
Qed.

(** One turn of the loop on a file that is not stopped at. *)
Lemma loop_10x15_turn (f : App.path) (rest : list App.path) (idx : nat)
    (self : Batch_10x15.app) (c : Batch_10x15.counters) :
  App.stop_flag w (Batch_10x15.reads self) = false ->
  exists self2 c2,
    Batch_10x15.loop w dpi total (f :: rest) idx self c
    = Batch_10x15.loop w dpi total rest (S idx) self2 c2 /\
    let o := outcome_10x15 w dpi (Batch_10x15.out_dir self) f in
    Batch_10x15.log self2 = Batch_10x15.log self ++ [fst o] /\
    Batch_10x15.out_dir self2 = snd o /\
    Batch_10x15.reads self2 = S (Batch_10x15.reads self) /\
    Batch_10x15.progress_maximum self2 = Batch_10x15.progress_maximum self /\
    Batch_10x15.progress_value self2 = idx /\
    Batch_10x15.processed c2
    = (Batch_10x15.processed c + count_10x15 is_OK_10x15 [fst o])%nat /\
    Batch_10x15.skipped c2
    = (Batch_10x15.skipped c + count_10x15 is_SKIP_10x15 [fst o])%nat /\
    Batch_10x15.errors c2
    = (Batch_10x15.errors c + count_10x15 is_ERROR_10x15 [fst o])%nat /\
    (if is_SKIP_10x15 (fst o)
     then Batch_10x15.status_var self2 = Batch_10x15.status_var self
     else Batch_10x15.status_var self2
          = Batch_10x15.Processed (Batch_10x15.processed c2) total
              (Batch_10x15.skipped c2) (Batch_10x15.errors c2)).
Proof.
  intros Hgo. cbn [Batch_10x15.loop Batch_10x15.read_stop_flag].
  rewrite Hgo. unfold outcome_10x15.
  destruct (App.is_heic f && negb (App.heif_ok w)).
  - eexists _, _. split; [reflexivity|]. cbn. repeat split; lia.
  - cbn [Batch_10x15.out_dir].
    destruct (Photo_Formatter_10x15.convert w dpi (Batch_10x15.out_dir self) f)
      as [d [out_name|e]];
      (eexists _, _; split; [reflexivity|]; cbn; repeat split; lia).
Qed.

(** The [for] loop under a flag first seen set at its [k]-th read: the
    first [k] files are processed, in order, and no other; the status
    line says Stopped when a file was left, and else is the one of the
    last conversion. *)
Lemma loop_10x15_spec (files : list App.path) :
  forall (k idx : nat) (self : Batch_10x15.app) (c : Batch_10x15.counters),
    (k <= length files)%nat ->
    (forall i, (i < k)%nat ->
       App.stop_flag w (Batch_10x15.reads self + i) = false) ->
    ((k < length files)%nat ->
     App.stop_flag w (Batch_10x15.reads self + k) = true) ->
    let r := Batch_10x15.loop w dpi total files idx self c in
    let o := outcomes_10x15 w dpi (Batch_10x15.out_dir self) (take k files) in
    Batch_10x15.log (fst r) = Batch_10x15.log self ++ fst o /\
    Batch_10x15.out_dir (fst r) = snd o /\
    Batch_10x15.processed (snd r)
    = (Batch_10x15.processed c + count_10x15 is_OK_10x15 (fst o))%nat /\
    Batch_10x15.skipped (snd r)
    = (Batch_10x15.skipped c + count_10x15 is_SKIP_10x15 (fst o))%nat /\
    Batch_10x15.errors (snd r)
    = (Batch_10x15.errors c + count_10x15 is_ERROR_10x15 (fst o))%nat /\
    Batch_10x15.reads (fst r)
    = (Batch_10x15.reads self
       + if (k <? length files)%nat then S k else k)%nat /\
    Batch_10x15.progress_maximum (fst r) = Batch_10x15.progress_maximum self /\
    Batch_10x15.progress_value (fst r)
    = match k with
      | O => Batch_10x15.progress_value self
      | S k' => (idx + k')%nat
      end /\
    (if (k <? length files)%nat
     then Batch_10x15.status_var (fst r)
          = Batch_10x15.Stopped (Batch_10x15.processed (snd r))
              (Batch_10x15.skipped (snd r)) (Batch_10x15.errors (snd r))
     else status_of_last_conversion total (Batch_10x15.status_var self) c
            (snd r) (Batch_10x15.status_var (fst r))).
Proof.
  induction files as [|f rest IH]; intros k idx self c Hk Hrun Hstop.
  { cbn in Hk. assert (k = 0)%nat as -> by lia. cbn.
    rewrite app_nil_r, !Nat.add_0_r. repeat split; auto.
    left. auto. }
  destruct k as [|k].
  { (* the flag is set at the first read *)
    cbn [Batch_10x15.loop Batch_10x15.read_stop_flag take outcomes_10x15
         fst snd].
    rewrite Nat.add_0_r in Hstop. rewrite Hstop by (cbn; lia).
    cbn. rewrite app_nil_r, !Nat.add_0_r. repeat split; lia. }
  assert (App.stop_flag w (Batch_10x15.reads self) = false) as Hgo.
  { rewrite <- (Nat.add_0_r (Batch_10x15.reads self)). apply Hrun. lia. }
  destruct (loop_10x15_turn f rest idx self c Hgo)
    as (self2 & c2 & -> & Hturn).
  cbv zeta in Hturn.
  destruct Hturn as (T1 & T2 & T3 & T4 & T5 & T6 & T7 & T8 & T9).
  specialize (IH k (S idx) self2 c2).
  destruct IH as (H1 & H2 & H3 & H4 & H5 & H6 & H7 & H8 & H9).
  - cbn in Hk. lia.
  - intros i Hi. rewrite T3.
    replace (S (Batch_10x15.reads self) + i)%nat
      with (Batch_10x15.reads self + S i)%nat by lia.
    apply Hrun. lia.
  - intros Hlt. rewrite T3.
    replace (S (Batch_10x15.reads self) + k)%nat
      with (Batch_10x15.reads self + S k)%nat by lia.
    apply Hstop. cbn. lia.
  - cbv zeta in H1, H2, H3, H4, H5, H6, H7, H8, H9. cbv zeta.
    cbn [take outcomes_10x15].
    rewrite T2 in *.
    destruct (outcome_10x15 w dpi (Batch_10x15.out_dir self) f) as [l d1].
    cbn [fst snd] in *.
    destruct (outcomes_10x15 w dpi d1 (take k rest)) as [ls d2].
    cbn [fst snd] in *.
    assert ((S k <? length (f :: rest))%nat = (k <? length rest)%nat) as ->
      by reflexivity.
    rewrite H1, H2, H3, H4, H5, H6, H7, H8, T1, T3, T4, T6, T7, T8,
      <- app_assoc.
    unfold count_10x15 in *.
    cbn [List.filter length app] in *.
    split; [reflexivity|]. split; [reflexivity|].
    split; [destruct (is_OK_10x15 l); cbn [length]; lia|].
    split; [destruct (is_SKIP_10x15 l); cbn [length]; lia|].
    split; [destruct (is_ERROR_10x15 l); cbn [length]; lia|].
    split; [destruct (k <? length rest)%nat; lia|].
    split; [reflexivity|].
    split; [destruct k; lia|].
    destruct (k <? length rest)%nat.
    + rewrite H9, H3, H4, H5, T6, T7, T8. reflexivity.
    + unfold status_of_last_conversion in *.
      rewrite H3, H4, H5, T6, T7, T8 in H9.
      rewrite H3, H4, H5, T6, T7, T8.
      destruct l as [f'|n out|n e]; cbn [is_SKIP_10x15 is_OK_10x15
        is_ERROR_10x15 List.filter length] in *.
      * destruct H9 as [(E1 & E2 & E3)|(sk & Hsk & E)].
        -- left. rewrite E1, T9. split; [reflexivity|]. lia.
        -- right. exists sk. split; [lia|exact E].
      * destruct H9 as [(E1 & E2 & E3)|(sk & Hsk & E)].
        -- right. exists (Batch_10x15.skipped c2). rewrite T7.
           split; [lia|]. rewrite E1, T9, T6, T7, T8.
           f_equal; lia.
        -- right. exists sk. split; [lia|exact E].
      * destruct H9 as [(E1 & E2 & E3)|(sk & Hsk & E)].
        -- right. exists (Batch_10x15.skipped c2). rewrite T7.
           split; [lia|]. rewrite E1, T9, T6, T7, T8.
           f_equal; lia.
        -- right. exists sk. split; [lia|exact E].
Qed.

End Loop_10x15.

(** What a run of [10x15_Photo_Formatter.py] leaves under a flag first
    seen set at the read that follows [k] files; shared by the statements
    below. *)
Lemma process_all_10x15_spec (w : App.world)
    (self : Batch_10x15.app) (tree : list App.path) (dpi : Z) (k : nat) :
  let files := List.filter Batch_10x15.supported tree in
  files <> [] ->
  (k <= length files)%nat ->
  (forall i, (i < k)%nat ->
     App.stop_flag w (Batch_10x15.reads self + i) = false) ->
  ((k < length files)%nat ->
   App.stop_flag w (Batch_10x15.reads self + k) = true) ->
  let o := outcomes_10x15 w dpi (Batch_10x15.out_dir self) (take k files) in
  let self' := Batch_10x15.process_all w self tree dpi in
  let p := count_10x15 is_OK_10x15 (fst o) in
  let s := count_10x15 is_SKIP_10x15 (fst o) in
  let e := count_10x15 is_ERROR_10x15 (fst o) in
  let last :=
    App.stop_flag w
      (Batch_10x15.reads self + if (k <? length files)%nat then S k else k) in
  Batch_10x15.log self' = Batch_10x15.log self ++ fst o /\
  length (fst o) = k /\
  Batch_10x15.out_dir self' = snd o /\
  Batch_10x15.progress_maximum self' = length files /\
  Batch_10x15.progress_value self' = k /\
  (last = false -> Batch_10x15.status_var self' = Batch_10x15.Done p s e) /\
  (last = true -> (k < length files)%nat ->
   Batch_10x15.status_var self' = Batch_10x15.Stopped p s e) /\
  (last = true -> k = length files ->
   (Batch_10x15.status_var self' = Batch_10x15.Found (length files) /\
    p = 0%nat /\ e = 0%nat) \/
   (exists skipped, (skipped <= s)%nat /\
      Batch_10x15.status_var self'
      = Batch_10x15.Processed p (length files) skipped e)).
Proof.
  intros files Hne Hk Hrun Hstop o self' p s e last.
  unfold self', Batch_10x15.process_all. fold files.
  destruct (Nat.eqb_spec (length files) 0) as [E|_].
  { destruct files; [contradiction|discriminate]. }
  set (self0 := {| Batch_10x15.reads := Batch_10x15.reads self;
                   Batch_10x15.log := Batch_10x15.log self;
                   Batch_10x15.progress_maximum := length files;
                   Batch_10x15.progress_value := 0;
                   Batch_10x15.status_var := Batch_10x15.Found (length files);
                   Batch_10x15.out_dir := Batch_10x15.out_dir self |}).
  pose proof (loop_10x15_spec w dpi (length files) files k 1 self0
                {| Batch_10x15.processed := 0; Batch_10x15.skipped := 0;
                   Batch_10x15.errors := 0 |} Hk Hrun Hstop) as H.
  cbv zeta in H.
  cbn [Batch_10x15.out_dir Batch_10x15.log Batch_10x15.reads
       Batch_10x15.progress_maximum Batch_10x15.progress_value
       Batch_10x15.status_var Batch_10x15.processed Batch_10x15.skipped
       Batch_10x15.errors self0] in H.
  fold o in H. cbn [Nat.add] in H. fold p s e in H.
  destruct (Batch_10x15.loop w dpi (length files) files 1 self0 _)
    as [self1 c1].
  cbn [fst snd] in H.
  destruct H as (H1 & H2 & H3 & H4 & H5 & H6 & H7 & H8 & H9).
  unfold Batch_10x15.read_stop_flag. rewrite H6. fold last.
  assert (length (fst o) = k) as Elen.
  { unfold o. rewrite outcomes_10x15_length, length_take. lia. }
  assert (Batch_10x15.progress_value self1 = k) as Eval.
  { rewrite H8. destruct k; [reflexivity|lia]. }
  destruct last eqn:Elast; cbn [negb Batch_10x15.set_status
    Batch_10x15.log Batch_10x15.out_dir Batch_10x15.progress_maximum
    Batch_10x15.progress_value Batch_10x15.status_var].
  - repeat (split; [assumption|]).
    split; [discriminate|]. split.
    + intros _ Hlt. apply Nat.ltb_lt in Hlt. rewrite Hlt in H9.
      rewrite H9, H3, H4, H5. reflexivity.
    + intros _ ->. rewrite Nat.ltb_irrefl in H9.
      unfold status_of_last_conversion in H9.
      cbn [Batch_10x15.processed Batch_10x15.skipped Batch_10x15.errors]
        in H9.
      rewrite H3, H4, H5 in H9.
      destruct H9 as [(E1 & E2 & E3)|(sk & Hsk & E)]; [left|right]; eauto.
      exists sk. split; [lia|exact E].
  - repeat (split; [assumption|]).
    split; [intros _; rewrite H3, H4, H5; reflexivity|].
    split; discriminate.
Qed.

(** A run of [10x15_Photo_Formatter.py] under a flag first seen set at the
    read that follows [k] files: these [k] files are processed, in order,
    and no other. The status line it ends with depends on the last read
    of the flag, after the loop: Done with the three counters when the
    flag is not set then; Stopped with the three counters when a file was
    left; and when every file was processed and the flag is set only at
    the last read, neither: the line stays the one of the last
    conversion. *)
Theorem process_all_10x15_final_status (w : App.world)
    (self : Batch_10x15.app) (tree : list App.path) (dpi : Z) (k : nat) :
  let files := List.filter Batch_10x15.supported tree in
  files <> [] ->
  (k <= length files)%nat ->
  (forall i, (i < k)%nat ->
     App.stop_flag w (Batch_10x15.reads self + i) = false) ->
  ((k < length files)%nat ->
   App.stop_flag w (Batch_10x15.reads self + k) = true) ->
  let o := outcomes_10x15 w dpi (Batch_10x15.out_dir self) (take k files) in
  let self' := Batch_10x15.process_all w self tree dpi in
  let p := count_10x15 is_OK_10x15 (fst o) in
  let s := count_10x15 is_SKIP_10x15 (fst o) in
  let e := count_10x15 is_ERROR_10x15 (fst o) in
  let last :=
    App.stop_flag w
      (Batch_10x15.reads self + if (k <? length files)%nat then S k else k) in
  Batch_10x15.log self' = Batch_10x15.log self ++ fst o /\
  length (fst o) = k /\
  Batch_10x15.out_dir self' = snd o /\
  Batch_10x15.progress_maximum self' = length files /\
  Batch_10x15.progress_value self' = k /\
  (last = false -> Batch_10x15.status_var self' = Batch_10x15.Done p s e) /\
  (last = true -> (k < length files)%nat ->
   Batch_10x15.status_var self' = Batch_10x15.Stopped p s e) /\
  (last = true -> k = length files ->
   (Batch_10x15.status_var self' = Batch_10x15.Found (length files) /\
    p = 0%nat /\ e = 0%nat) \/
   (exists skipped, (skipped <= s)%nat /\
      Batch_10x15.status_var self'
      = Batch_10x15.Processed p (length files) skipped e)).
Proof. exact (process_all_10x15_spec w self tree dpi k). Qed.

Lemma process_all_10x15_final_status_witness :
  let w := sample_world true (fun i => (2 <=? i)%nat) App.Written in
  let self :=
    {| Batch_10x15.reads := 0; Batch_10x15.log := [];
       Batch_10x15.progress_maximum := 0; Batch_10x15.progress_value := 0;
       Batch_10x15.status_var := Batch_10x15.Scanning;
       Batch_10x15.out_dir := ∅ |} in
  let tree := [sample_path "a" ".jpg"; sample_path "c" ".jpg"] in
  let files := List.filter Batch_10x15.supported tree in
  let o := outcomes_10x15 w 300 (Batch_10x15.out_dir self) (take 2 files) in
  let self' := Batch_10x15.process_all w self tree 300 in
  let p := count_10x15 is_OK_10x15 (fst o) in
  let s := count_10x15 is_SKIP_10x15 (fst o) in
  let e := count_10x15 is_ERROR_10x15 (fst o) in
  let last :=
    App.stop_flag w
      (Batch_10x15.reads self + if (2 <? length files)%nat then 3 else 2) in
  Batch_10x15.log self' = Batch_10x15.log self ++ fst o /\
  length (fst o) = 2%nat /\
  Batch_10x15.out_dir self' = snd o /\
  Batch_10x15.progress_maximum self' = length files /\
  Batch_10x15.progress_value self' = 2%nat /\
  (last = false -> Batch_10x15.status_var self' = Batch_10x15.Done p s e) /\
  (last = true -> (2 < length files)%nat ->
   Batch_10x15.status_var self' = Batch_10x15.Stopped p s e) /\
  (last = true -> 2%nat = length files ->
   (Batch_10x15.status_var self' = Batch_10x15.Found (length files) /\
    p = 0%nat /\ e = 0%nat) \/
   (exists skipped, (skipped <= s)%nat /\
      Batch_10x15.status_var self'
      = Batch_10x15.Processed p (length files) skipped e)).
Proof.
  apply (process_all_10x15_final_status
           (sample_world true (fun i => (2 <=? i)%nat) App.Written)
           {| Batch_10x15.reads := 0; Batch_10x15.log := [];
              Batch_10x15.progress_maximum := 0;
              Batch_10x15.progress_value := 0;
              Batch_10x15.status_var := Batch_10x15.Scanning;
              Batch_10x15.out_dir := ∅ |}
           [sample_path "a" ".jpg"; sample_path "c" ".jpg"] 300 2).
  - vm_compute. discriminate.
  - vm_compute. lia.
  - intros i Hi. cbn. destruct i as [|[|i]]; [reflexivity|reflexivity|lia].
  - vm_compute. lia.
Defined.

(** ** The two programs side by side *)

Lemma same_pictures_free (d1 d2 : gmap string App.stored) (n : string) :
  same_pictures d1 d2 -> (d1 !! n = None <-> d2 !! n = None).
Proof.
  intros H. specialize (H n). unfold same_picture in H.
  destruct (d1 !! n) as [[]|], (d2 !! n) as [[]|]; try contradiction;
    split; intros; congruence.
Qed.

Lemma same_pictures_unique_dest (d1 d2 : gmap string App.stored)
    (base : string) :
  same_pictures d1 d2 -> App.unique_dest d1 base = App.unique_dest d2 base.
Proof.
  intros H.
  destruct (unique_dest_spec d1 base) as (j & -> & Hfree & Hbelow).
  symmetry. apply unique_dest_at.
  - apply (same_pictures_free d1 d2 _ H), Hfree.
  - intros i Hi. specialize (Hbelow i Hi).
    destruct (d2 !! candidate base i) eqn:E; [eauto|].
    apply (same_pictures_free d1 d2 _ H) in E.
    destruct Hbelow as [v Hv]. congruence.
Qed.

Lemma same_pictures_insert (d1 d2 : gmap string App.stored) (n : string)
    (v1 v2 : App.stored) :
  same_pictures d1 d2 -> same_picture (Some v1) (Some v2) ->
  same_pictures (<[n := v1]> d1) (<[n := v2]> d2).
Proof.
  intros H Hv m. destruct (decide (m = n)) as [->|Hne].
  - rewrite !lookup_insert_eq. exact Hv.
  - rewrite !lookup_insert_ne by congruence. apply H.
Qed.

(** The keywords on which the saves of the two programs agree. *)
Lemma save_keywords_agree (dpi : Z) (e1 e2 : option PIL.exif_data) :
  App.save_args dpi e1 !! "format"
  = Photo_Formatter_10x15.save_kwargs dpi e2 !! "format" /\
  App.save_args dpi e1 !! "quality"
  = Photo_Formatter_10x15.save_kwargs dpi e2 !! "quality" /\
  App.save_args dpi e1 !! "dpi"
  = Photo_Formatter_10x15.save_kwargs dpi e2 !! "dpi".
Proof. destruct e1, e2; repeat split; vm_compute; reflexivity. Qed.

(** The keywords on which they differ. *)
Lemma save_keywords_differ (dpi : Z) (e1 e2 : option PIL.exif_data) :
  App.save_args dpi e1 !! "subsampling" = Some (PIL.Num 0) /\
  Photo_Formatter_10x15.save_kwargs dpi e2 !! "subsampling"
  = Some (PIL.Str "4:2:0") /\
  App.save_args dpi e1 !! "optimize" = None /\
  Photo_Formatter_10x15.save_kwargs dpi e2 !! "optimize"
  = Some (PIL.Flag true) /\
  App.save_args dpi e1 !! "progressive" = None /\
  Photo_Formatter_10x15.save_kwargs dpi e2 !! "progressive"
  = Some (PIL.Flag true).
Proof. destruct e1, e2; repeat split; vm_compute; reflexivity. Qed.

(** One conversion by the two programs, from directories that hold the
    same pictures, when the saves end alike: the same name, the same
    canvas, format, quality and DPI, the same exception. *)
Lemma convert_same_pictures (w : App.world) (dpi : Z)
    (d1 d2 : gmap string App.stored) (f : App.path) :
  save_ends_alike w ->
  same_pictures d1 d2 ->
  same_pictures (fst (App.convert w dpi d1 f))
                (fst (Photo_Formatter_10x15.convert w dpi d2 f)) /\
  snd (App.convert w dpi d1 f) = snd (Photo_Formatter_10x15.convert w dpi d2 f).
Proof.
  intros Halike H. unfold App.convert, Photo_Formatter_10x15.convert.
  destruct (App.image_open w f) as [im|e];
    cbn [mbind result_bind Py.bind]; [|auto].
  destruct (PIL.size (PIL.exif_transpose im)) as [iw ih].
  change (Photo_Formatter_10x15.compute_target_canvas iw ih dpi)
    with (photo_formatter.compute_target_canvas iw ih dpi).
  destruct (photo_formatter.compute_target_canvas iw ih dpi) as [[tw th]|e];
    cbn [mbind result_bind Py.bind]; [|auto].
  change (Photo_Formatter_10x15.fit_with_letterbox (PIL.exif_transpose im)
            tw th (255, 255, 255))
    with (photo_formatter.fit_with_letterbox (PIL.exif_transpose im) tw th
            photo_formatter.white).
  destruct (photo_formatter.fit_with_letterbox (PIL.exif_transpose im) tw th
              photo_formatter.white) as [canvas|e];
    cbn [mbind result_bind Py.bind]; [|auto].
  cbv zeta. rewrite !save_fresh by apply unique_dest_free.
  rewrite <- (same_pictures_unique_dest d1 d2 (App.stem f) H).
  rewrite (Halike _ canvas
             (Photo_Formatter_10x15.save_kwargs dpi (PIL.exif im))
             (App.save_args dpi (PIL.exif (PIL.exif_transpose im)))).
  destruct (App.image_save w (App.unique_dest d1 (App.stem f)) canvas _);
    cbn [fst snd]; split; try reflexivity; try exact H;
    apply same_pictures_insert; try exact H; cbn [same_picture]; try exact I.
  split; [reflexivity|]. apply save_keywords_agree.
Qed.

Lemma outcomes_same_pictures (w : App.world) (dpi : Z)
    (files : list App.path) :
  save_ends_alike w ->
  forall d1 d2,
    same_pictures d1 d2 ->
    Forall2 same_outcome (fst (outcomes w dpi d1 files))
            (fst (outcomes_10x15 w dpi d2 files)) /\
    same_pictures (snd (outcomes w dpi d1 files))
                  (snd (outcomes_10x15 w dpi d2 files)).
Proof.
  intros Halike. induction files as [|f rest IH]; intros d1 d2 H;
    cbn [outcomes outcomes_10x15].
  - cbn. split; [constructor|exact H].
  - assert (same_outcome (fst (outcome w dpi d1 f))
                         (fst (outcome_10x15 w dpi d2 f)) /\
            same_pictures (snd (outcome w dpi d1 f))
                          (snd (outcome_10x15 w dpi d2 f))) as [Hl Hd].
    { unfold outcome, outcome_10x15.
      destruct (App.is_heic f && negb (App.heif_ok w)); [cbn; auto|].
      destruct (convert_same_pictures w dpi d1 d2 f Halike H) as [Hd Hr].
      destruct (App.convert w dpi d1 f) as [d1' r1],
               (Photo_Formatter_10x15.convert w dpi d2 f) as [d2' r2].
      cbn [fst snd] in *. subst r2. destruct r1; cbn; auto. }
    destruct (outcome w dpi d1 f) as [l1 d1'],
             (outcome_10x15 w dpi d2 f) as [l2 d2']. cbn [fst snd] in *.
    specialize (IH d1' d2' Hd). destruct IH as [IHl IHd].
    destruct (outcomes w dpi d1' rest) as [ls1 e1],
             (outcomes_10x15 w dpi d2' rest) as [ls2 e2].
    cbn [fst snd] in *. split; [constructor; assumption|exact IHd].
Qed.

Lemma supported_without_webp (p : App.path) :
  App.lower (App.suffix p) <> ".webp" ->
  Batch_10x15.supported p = App.supported p.
Proof.
  intros H. unfold Batch_10x15.supported, App.supported. f_equal.
  apply bool_decide_ext.
  unfold Batch_10x15.SUPPORTED_EXTS, App.SUPPORTED_EXTS.
  rewrite !elem_of_cons, !elem_of_nil. tauto.
Qed.

(** On a tree without WebP files, and when every save ends the same
    way under the keywords of either program, the two programs do the
    same work: started on directories that hold the same pictures and at
    the same point of the flag, they process the same files, log the same
    outcome for each, and leave directories that hold the same pictures
    under the same names: the same canvas saved in the same format, at
    the same quality and with the same DPI. The other keywords of the
    save, on which the programs differ, are not compared: the chroma
    subsampling, the optimize and progressive flags and the EXIF block. *)
Theorem programs_agree_without_webp (w : App.world) (self : App.app)
    (self_10x15 : Batch_10x15.app) (tree : list App.path) (dpi : Z) :
  Forall (fun p => App.lower (App.suffix p) <> ".webp") tree ->
  save_ends_alike w ->
  Batch_10x15.reads self_10x15 = App.reads self ->
  same_pictures (App.out_dir self) (Batch_10x15.out_dir self_10x15) ->
  let self' := App.process_all w self tree dpi in
  let self_10x15' := Batch_10x15.process_all w self_10x15 tree dpi in
  Forall2 same_outcome (new_lines self self')
    (drop (length (Batch_10x15.log self_10x15))
          (Batch_10x15.log self_10x15')) /\
  same_pictures (App.out_dir self') (Batch_10x15.out_dir self_10x15') /\
  (List.filter App.supported tree <> [] ->
   Batch_10x15.progress_value self_10x15' = App.progress_value self' /\
   Batch_10x15.progress_maximum self_10x15' = App.progress_maximum self').
Proof.
  intros Hwebp Halike Hreads Hsame self' self_10x15'.
  assert (List.filter Batch_10x15.supported tree
          = List.filter App.supported tree) as Efiles.
  { clear -Hwebp. induction tree as [|p tree IH]; [reflexivity|].
    inversion Hwebp as [|? ? Hp Hrest]; subst. cbn [List.filter].
    rewrite (supported_without_webp p Hp), (IH Hrest). reflexivity. }
  set (files := List.filter App.supported tree) in *.
  destruct (decide (files = [])) as [E|Hne].
  { unfold self', self_10x15', new_lines, App.process_all,
      Batch_10x15.process_all.
    rewrite Efiles. fold files. rewrite E. cbn. rewrite !drop_all.
    split; [constructor|]. split; [exact Hsame|]. intros C. contradiction. }
  destruct (first_stop (App.stop_flag w) (App.reads self) (length files))
    as (k & Hk & Hrun & Hstop).
  pose proof (process_all_spec w self tree dpi k Hne Hk Hrun Hstop) as H.
  cbv zeta in H. fold files self' in H.
  destruct H as (H1 & H2 & H3 & H4 & _).
  pose proof (process_all_10x15_spec w self_10x15 tree dpi k) as G.
  cbv zeta in G. rewrite Efiles in G. fold files self_10x15' in G.
  rewrite Hreads in G. specialize (G Hne Hk Hrun Hstop).
  destruct G as (G1 & _ & G2 & G3 & G4 & _).
  destruct (outcomes_same_pictures w dpi (take k files) Halike _ _ Hsame)
    as [Hlines Hdirs].
  unfold new_lines. rewrite H1, G1, !drop_app_length, H2, G2.
  split; [exact Hlines|]. split; [exact Hdirs|].
  intros _. rewrite G3, G4, H3, H4. auto.
Qed.

Lemma programs_agree_without_webp_witness :
  let w := sample_world true never App.Written in
  let tree := [sample_path "a" ".jpg"; sample_path "c" ".jpg"] in
  let self' := App.process_all w fresh_app tree 300 in
  let self_10x15' := Batch_10x15.process_all w fresh_app_10x15 tree 300 in
  Forall2 same_outcome (new_lines fresh_app self')
    (drop (length (Batch_10x15.log fresh_app_10x15))
          (Batch_10x15.log self_10x15')) /\
  same_pictures (App.out_dir self') (Batch_10x15.out_dir self_10x15') /\
  (List.filter App.supported tree <> [] ->
   Batch_10x15.progress_value self_10x15' = App.progress_value self' /\
   Batch_10x15.progress_maximum self_10x15' = App.progress_maximum self').
Proof.
  apply (programs_agree_without_webp (sample_world true never App.Written)
           fresh_app fresh_app_10x15
           [sample_path "a" ".jpg"; sample_path "c" ".jpg"] 300).
  - repeat constructor; vm_compute; discriminate.
  - intros n c p p'. reflexivity.
  - reflexivity.
  - intros n. cbn. rewrite !lookup_empty. exact I.
Defined.

(** Without that condition the programs can part: an encoder that raises
    unless it is asked to optimize makes [photo_formatter.py] record an
    error and leave nothing, where [10x15_Photo_Formatter.py] records a
    conversion. *)
Example saves_may_end_differently :
  let w := world_of_one_write (sample_image "a" 1200 800) in
  let f := sample_path "a" ".jpg" in
  App.convert w 300 ∅ f = (∅, Py.Raise Py.OSError) /\
  Photo_Formatter_10x15.convert w 300 ∅ f
  = (<["a_10x15.jpg" := App.Truncated]> ∅, Py.Ok "a_10x15.jpg").
Proof. vm_compute. split; reflexivity. Qed.

(** A valid file converted by the two programs: the same name and the
    same canvas; [photo_formatter.py] stores the EXIF block of the
    oriented image, [10x15_Photo_Formatter.py] the block of the image as
    opened. *)
Lemma convert_both_valid (w : App.world) (dpi : Z)
    (d : gmap string App.stored) (f : App.path) (img : PIL.image) :
  72 <= dpi <= 1200 -> valid_file w f -> App.image_open w f = Py.Ok img ->
  exists canvas,
    App.convert w dpi d f
    = (<[App.unique_dest d (App.stem f)
         := App.Complete canvas
              (App.save_args dpi (PIL.exif (PIL.exif_transpose img)))]> d,
       Py.Ok (App.unique_dest d (App.stem f))) /\
    Photo_Formatter_10x15.convert w dpi d f
    = (<[App.unique_dest d (App.stem f)
         := App.Complete canvas
              (Photo_Formatter_10x15.save_kwargs dpi (PIL.exif img))]> d,
       Py.Ok (App.unique_dest d (App.stem f))).
Proof.
  intros Hdpi (_ & (img' & Hopen' & Hvalid) & Hsave) Hopen.
  rewrite Hopen in Hopen'. injection Hopen' as <-.
  apply exif_transpose_valid in Hvalid.
  unfold App.convert, Photo_Formatter_10x15.convert.
  rewrite Hopen. cbn [mbind result_bind Py.bind].
  destruct (PIL.size (PIL.exif_transpose img)) as [iw ih] eqn:Esize.
  change (Photo_Formatter_10x15.compute_target_canvas iw ih dpi)
    with (photo_formatter.compute_target_canvas iw ih dpi).
  destruct (compute_target_canvas_accepted iw ih dpi Hdpi)
    as (tw & th & Hcanvas & Htw & Hth).
  rewrite Hcanvas. cbn [mbind result_bind Py.bind].
  change (Photo_Formatter_10x15.fit_with_letterbox (PIL.exif_transpose img)
            tw th (255, 255, 255))
    with (photo_formatter.fit_with_letterbox (PIL.exif_transpose img) tw th
            photo_formatter.white).
  destruct (fit_with_letterbox_returns (PIL.exif_transpose img) tw th
              photo_formatter.white)
    as (scale & nw & nh & canvas & _ & _ & _ & Hfit & _);
    try (rewrite exif_transpose_idem; apply Hvalid); try assumption.
  rewrite Hfit. cbn [mbind result_bind Py.bind]. cbv zeta.
  rewrite !save_fresh by apply unique_dest_free. rewrite !Hsave.
  exists canvas. auto.
Qed.

(** For a photo that carries an EXIF orientation from 2 to 8 and an EXIF
    block, both programs store the turned pixels, but not the same block:
    [photo_formatter.py] stores the block without its orientation tag,
    [10x15_Photo_Formatter.py] stores the block as it was opened, tag
    included. *)
Theorem convert_10x15_keeps_orientation_tag (w : App.world) (dpi : Z)
    (d : gmap string App.stored) (f : App.path) (img : PIL.image)
    (o : Z) (block : PIL.exif_data) :
  72 <= dpi <= 1200 -> valid_file w f -> App.image_open w f = Py.Ok img ->
  PIL.orientation img = Some o -> 2 <= o <= 8 ->
  PIL.exif img = Some block ->
  exists canvas,
    PIL.content (PIL.exif_transpose img) = PIL.Transposed o (PIL.content img) /\
    App.convert w dpi d f
    = (<[App.unique_dest d (App.stem f)
         := App.Complete canvas
              (App.save_args dpi (Some (PIL.WithoutOrientation block)))]> d,
       Py.Ok (App.unique_dest d (App.stem f))) /\
    Photo_Formatter_10x15.convert w dpi d f
    = (<[App.unique_dest d (App.stem f)
         := App.Complete canvas
              (Photo_Formatter_10x15.save_kwargs dpi (Some block))]> d,
       Py.Ok (App.unique_dest d (App.stem f))).
Proof.
  intros Hdpi Hf Hopen Ho Hrange Hexif.
  destruct (convert_both_valid w dpi d f img Hdpi Hf Hopen)
    as (canvas & H1 & H2).
  exists canvas. rewrite H1, H2, Hexif.
  unfold PIL.exif_transpose. rewrite Ho.
  replace ((2 <=? o) && (o <=? 8)) with true
    by (symmetry; apply andb_true_iff; split; apply Z.leb_le; lia).
  cbn [PIL.content PIL.exif]. rewrite Hexif. auto.
Qed.

Lemma convert_10x15_keeps_orientation_tag_witness :
  exists canvas,
    PIL.content (PIL.exif_transpose (turned_image "p" 1200 800 6))
    = PIL.Transposed 6 (PIL.content (turned_image "p" 1200 800 6)) /\
    App.convert (world_of (turned_image "p" 1200 800 6)) 300 ∅
      (sample_path "p" ".jpg")
    = (<[App.unique_dest ∅ (App.stem (sample_path "p" ".jpg"))
         := App.Complete canvas
              (App.save_args 300
                 (Some (PIL.WithoutOrientation (PIL.Raw "p"))))]> ∅,
       Py.Ok (App.unique_dest ∅ (App.stem (sample_path "p" ".jpg")))) /\
    Photo_Formatter_10x15.convert (world_of (turned_image "p" 1200 800 6))
      300 ∅ (sample_path "p" ".jpg")
    = (<[App.unique_dest ∅ (App.stem (sample_path "p" ".jpg"))
         := App.Complete canvas
              (Photo_Formatter_10x15.save_kwargs 300
                 (Some (PIL.Raw "p")))]> ∅,
       Py.Ok (App.unique_dest ∅ (App.stem (sample_path "p" ".jpg")))).
Proof.
  apply (convert_10x15_keeps_orientation_tag
           (world_of (turned_image "p" 1200 800 6)) 300 ∅
           (sample_path "p" ".jpg") (turned_image "p" 1200 800 6) 6
           (PIL.Raw "p")); try reflexivity; try lia.
  split; [reflexivity|]. split.
  - exists (turned_image "p" 1200 800 6). split; [reflexivity|].
    split; unfold valid_side; cbn; lia.
  - intros n c p. reflexivity.
Defined.

(** A source with a side of zero pixels stops the conversion at the
    division by that side: it raises [ZeroDivisionError], which the run
    records as an error, and the output directory is left as it was. *)
Theorem convert_zero_sided_source (w : App.world) (dpi : Z)
    (d : gmap string App.stored) (f : App.path) (img : PIL.image) :
  72 <= dpi <= 1200 -> App.image_open w f = Py.Ok img ->
  App.is_heic f && negb (App.heif_ok w) = false ->
  let src := PIL.exif_transpose img in
  fst (PIL.size src) = 0 \/
  (valid_side (fst (PIL.size src)) /\ snd (PIL.size src) = 0) ->
  App.convert w dpi d f = (d, Py.Raise Py.ZeroDivisionError) /\
  outcome w dpi d f = (App.ERR (App.name f) Py.ZeroDivisionError, d).
Proof.
  intros Hdpi Hopen Hcodec src Hzero.
  assert (App.convert w dpi d f = (d, Py.Raise Py.ZeroDivisionError)) as E.
  { unfold App.convert. rewrite Hopen. cbn [mbind result_bind Py.bind].
    fold src. destruct (PIL.size src) as [iw ih] eqn:Esize.
    cbn [fst snd] in Hzero.
    destruct (compute_target_canvas_accepted iw ih dpi Hdpi)
      as (tw & th & Hcanvas & Htw & Hth).
    rewrite Hcanvas. cbn [mbind result_bind Py.bind].
    unfold photo_formatter.fit_with_letterbox.
    replace (PIL.exif_transpose src) with src
      by (unfold src; symmetry; apply exif_transpose_idem).
    fold (has_alpha src).
    set (conv := if has_alpha src then PIL.convert src PIL.RGBA
                 else PIL.convert src PIL.RGB).
    assert (PIL.size conv = (iw, ih)) as ->.
    { unfold conv. destruct (has_alpha src); cbn [PIL.convert PIL.size];
        exact Esize. }
    destruct Hzero as [->|[Hw ->]].
    - unfold Py.int_truediv. cbn [Z.eqb mbind result_bind Py.bind].
      reflexivity.
    - destruct (side_ratio_spec tw iw) as (rw & v & -> & _).
      { unfold valid_side in Hw.
        assert (2 ^ 31 < 2 ^ 53) by (apply Z.pow_lt_mono_r; lia). lia. }
      { unfold valid_side in Htw.
        assert (2 ^ 31 < 2 ^ 53) by (apply Z.pow_lt_mono_r; lia). lia. }
      cbn [mbind result_bind Py.bind].
      unfold Py.int_truediv. cbn [Z.eqb mbind result_bind Py.bind].
      reflexivity. }
  split; [exact E|]. unfold outcome. rewrite Hcodec, E. reflexivity.
Qed.

Lemma convert_zero_sided_source_witness :
  App.convert (world_of (sample_image "z" 0 10)) 300 ∅ (sample_path "z" ".png")
  = (∅, Py.Raise Py.ZeroDivisionError) /\
  outcome (world_of (sample_image "z" 0 10)) 300 ∅ (sample_path "z" ".png")
  = (App.ERR (App.name (sample_path "z" ".png")) Py.ZeroDivisionError, ∅).
Proof.
  apply (convert_zero_sided_source (world_of (sample_image "z" 0 10)) 300 ∅
           (sample_path "z" ".png") (sample_image "z" 0 10));
    [lia|reflexivity|reflexivity|left; reflexivity].
Defined.

(** ** The two [start]s side by side *)

Section Starts.

Context {row : Type}.

Implicit Types (self : Tk.app row) (e : Tk.env).

Lemma starts_grows self (s' : Tk.app row) (t : Tk.thread) :
  Tk.threads s' = Tk.threads self -> Tk.threads s' <> t :: Tk.threads self.
Proof.
  intros E C. rewrite E in C.
  apply (f_equal length) in C. cbn in C. lia.
Qed.

(** [start] of [photo_formatter.py] starts a thread exactly when no worker
    runs, the input text is not blank and names an existing path, the DPI
    text reads as an integer from 72 to 1200 and the output folder can be
    made. *)
Lemma start_starts_iff e self (t : Tk.thread) :
  starts (Controls.start e self) self t <->
  Tk.worker_running self = false /\
  Tk.strip e (Tk.input_dir self) <> "" /\
  Tk.path_exists e (Tk.strip e (Tk.input_dir self)) = true /\
  Tk.int e (Tk.strip e (Tk.dpi_var self)) = Py.Ok (Tk.dpi t) /\
  72 <= Tk.dpi t <= 1200 /\
  Tk.mkdir e (Tk.strip e (Tk.output_dir self)) = None /\
  Tk.in_dir t = Tk.strip e (Tk.input_dir self) /\
  Tk.out_dir t = Tk.strip e (Tk.output_dir self).
Proof.
  unfold starts. split.
  - intros (s' & Hs & Ht).
    destruct (start_cases e self)
      as [[_ E]|[[_ [text E]]|[[_ [exn E]]|[Hrun (dpi & Hint & Hdpi & Hblank
                                               & Hex & Hmk & E)]]]];
      rewrite E in Hs; try discriminate; injection Hs as <-.
    + exfalso. exact (starts_grows self self t eq_refl Ht).
    + exfalso. exact (starts_grows self _ t eq_refl Ht).
    + cbn in Ht. injection Ht as <-. cbn. auto 10.
  - intros (Hrun & Hblank & Hex & Hint & Hdpi & Hmk & Hin & Hout).
    unfold Controls.start. rewrite Hrun, Hex. unfold Tk.truthy.
    rewrite bool_decide_eq_false_2 by exact Hblank. cbn [negb orb].
    rewrite Hint. cbn [mbind result_bind Py.bind]. unfold App.check_dpi.
    replace ((72 <=? Tk.dpi t) && (Tk.dpi t <=? 1200)) with true
      by (symmetry; apply andb_true_iff; split; apply Z.leb_le; lia).
    rewrite Hmk. eexists. split; [reflexivity|]. cbn.
    rewrite <- Hin, <- Hout. destruct t; reflexivity.
Qed.

(** [start] of [10x15_Photo_Formatter.py] asks for an existing input
    path, blank or not, and for a DPI from 72 to 600. *)
Lemma start_10x15_starts_iff e self (t : Tk.thread) :
  starts (Controls_10x15.start e self) self t <->
  Tk.worker_running self = false /\
  Tk.path_exists e (Tk.strip e (Tk.input_dir self)) = true /\
  Tk.int e (Tk.strip e (Tk.dpi_var self)) = Py.Ok (Tk.dpi t) /\
  72 <= Tk.dpi t <= 600 /\
  Tk.mkdir e (Tk.strip e (Tk.output_dir self)) = None /\
  Tk.in_dir t = Tk.strip e (Tk.input_dir self) /\
  Tk.out_dir t = Tk.strip e (Tk.output_dir self).
Proof.
  unfold starts. split.
  - intros (s' & Hs & Ht).
    destruct (start_10x15_cases e self)
      as [[_ E]|[[_ [text E]]|[[_ [exn E]]|[Hrun (dpi & Hint & Hdpi & Hex
                                               & Hmk & E)]]]];
      rewrite E in Hs; try discriminate; injection Hs as <-.
    + exfalso. exact (starts_grows self self t eq_refl Ht).
    + exfalso. exact (starts_grows self _ t eq_refl Ht).
    + cbn in Ht. injection Ht as <-. cbn. auto 10.
  - intros (Hrun & Hex & Hint & Hdpi & Hmk & Hin & Hout).
    unfold Controls_10x15.start. rewrite Hrun, Hex. cbn [negb].
    rewrite Hint. cbn [mbind result_bind Py.bind].
    unfold Controls_10x15.check_dpi.
    replace ((Tk.dpi t <? 72) || (600 <? Tk.dpi t)) with false
      by (symmetry; apply orb_false_iff; split; apply Z.ltb_ge; lia).
    rewrite Hmk. eexists. split; [reflexivity|]. cbn.
    rewrite <- Hin, <- Hout. destruct t; reflexivity.
Qed.

End Starts.

(** The two programs start the same thread from the same window, save
    for two cases: a thread [10x15_Photo_Formatter.py] starts is started by
    [photo_formatter.py] too unless its input folder is the blank text,
    and a thread [photo_formatter.py] starts is started by
    [10x15_Photo_Formatter.py] too unless its DPI is above 600. *)
Theorem starts_agree (row : Type) (e : Tk.env) (self : Tk.app row)
    (t : Tk.thread) :
  (starts (Controls_10x15.start e self) self t /\ Tk.in_dir t <> "" ->
   starts (Controls.start e self) self t) /\
  (starts (Controls.start e self) self t /\ Tk.dpi t <= 600 ->
   starts (Controls_10x15.start e self) self t) /\
  (starts (Controls.start e self) self t ->
   Tk.in_dir t <> "" /\ 72 <= Tk.dpi t <= 1200) /\
  (starts (Controls_10x15.start e self) self t -> 72 <= Tk.dpi t <= 600).
Proof.
  rewrite start_starts_iff, start_10x15_starts_iff.
  split; [|split; [|split]].
  - intros [(Hrun & Hex & Hint & Hdpi & Hmk & Hin & Hout) Hblank].
    rewrite Hin in Hblank. repeat (split; [assumption || lia|]). assumption.
  - intros [(Hrun & Hblank & Hex & Hint & Hdpi & Hmk & Hin & Hout) H600].
    repeat (split; [assumption || lia|]). assumption.
  - intros (Hrun & Hblank & Hex & Hint & Hdpi & Hmk & Hin & Hout).
    rewrite Hin. auto.
  - intros (Hrun & Hex & Hint & Hdpi & Hmk & Hin & Hout). exact Hdpi.
Qed.

(** On a blank input text the two programs part: [photo_formatter.py]
    shows the error on the input folder and starts nothing, whereas
    [10x15_Photo_Formatter.py], for which the blank path exists as the
    current directory does, starts a run on it. *)
Theorem start_blank_input_folder (row : Type) (e : Tk.env)
    (self : Tk.app row) (dpi : Z) :
  Tk.worker_running self = false ->
  Tk.strip e (Tk.input_dir self) = "" ->
  Tk.path_exists e "" = true ->
  Tk.int e (Tk.strip e (Tk.dpi_var self)) = Py.Ok dpi -> 72 <= dpi <= 600 ->
  Tk.mkdir e (Tk.strip e (Tk.output_dir self)) = None ->
  Controls.start e self
  = Py.Ok (Tk.showerror self "Please select a valid input folder.") /\
  starts (Controls_10x15.start e self) self
    {| Tk.in_dir := ""; Tk.out_dir := Tk.strip e (Tk.output_dir self);
       Tk.dpi := dpi |}.
Proof.
  intros Hrun Hblank Hex Hint Hdpi Hmk. split.
  - unfold Controls.start. rewrite Hrun, Hblank, Hex. reflexivity.
  - apply start_10x15_starts_iff. cbn. rewrite Hblank. auto 10.
Qed.

Lemma start_blank_input_folder_witness :
  Controls.start (easy_env 300) (Controls.init : Tk.app App.log_line)
  = Py.Ok (Tk.showerror Controls.init "Please select a valid input folder.") /\
  starts (Controls_10x15.start (easy_env 300) Controls.init)
    (Controls.init : Tk.app App.log_line)
    {| Tk.in_dir := "";
       Tk.out_dir := Tk.strip (easy_env 300) (Tk.output_dir
                       (Controls.init : Tk.app App.log_line));
       Tk.dpi := 300 |}.
Proof.
  apply (start_blank_input_folder App.log_line (easy_env 300) Controls.init
           300); try reflexivity. lia.
Defined.

(** A thread is started on a window made ready for it, in both programs:
    the stop flag is reset, so that a Stop of an earlier run does not
    reach the new one; the log of the earlier run is cleared; the buttons
    say that a run is in progress; a call of [poll_worker] is scheduled;
    and no error is shown and no entry is changed. *)
Theorem start_makes_window_ready (row : Type) (e : Tk.env)
    (self : Tk.app row) (t : Tk.thread) :
  (starts (Controls.start e self) self t <->
   exists self', Controls.start e self = Py.Ok self' /\
                 Tk.threads self' = t :: Tk.threads self /\
                 made_ready "Initializing..." self self') /\
  (starts (Controls_10x15.start e self) self t <->
   exists self', Controls_10x15.start e self = Py.Ok self' /\
                 Tk.threads self' = t :: Tk.threads self /\
                 made_ready "Scanning for images..." self self').
Proof.
  split; (split; [|intros (s' & Hs & Ht & _); exists s'; split; assumption]).
  - intros (s' & Hs & Ht). exists s'. split; [exact Hs|]. split; [exact Ht|].
    destruct (start_cases e self)
      as [[_ E]|[[_ [text E]]|[[_ [exn E]]|[Hrun (dpi & _ & _ & _ & _ & _
                                               & E)]]]];
      rewrite E in Hs; try discriminate; injection Hs as <-.
    + exfalso. exact (starts_grows self self t eq_refl Ht).
    + exfalso. exact (starts_grows self _ t eq_refl Ht).
    + unfold made_ready, buttons_processing. cbn. auto 12.
  - intros (s' & Hs & Ht). exists s'. split; [exact Hs|]. split; [exact Ht|].
    destruct (start_10x15_cases e self)
      as [[_ E]|[[_ [text E]]|[[_ [exn E]]|[Hrun (dpi & _ & _ & _ & _
                                               & E)]]]];
      rewrite E in Hs; try discriminate; injection Hs as <-.
    + exfalso. exact (starts_grows self self t eq_refl Ht).
    + exfalso. exact (starts_grows self _ t eq_refl Ht).
    + unfold made_ready, buttons_processing. cbn. auto 12.
Qed.
